(** * db-change-notifier: a shallow embedding of the change-relay pipeline

    The development follows the TypeScript sources:
    - [Listener]      the PostgreSQL notification listener (reconnect timer,
                      exponential backoff);
    - [Adapter]       the PostgreSQL adapter (table list query, trigger
                      set-up and tear-down, payload handling);
    - [Notifier]      the core notifier (transform pipeline, batching,
                      fan-out delivery, statistics, cleanup).

    The timers of the event loop are an explicit part of the state.  The
    listener is modelled one synchronous segment at a time, so that calls
    and settlements interleave.  In the adapter and the notifier an awaited
    external call (a database query, a sink delivery) takes its outcome as
    an argument and settles at once; logging is taken not to throw. *)

From Stdlib Require Import ZArith Lia Bool QArith Qcanon Ascii DecimalString.
From stdpp Require Import base option list strings gmap.

Open Scope string_scope.

(** ** Results of calls that may throw *)

Inductive result (E A : Type) : Type :=
| Returned (a : A)
| Threw (e : E).
Arguments Returned {E A} a.
Arguments Threw {E A} e.

(* ================================================================== *)
(** * The notification listener (notification-listener.ts)            *)
(* ================================================================== *)

Module Listener.

(** How the calls [connect] awaits ([client.connect()], then
    [LISTEN channel]) settle. *)
Inductive connect_outcome := ConnectOk | ConnectFails.

(** How the calls [disconnect] awaits ([UNLISTEN channel], then
    [client.end()]) settle. *)
Inductive disconnect_outcome := DisconnectOk | DisconnectFails.

(** A timer of the event loop: the handle [setTimeout] returned and the
    delay it was armed with. *)
Record Timer := { timer_id : nat; timer_delay : Z }.

(** The closure variables of [createNotificationListener], together with
    the part of the runtime they act on. *)
Record State := {
  client : option nat;            (* let client: Client | null *)
  connected : bool;               (* let connected *)
  connectionAttempts : nat;       (* let connectionAttempts *)
  reconnectTimeout : option nat;  (* let reconnectTimeout: Timeout | null *)
  pending : list Timer;           (* timers armed and neither fired nor cleared *)
  next_timer : nat;               (* next handle setTimeout gives out *)
  next_client : nat;              (* next Client object *)
  connecting : nat;               (* calls of connect suspended at an await *)
  disconnecting : nat             (* calls of disconnect suspended at an await *)
}.

Definition init : State :=
  {| client := None; connected := false; connectionAttempts := 0;
     reconnectTimeout := None; pending := []; next_timer := 0;
     next_client := 0; connecting := 0; disconnecting := 0 |}.

Definition set_conn (c : option nat) (b : bool) (n : nat) (s : State) : State :=
  {| client := c; connected := b; connectionAttempts := n;
     reconnectTimeout := reconnectTimeout s; pending := pending s;
     next_timer := next_timer s; next_client := next_client s;
     connecting := connecting s; disconnecting := disconnecting s |}.

Definition set_timer (h : option nat) (p : list Timer) (n : nat) (s : State) : State :=
  {| client := client s; connected := connected s;
     connectionAttempts := connectionAttempts s;
     reconnectTimeout := h; pending := p; next_timer := n;
     next_client := next_client s;
     connecting := connecting s; disconnecting := disconnecting s |}.

Definition set_suspended (c d : nat) (s : State) : State :=
  {| client := client s; connected := connected s;
     connectionAttempts := connectionAttempts s;
     reconnectTimeout := reconnectTimeout s; pending := pending s;
     next_timer := next_timer s; next_client := next_client s;
     connecting := c; disconnecting := d |}.

(** [client = new Client(connectionConfig)] *)
Definition new_client (s : State) : State :=
  {| client := Some (next_client s); connected := connected s;
     connectionAttempts := connectionAttempts s;
     reconnectTimeout := reconnectTimeout s; pending := pending s;
     next_timer := next_timer s; next_client := S (next_client s);
     connecting := connecting s; disconnecting := disconnecting s |}.

(** [clearTimeout(h)] *)
Definition clearTimeout (h : nat) (s : State) : State :=
  set_timer (reconnectTimeout s) (filter (λ t, timer_id t ≠ h) (pending s))
            (next_timer s) s.

(** [reconnectTimeout = setTimeout(callback, delay)] *)
Definition setReconnectTimeout (delay : Z) (s : State) : State :=
  set_timer (Some (next_timer s))
            (pending s ++ [ {| timer_id := next_timer s; timer_delay := delay |} ])
            (S (next_timer s)) s.

(** [handleReconnect(delay)]: clear the armed timer, if any, and arm a new
    one. *)
Definition handleReconnect (delay : Z) (s : State) : State :=
  let s1 := match reconnectTimeout s with
            | Some h => clearTimeout h s
            | None => s
            end in
  setReconnectTimeout delay s1.

(** [Math.min(1000 * Math.pow(2, connectionAttempts - 1), 30000)]; at 0
    the power is one half. *)
Definition backoff (attempts : nat) : Z :=
  match attempts with
  | O => 500
  | S _ => Z.min (1000 * 2 ^ (Z.of_nat attempts - 1)) 30000
  end.

(** [connect()] up to its first [await]. *)
Definition connect_begin (s : State) : State :=
  if connected s then s
  else
    (* connectionAttempts++; client = new Client(...); await client.connect() *)
    let s1 := new_client (set_conn (client s) (connected s) (S (connectionAttempts s)) s) in
    set_suspended (S (connecting s1)) (disconnecting s1) s1.

(** [connect()] from the settlement of the calls it awaits.  When they
    reject, the state changes of the [catch] block all happen after its
    own [await client.end()]. *)
Definition connect_settle (o : connect_outcome) (s : State) : State * result unit unit :=
  match connecting s with
  | O => (s, Returned tt)
  | S n =>
      let s0 := set_suspended n (disconnecting s) s in
      match o with
      | ConnectOk =>
          (* connected = true; connectionAttempts = 0 *)
          (set_conn (client s0) true 0 s0, Returned tt)
      | ConnectFails =>
          (* client = null; connected = false *)
          let s2 := set_conn None false (connectionAttempts s0) s0 in
          let delay := backoff (connectionAttempts s2) in
          (* handleReconnect(delay); throw err *)
          (handleReconnect delay s2, Threw tt)
      end
  end.

(** [connect()] with nothing happening while it is suspended. *)
Definition connect (o : connect_outcome) (s : State) : State * result unit unit :=
  if connected s then (s, Returned tt) else connect_settle o (connect_begin s).

(** [handleDisconnect()] *)
Definition handleDisconnect (s : State) : State :=
  if negb (connected s) then s
  else
    (* connected = false; client.end(); client = null; connectionAttempts++ *)
    let s1 := set_conn None false (S (connectionAttempts s)) s in
    let delay := backoff (connectionAttempts s1) in
    handleReconnect delay s1.

(** The ['error'] handler registered on the client: [onError(err)] and
    then [handleDisconnect()]. *)
Definition transport_error (s : State) : State := handleDisconnect s.

(** [disconnect()] up to its first [await]; the boolean tells whether it
    got there or returned before. *)
Definition disconnect_begin (s : State) : State * bool :=
  let s1 := match reconnectTimeout s with
            | Some h =>
                let c := clearTimeout h s in
                set_timer None (pending c) (next_timer c) c
            | None => s
            end in
  if negb (connected s1) || negb (bool_decide (is_Some (client s1)))
  then (s1, false)
  else (set_suspended (connecting s1) (S (disconnecting s1)) s1, true).

(** [disconnect()] from the settlement of the calls it awaits: both
    branches end with [connected = false] and [client = null]. *)
Definition disconnect_settle (o : disconnect_outcome) (s : State)
  : State * result unit unit :=
  match disconnecting s with
  | O => (s, Returned tt)
  | S n =>
      let s0 := set_suspended (connecting s) n s in
      match o with
      | DisconnectOk => (set_conn None false (connectionAttempts s0) s0, Returned tt)
      | DisconnectFails => (set_conn None false (connectionAttempts s0) s0, Threw tt)
      end
  end.

(** [disconnect()] with nothing happening while it is suspended. *)
Definition disconnect (o : disconnect_outcome) (s : State) : State * result unit unit :=
  let '(s1, suspended) := disconnect_begin s in
  if suspended then disconnect_settle o s1 else (s1, Returned tt).

(** The callback given to [setTimeout] in [handleReconnect], run by the
    event loop when the first armed timer is due: the timer leaves the
    loop, the handle is reset, and [connect] is called when the listener is
    not connected. *)
Definition timer_fires (s : State) : State :=
  match pending s with
  | [] => s
  | _ :: rest =>
      let s1 := set_timer None rest (next_timer s) s in
      if negb (connected s1) then connect_begin s1 else s1
  end.

(** What can happen to one listener, one synchronous segment at a time. *)
Inductive event :=
| CallConnect
| ConnectSettles (o : connect_outcome)
| TransportError
| CallDisconnect
| DisconnectSettles (o : disconnect_outcome)
| TimerFires.

Definition step (s : State) (e : event) : State :=
  match e with
  | CallConnect => connect_begin s
  | ConnectSettles o => fst (connect_settle o s)
  | TransportError => transport_error s
  | CallDisconnect => fst (disconnect_begin s)
  | DisconnectSettles o => fst (disconnect_settle o s)
  | TimerFires => timer_fires s
  end.

Definition run (evs : list event) (s : State) : State := foldl step s evs.

(** A connection failure that runs alone: a connect attempt that fails
    while the listener is not connected, called from outside or by the
    retry timer when it is due, with nothing happening between its start
    and its rejection, or a transport error while the listener is
    connected.  (The rejection of an attempt that overlaps another one is
    [connect_settle ConnectFails] on a state with attempts under way; the
    failures of a whole run are counted by [failures_in_a_row] below.) *)
Inductive failure : State -> State -> Prop :=
| failure_connect s :
    connected s = false -> failure s (fst (connect ConnectFails s))
| failure_retry s :
    connected s = false -> pending s <> [] ->
    failure s (fst (connect_settle ConnectFails (timer_fires s)))
| failure_transport s :
    connected s = true -> failure s (transport_error s).

(** The delays of the timers that are armed. *)
Definition scheduled_delays (s : State) : list Z := timer_delay <$> pending s.

(** The handle variable and the event loop agree: the armed timers are
    exactly the one the handle names, if any. *)
Definition timers_ok (s : State) : Prop :=
  timer_id <$> pending s = option_list (reconnectTimeout s).

(** While connected no failure has been counted since the last success. *)
Definition counter_ok (s : State) : Prop :=
  connected s = true -> connectionAttempts s = 0.

(** The timers of [s'] are those of [s]. *)
Definition same_timers (s s' : State) : Prop :=
  pending s' = pending s /\ reconnectTimeout s' = reconnectTimeout s
  /\ next_timer s' = next_timer s.

(** ** Failures in a row along a run *)

(** A connection failure, as an event of a run: a connect attempt under
    way rejects, or a transport error reaches a connected listener (on a
    listener that is not connected, [handleDisconnect] returns at once). *)
Definition fails (s : State) (e : event) : bool :=
  match e with
  | ConnectSettles ConnectFails => negb (Nat.eqb (connecting s) 0)
  | TransportError => connected s
  | _ => false
  end.

(** A successful connect: a connect attempt under way resolves. *)
Definition succeeds (s : State) (e : event) : bool :=
  match e with
  | ConnectSettles ConnectOk => negb (Nat.eqb (connecting s) 0)
  | _ => false
  end.

(** One event of a run, with the number of connection failures since the
    last successful connect. *)
Definition count_step (ks : nat * State) (e : event) : nat * State :=
  (if succeeds (snd ks) e then 0 else if fails (snd ks) e then S (fst ks) else fst ks,
   step (snd ks) e).

(** The number of connection failures in a row at the end of a run from
    the initial state. *)
Definition failures_in_a_row (evs : list event) : nat :=
  fst (foldl count_step (0, init) evs).

(** One event of a run, with whether at most one connect attempt was
    under way all along. *)
Definition serial_step (bs : bool * State) (e : event) : bool * State :=
  (fst bs && Nat.leb (connecting (step (snd bs) e)) 1, step (snd bs) e).

(** No connect attempt of the run begins while another one is under
    way. *)
Definition serial (evs : list event) : bool :=
  fst (foldl serial_step (true, init) evs).

(** Without overlapping attempts, the counter is the number of failures
    in a row, plus one for the attempt under way. *)
Definition attempts_ok (k : nat) (s : State) : Prop :=
  connectionAttempts s = k + connecting s
  /\ connecting s <= 1
  /\ (connected s = true -> connecting s = 0).

(** No armed timer waits longer than the ceiling. *)
Definition delays_ok (s : State) : Prop :=
  Forall (λ t, (500 <= timer_delay t <= 30000)%Z) (pending s).

End Listener.

(* ================================================================== *)
(** * Values of the host language                                      *)
(* ================================================================== *)

(** What [JSON.parse] can return and what a property read can give
    ([undefined]).  Numbers are kept as rationals. *)
#[warnings="-register-all"] Inductive value : Type :=
| VUndefined
| VNull
| VBool (b : bool)
| VNumber (q : Qc)
| VString (s : string)
| VArray (items : list value)
| VObject (fields : list (string * value)).

(** Truthiness, as [||], [?:] and [if] see it. *)
Definition truthy (v : value) : bool :=
  match v with
  | VUndefined | VNull => false
  | VBool b => b
  | VNumber q => negb (bool_decide (q = 0%Qc))
  | VString s => negb (bool_decide (s = ""))
  | VArray _ | VObject _ => true
  end.

(** [a || b] *)
Definition js_or (a b : value) : value := if truthy a then a else b.

Inductive js_error :=
| SyntaxError (msg : string)
| TypeError (msg : string)
| RangeError (msg : string)
| PgError (msg : string)
| UserError (msg : string)
| DeliveryError (msg : string)
| DBChangeError (msg : string) (cause : js_error).

Fixpoint assoc (k : string) (fields : list (string * value)) : option value :=
  match fields with
  | [] => None
  | (k', v) :: rest => if bool_decide (k = k') then Some v else assoc k rest
  end.

(** [v.k] for the keys the adapter reads ([id], [timestamp], [operation],
    [table], [schema], [data], [new], [old]): none of them is a property of
    a boxed primitive or of an array. *)
Definition get (v : value) (k : string) : result js_error value :=
  match v with
  | VUndefined | VNull => Threw (TypeError "Cannot read properties of null or undefined")
  | VObject fields => Returned (default VUndefined (assoc k fields))
  | _ => Returned VUndefined
  end.

(** [v?.k] *)
Definition get_opt (v : value) (k : string) : value :=
  match v with
  | VObject fields => default VUndefined (assoc k fields)
  | _ => VUndefined
  end.

(** The builtins the code calls and this development does not define. *)
Class JsRuntime := {
  (** [JSON.parse(text)]; [None] is a [SyntaxError]. *)
  JSON_parse : string -> option value;
  (** [new Date(v * 1000).toISOString()]; [None] is the [RangeError] of an
      invalid date. *)
  epoch_to_iso : value -> option string;
  (** [ToString(v)], as template literals and [RegExp.prototype.test]
      apply it. *)
  ToString : value -> string;
  (** Whether [new RegExp(source)] accepts the pattern. *)
  regexp_valid : string -> bool;
  (** The matcher behind [RegExp.prototype.exec]: for a pattern source, a
      subject and a start index, the end index of the first match that
      starts at or after the start index. *)
  regexp_match : string -> string -> nat -> option nat
}.

(** Sequencing of calls that may throw. *)
Definition rbind {E A B} (r : result E A) (k : A -> result E B) : result E B :=
  match r with
  | Returned a => k a
  | Threw e => Threw e
  end.

Notation "'let!' x := r 'in' k" := (rbind r (λ x, k))
  (at level 10, x name, r at level 100, k at level 200, only parsing).

(** ** Code that updates a state and may throw *)

Definition SE (S A : Type) : Type := S -> S * result js_error A.

Definition se_ret {S A} (a : A) : SE S A := λ s, (s, Returned a).

Definition se_throw {S A} (e : js_error) : SE S A := λ s, (s, Threw e).

Definition se_bind {S A B} (m : SE S A) (k : A -> SE S B) : SE S B :=
  λ s, match m s with
       | (s', Returned a) => k a s'
       | (s', Threw e) => (s', Threw e)
       end.

Notation "'do!' x := m 'in' k" := (se_bind m (λ x, k))
  (at level 10, x name, m at level 100, k at level 200, only parsing).

(** A pure call that may throw. *)
Definition se_lift {S A} (r : result js_error A) : SE S A := λ s, (s, r).

Definition se_modify {S} (g : S -> S) : SE S unit := λ s, (g s, Returned tt).

(** [try { body } catch (err) { handler(err) }]: the state changes the
    body made before it threw stay. *)
Definition se_try {S A} (body : SE S A) (handler : js_error -> SE S A) : SE S A :=
  λ s, match body s with
       | (s', Returned a) => (s', Returned a)
       | (s', Threw e) => handler e s'
       end.

(** [try { body } finally { cleanup }] *)
Definition se_finally {S A} (body : SE S A) (cleanup : SE S unit) : SE S A :=
  λ s, match body s with
       | (s', r) =>
           match cleanup s' with
           | (s'', Returned _) => (s'', r)
           | (s'', Threw e) => (s'', Threw e)
           end
       end.

(** [for (const x of l) { body(x) }] *)
Fixpoint se_for {S A} (l : list A) (body : A -> SE S unit) : SE S unit :=
  match l with
  | [] => se_ret tt
  | x :: rest => do! _ := body x in se_for rest body
  end.

(** * Shared types (types.ts) *)

Inductive OperationType :=
| INSERT | UPDATE | DELETE | REPLACE | DROP | TRUNCATE | UNKNOWN.

(** A change event as it exists at run time: [id], [source.table] and
    [source.schema] hold whatever value they were given; an optional
    property of [data] that is absent is [None]. *)
Record ChangeEvent := {
  ev_id : value;
  ev_timestamp : string;
  ev_operation : OperationType;
  ev_database : string;          (* database.name; database.type is 'postgresql' *)
  ev_table : value;              (* source.table *)
  ev_schema : value;             (* source.schema *)
  ev_data_new : option value;    (* data.new *)
  ev_data_old : option value     (* data.old *)
}.

(* ================================================================== *)
(** * The PostgreSQL adapter (adapter.ts)                              *)
(* ================================================================== *)

Module Adapter.

(** ** The table filter and the catalog *)

Record TableFilter := {
  include : option (list string);
  exclude : option (list string);
  schemas : option (list string)
}.

(** A row of [information_schema.tables]. *)
Inductive table_type := BASE_TABLE | VIEW | FOREIGN | LOCAL_TEMPORARY.

Record CatalogRow := {
  table_schema : string;
  table_name : string;
  row_type : table_type
}.

#[global] Instance table_type_eq_dec : EqDecision table_type.
Proof. solve_decision. Defined.

(** ** The query text [getTableList] builds *)

(** The template the query starts from (white space normalised). *)
Definition base_query : string :=
  "SELECT table_schema, table_name FROM information_schema.tables WHERE table_type = 'BASE TABLE' AND table_schema = ANY($1::text[])".

(** [filter.x && filter.x.length > 0] *)
Definition present (o : option (list string)) : bool :=
  match o with
  | Some (_ :: _) => true
  | _ => false
  end.

(** [`${n}`] for a length. *)
Definition decimal (n : nat) : string := NilEmpty.string_of_uint (Nat.to_uint n).

(** The text and the parameters handed to [client.query].  The include
    clause is written with the placeholder [$2]; in the exclude clause
    [${params.length + 1}] is a template substitution, so the text gets
    the bare number. *)
Definition table_list_query (f : TableFilter) : string * list (list string) :=
  let schemas := default ["public"] (schemas f) in
  let query := base_query in
  let params := [schemas] in
  let '(query, params) :=
    if present (include f)
    then (query +:+ " AND table_name = ANY($2::text[])",
          (params ++ [default [] (include f)])%list)
    else (query, params) in
  let '(query, params) :=
    if present (exclude f)
    then (query +:+ " AND table_name != ALL(" +:+ decimal (length params + 1) +:+ "::text[])",
          (params ++ [default [] (exclude f)])%list)
    else (query, params) in
  (query, params).

(** ** What the server does with such a query *)

(** The operand of [ANY(...)] / [ALL(...)]: a placeholder [$n] or an
    integer literal, cast to [text[]]. *)
Inductive array_expr := Placeholder (n : nat) | IntegerLiteral (n : nat).

Inductive name_cond := NameAny (a : array_expr) | NameNotAll (a : array_expr).

Fixpoint strip_prefix (p s : string) : option string :=
  match p, s with
  | EmptyString, _ => Some s
  | String a p', String b s' => if bool_decide (a = b) then strip_prefix p' s' else None
  | String _ _, EmptyString => None
  end.

Definition digit_of (c : ascii) : option nat :=
  let n := nat_of_ascii c in
  if Nat.leb 48 n && Nat.leb n 57 then Some (n - 48) else None.

Fixpoint read_digits (acc : nat) (s : string) : nat * string :=
  match s with
  | String c s' =>
      match digit_of c with
      | Some d => read_digits (10 * acc + d) s'
      | None => (acc, s)
      end
  | EmptyString => (acc, s)
  end.

Definition read_number (s : string) : option (nat * string) :=
  match s with
  | String c _ => if bool_decide (is_Some (digit_of c)) then Some (read_digits 0 s) else None
  | EmptyString => None
  end.

(** [$n::text[])] or [n::text[])] *)
Definition read_array_expr (s : string) : option (array_expr * string) :=
  match strip_prefix "$" s with
  | Some r =>
      '(n, r1) ← read_number r;
      r2 ← strip_prefix "::text[])" r1;
      Some (Placeholder n, r2)
  | None =>
      '(n, r1) ← read_number s;
      r2 ← strip_prefix "::text[])" r1;
      Some (IntegerLiteral n, r2)
  end.

Fixpoint read_conds (fuel : nat) (s : string) : option (list name_cond) :=
  match fuel with
  | O => None
  | S fuel' =>
      if bool_decide (s = "") then Some []
      else
        match strip_prefix " AND table_name = ANY(" s with
        | Some r =>
            '(a, r1) ← read_array_expr r;
            cs ← read_conds fuel' r1;
            Some (NameAny a :: cs)
        | None =>
            r ← strip_prefix " AND table_name != ALL(" s;
            '(a, r1) ← read_array_expr r;
            cs ← read_conds fuel' r1;
            Some (NameNotAll a :: cs)
        end
  end.

(** The conditions on [table_name] that follow the template. *)
Definition parse_query (text : string) : option (list name_cond) :=
  r ← strip_prefix base_query text;
  read_conds (S (String.length r)) r.

(** The value of a [text[]] operand.  A placeholder is looked up in the
    parameters of the call; an integer cannot be cast to [text[]], and the
    server rejects the statement. *)
Definition array_value (params : list (list string)) (a : array_expr)
  : result js_error (list string) :=
  match a with
  | Placeholder O => Threw (PgError "there is no parameter $0")
  | Placeholder (S i) =>
      match params !! i with
      | Some v => Returned v
      | None => Threw (PgError "there is no such parameter")
      end
  | IntegerLiteral _ => Threw (PgError "cannot cast type integer to text[]")
  end.

Definition eval_cond (params : list (list string)) (c : name_cond)
  : result js_error (string -> bool) :=
  match c with
  | NameAny a => let! vs := array_value params a in Returned (λ n, bool_decide (n ∈ vs))
  | NameNotAll a => let! vs := array_value params a in Returned (λ n, negb (bool_decide (n ∈ vs)))
  end.

Fixpoint eval_conds (params : list (list string)) (cs : list name_cond)
  : result js_error (string -> bool) :=
  match cs with
  | [] => Returned (λ _, true)
  | c :: cs' =>
      let! k := eval_cond params c in
      let! ks := eval_conds params cs' in
      Returned (λ n, k n && ks n)
  end.

(** The highest placeholder a statement mentions ([$1] is in the
    template). *)
Definition placeholder_index (c : name_cond) : nat :=
  match c with
  | NameAny (Placeholder n) | NameNotAll (Placeholder n) => n
  | _ => 0
  end.

Definition statement_arity (cs : list name_cond) : nat :=
  foldr Nat.max 1 (placeholder_index <$> cs).

(** [client.query(text, params)] for a table-list query, against a
    catalog. *)
Definition pg_table_query (catalog : list CatalogRow) (text : string)
    (params : list (list string)) : result js_error (list CatalogRow) :=
  match parse_query text with
  | None => Threw (PgError "syntax error")
  | Some conds =>
      let! keep := eval_conds params conds in
      let! schemas := array_value params (Placeholder 1) in
      if Nat.eqb (length params) (statement_arity conds)
      then Returned (List.filter
                       (λ r, bool_decide (row_type r = BASE_TABLE)
                             && bool_decide (table_schema r ∈ schemas)
                             && keep (table_name r))
                       catalog)
      else Threw (PgError "bind message supplies the wrong number of parameters")
  end.

(** An element of the array [getTableList] resolves to. *)
Record TableRef := { ref_schema : string; ref_name : string }.

(** [getTableList(client, filter)] *)
Definition getTableList (catalog : list CatalogRow) (f : TableFilter)
  : result js_error (list TableRef) :=
  let '(text, params) := table_list_query f in
  let! rows := pg_table_query catalog text params in
  Returned ((λ r, {| ref_schema := table_schema r; ref_name := table_name r |}) <$> rows).

(** The table set as the specification words it: the base tables of the
    catalog in [filter.schemas] (default [public]), kept when [include]
    is absent or empty or names them, and dropped when a non-empty
    [exclude] names them. *)
Definition resolved_by_filter (catalog : list CatalogRow) (f : TableFilter)
  : list TableRef :=
  (λ r, {| ref_schema := table_schema r; ref_name := table_name r |}) <$>
  List.filter
    (λ r, bool_decide (row_type r = BASE_TABLE)
          && bool_decide (table_schema r ∈ default ["public"] (schemas f))
          && (negb (present (include f))
              || bool_decide (table_name r ∈ default [] (include f)))
          && (negb (present (exclude f))
              || negb (bool_decide (table_name r ∈ default [] (exclude f)))))
    catalog.

(** ** The database and the adapter's own state *)

(** A trigger: as the adapter records it ([this.triggers]) and as the
    database has it installed. *)
Record TriggerRecord := { name : string; table : string; schema : string }.

#[global] Instance TriggerRecord_eq_dec : EqDecision TriggerRecord.
Proof. solve_decision. Defined.

Record Database := {
  catalog : list CatalogRow;
  installed : list TriggerRecord;
  notify_function : bool
}.

Inductive trigger_op := OP_INSERT | OP_UPDATE | OP_DELETE | OP_TRUNCATE.

(** The options of [buildTriggerSQL] that the adapter sets. *)
Record TriggerOptions := {
  triggerName : string;
  schemaName : string;
  tableName : string;
  functionName : string;
  operations : list trigger_op
}.

(** The statements sent through [client.query], by what they do rather
    than by their text. *)
Inductive statement :=
| BEGIN
| COMMIT
| ROLLBACK
| CREATE_OR_REPLACE_FUNCTION
| DROP_AND_CREATE_TRIGGER (o : TriggerOptions)
| DROP_TRIGGER_IF_EXISTS (tname tschema ttable : string).

(** [buildTriggerSQL(options)] (trigger-builder.ts): the validation, and
    the statement pair [DROP TRIGGER IF EXISTS ...; CREATE TRIGGER ...]. *)
Definition buildTriggerSQL (o : TriggerOptions) : result js_error statement :=
  if bool_decide (triggerName o = "") || bool_decide (schemaName o = "")
     || bool_decide (tableName o = "") || bool_decide (functionName o = "")
     || bool_decide (length (operations o) = 0)
  then Threw (UserError "Missing required trigger options")
  else Returned (DROP_AND_CREATE_TRIGGER o).

(** The adapter, the database it talks to and the connection in use. *)
Record World := {
  initialized : bool;                 (* this.initialized *)
  triggers : list TriggerRecord;      (* this.triggers *)
  committed : Database;               (* what other sessions see *)
  transaction : option Database;      (* the open transaction's view *)
  checked_out : nat;                  (* pool clients not yet released *)
  executed : list statement           (* statements that succeeded *)
}.

(** What goes wrong outside the adapter's control. *)
Record Faults := {
  pool_connect_fails : bool;
  statement_fails : statement -> bool
}.

Definition working (w : World) : Database := default (committed w) (transaction w).

Definition set_adapter (i : bool) (t : list TriggerRecord) (w : World) : World :=
  {| initialized := i; triggers := t; committed := committed w;
     transaction := transaction w; checked_out := checked_out w;
     executed := executed w |}.

Definition set_db (c : Database) (t : option Database) (w : World) : World :=
  {| initialized := initialized w; triggers := triggers w; committed := c;
     transaction := t; checked_out := checked_out w; executed := executed w |}.

Definition set_checked_out (n : nat) (w : World) : World :=
  {| initialized := initialized w; triggers := triggers w;
     committed := committed w; transaction := transaction w;
     checked_out := n; executed := executed w |}.

Definition log_statement (st : statement) (w : World) : World :=
  {| initialized := initialized w; triggers := triggers w;
     committed := committed w; transaction := transaction w;
     checked_out := checked_out w; executed := (executed w ++ [st])%list |}.

(** A data definition statement acts on the open transaction, or on the
    committed state when there is none. *)
Definition update_working (g : Database -> Database) (w : World) : World :=
  match transaction w with
  | Some d => set_db (committed w) (Some (g d)) w
  | None => set_db (g (committed w)) None w
  end.

Definition same_trigger (tname tschema ttable : string) (t : TriggerRecord) : bool :=
  bool_decide (name t = tname) && bool_decide (schema t = tschema)
  && bool_decide (table t = ttable).

Definition drop_trigger (tname tschema ttable : string) (d : Database) : Database :=
  {| catalog := catalog d;
     installed := List.filter (λ t, negb (same_trigger tname tschema ttable t)) (installed d);
     notify_function := notify_function d |}.

Definition create_trigger (o : TriggerOptions) (d : Database) : Database :=
  let d' := drop_trigger (triggerName o) (schemaName o) (tableName o) d in
  {| catalog := catalog d';
     installed := (installed d' ++ [ {| name := triggerName o; table := tableName o;
                                        schema := schemaName o |} ])%list;
     notify_function := notify_function d' |}.

Definition create_function (d : Database) : Database :=
  {| catalog := catalog d; installed := installed d; notify_function := true |}.

(** The effect of a statement that succeeds. *)
Definition run_statement (st : statement) (w : World) : World :=
  match st with
  | BEGIN =>
      match transaction w with
      | Some _ => w
      | None => set_db (committed w) (Some (committed w)) w
      end
  | COMMIT =>
      match transaction w with
      | Some d => set_db d None w
      | None => w
      end
  | ROLLBACK => set_db (committed w) None w
  | CREATE_OR_REPLACE_FUNCTION => update_working create_function w
  | DROP_AND_CREATE_TRIGGER o => update_working (create_trigger o) w
  | DROP_TRIGGER_IF_EXISTS n s t => update_working (drop_trigger n s t) w
  end.

(** ** Set-up and tear-down of the triggers *)

Section Triggers.
Variable F : Faults.

(** [await this.pool.connect()] *)
Definition pool_connect : SE World unit :=
  λ w, if pool_connect_fails F
       then (w, Threw (PgError "connection refused"))
       else (set_checked_out (S (checked_out w)) w, Returned tt).

(** [client.release()] *)
Definition release : SE World unit :=
  se_modify (λ w, set_checked_out (pred (checked_out w)) w).

(** [await client.query(statement)].  A statement that fails changes
    nothing; a [COMMIT] that fails ends the transaction without making its
    changes visible. *)
Definition client_query (st : statement) : SE World unit :=
  λ w, if statement_fails F st
       then (match st with
             | COMMIT => set_db (committed w) None w
             | _ => w
             end, Threw (PgError "statement failed"))
       else (log_statement st (run_statement st w), Returned tt).

(** The body of the loop over the resolved tables. *)
Definition install_trigger (t : TableRef) : SE World unit :=
  let triggerName := "db_change_notify_" +:+ ref_schema t +:+ "_" +:+ ref_name t in
  do! triggerSQL := se_lift (buildTriggerSQL
    {| triggerName := triggerName; schemaName := ref_schema t;
       tableName := ref_name t; functionName := "notify_db_changes";
       operations := [OP_INSERT; OP_UPDATE; OP_DELETE] |}) in
  do! _ := client_query triggerSQL in
  (* this.triggers.push({ name, table, schema }) *)
  se_modify (λ w, set_adapter (initialized w)
    (triggers w ++ [ {| name := triggerName; table := ref_name t;
                        schema := ref_schema t |} ])%list w).

(** The [try] block of [setupChangeNotifications]. *)
Definition setup_transaction (tableFilter : TableFilter) : SE World unit :=
  do! _ := client_query BEGIN in
  do! _ := client_query CREATE_OR_REPLACE_FUNCTION in
  do! tables := (λ w, (w, getTableList (catalog (working w)) tableFilter)) in
  do! _ := se_for tables install_trigger in
  do! _ := client_query COMMIT in
  se_modify (λ w, set_adapter true (triggers w) w).

(** [setupChangeNotifications(tableFilter)] *)
Definition setupChangeNotifications (tableFilter : TableFilter) : SE World unit :=
  λ w,
  if initialized w then (w, Returned tt)
  else
    (do! _ := pool_connect in
     se_finally
       (se_try
          (setup_transaction tableFilter)
          (λ err,
           do! _ := client_query ROLLBACK in
           se_throw (DBChangeError "Failed to set up change notifications" err)))
       release) w.

(** [teardownChangeNotifications()] *)
Definition teardownChangeNotifications : SE World unit :=
  λ w,
  if negb (initialized w) then (w, Returned tt)
  else
    (do! _ := pool_connect in
     se_finally
       (se_try
          (do! _ := client_query BEGIN in
           do! _ := se_for (triggers w) (λ t,
             client_query (DROP_TRIGGER_IF_EXISTS (name t) (schema t) (table t))) in
           do! _ := client_query COMMIT in
           se_modify (λ w, set_adapter false [] w))
          (λ err,
           do! _ := client_query ROLLBACK in
           se_throw (DBChangeError "Failed to tear down change notifications" err)))
       release) w.

End Triggers.

(** A fresh adapter on a database. *)
Definition new_adapter (d : Database) : World :=
  {| initialized := false; triggers := []; committed := d; transaction := None;
     checked_out := 0; executed := [] |}.

(** No statement fails and the pool always gives a client. *)
Definition no_faults : Faults :=
  {| pool_connect_fails := false; statement_fails := λ _, false |}.

(** ** Payload handling *)

Definition lower_ascii (c : ascii) : ascii :=
  let n := nat_of_ascii c in
  if Nat.leb 65 n && Nat.leb n 90 then ascii_of_nat (n + 32) else c.

(** [s.toLowerCase()].  Only the letters A-Z matter for the comparison
    with the four keywords below: no other character lower-cases to one of
    their letters. *)
Fixpoint toLowerCase (s : string) : string :=
  match s with
  | EmptyString => EmptyString
  | String c s' => String (lower_ascii c) (toLowerCase s')
  end.

(** [mapOperationType(pgOperation)].  The parameter is typed [string], the
    argument is whatever the payload held: [toLowerCase] is missing on any
    other value. *)
Definition mapOperationType (pgOperation : value) : result js_error OperationType :=
  match pgOperation with
  | VString s =>
      let k := toLowerCase s in
      Returned (if bool_decide (k = "insert") then INSERT
                else if bool_decide (k = "update") then UPDATE
                else if bool_decide (k = "delete") then DELETE
                else if bool_decide (k = "truncate") then TRUNCATE
                else UNKNOWN)
  | VUndefined | VNull =>
      Threw (TypeError "Cannot read properties of undefined (reading 'toLowerCase')")
  | _ => Threw (TypeError "pgOperation.toLowerCase is not a function")
  end.

(** What the handler does to the outside, in order. *)
Inductive effect :=
| LogError (msg : string) (err : js_error)
| LogWarn (msg : string)
| LogDebug (msg : string)
| HandlerCalled (e : ChangeEvent).

(** The registered change-event handler: it is called with the event and
    may throw. *)
Definition Handler : Type := ChangeEvent -> result js_error unit.

Definition emit (x : effect) : SE (list effect) unit :=
  se_modify (λ tr, (tr ++ [x])%list).

Section Payload.
Context `{JsRuntime}.
Variable database : string.              (* this.config.database *)
Variable changeEventHandler : option Handler.
Variables uuid now : string.             (* uuidv4(), new Date().toISOString() *)

(** The object literal of [handleNotification]. *)
Definition build_event (payload : string) : result js_error ChangeEvent :=
  match JSON_parse payload with
  | None => Threw (SyntaxError "Unexpected token in JSON")
  | Some data =>
      let! id := get data "id" in
      let! ts := get data "timestamp" in
      let! timestamp :=
        (if truthy ts
         then match epoch_to_iso ts with
              | Some iso => Returned iso
              | None => Threw (RangeError "Invalid time value")
              end
         else Returned now) in
      let! op := get data "operation" in
      let! operation := mapOperationType op in
      let! table := get data "table" in
      let! schema := get data "schema" in
      let! d := get data "data" in
      Returned {| ev_id := js_or id (VString uuid);
                  ev_timestamp := timestamp;
                  ev_operation := operation;
                  ev_database := database;
                  ev_table := table;
                  ev_schema := schema;
                  ev_data_new := Some (js_or (get_opt d "new") VNull);
                  ev_data_old := Some (js_or (get_opt d "old") VNull) |}
  end.

(** [emitChangeEvent(event)] *)
Definition emitChangeEvent (event : ChangeEvent) : SE (list effect) unit :=
  do! _ := emit (LogDebug "Change event") in
  match changeEventHandler with
  | Some handler =>
      do! _ := emit (HandlerCalled event) in
      se_lift (handler event)
  | None => emit (LogWarn "No change event handler registered to process events")
  end.

(** [handleNotification(payload)] *)
Definition handleNotification (payload : string) : SE (list effect) unit :=
  se_try
    (do! event := se_lift (build_event payload) in
     emitChangeEvent event)
    (λ err, emit (LogError "Error processing PostgreSQL notification" err)).

End Payload.

(** The events a run of the handler handed to the change-event handler. *)
Definition handed_over (tr : list effect) : list ChangeEvent :=
  omap (λ x, match x with HandlerCalled e => Some e | _ => None end) tr.

(** The recognised operation keywords. *)
Definition recognised (keyword : string) : bool :=
  bool_decide (toLowerCase keyword ∈ ["insert"; "update"; "delete"; "truncate"]).

(** Neither the committed database nor the initialized flag differ from
    [C] and [false]. *)
Definition untouched (C : Database) (w : World) : Prop :=
  committed w = C /\ initialized w = false.

(** [payload.data.k] as the trigger function supplies it, [undefined] when
    there is no [data] or no such property. *)
Definition supplied (data : value) (k : string) : value :=
  match get data "data" with
  | Returned d => get_opt d k
  | Threw _ => VUndefined
  end.

(** The timestamp of the payload, when there is one, is a date. *)
Definition timestamp_converts `{JsRuntime} (data : value) : Prop :=
  match get data "timestamp" with
  | Returned ts => truthy ts = true -> is_Some (epoch_to_iso ts)
  | Threw _ => True
  end.


(** The record [setupChangeNotifications] keeps for a resolved table, which
    is also the trigger its statement installs. *)
Definition trigger_for (t : TableRef) : TriggerRecord :=
  {| name := "db_change_notify_" +:+ ref_schema t +:+ "_" +:+ ref_name t;
     table := ref_name t; schema := ref_schema t |}.

(** Neither the schema name nor the table name is the empty string. *)
Definition named (t : TableRef) : bool :=
  negb (bool_decide (ref_schema t = "")) && negb (bool_decide (ref_name t = "")).

(** The committed database, the initialized flag and the trigger records
    of [w] are those of [w0]. *)
Definition kept (w0 w : World) : Prop :=
  committed w = committed w0 /\ initialized w = initialized w0
  /\ triggers w = triggers w0.


(** ** Listening ([start], [stop]) *)

(** [this.isListening] and [this.notificationListener].  A listener the
    adapter no longer refers to keeps its place in the event loop (its
    timer, its connect attempt under way), so it is kept here too. *)
Record Listening := {
  isListening : bool;
  notificationListener : option Listener.State;
  abandoned : list Listener.State
}.

Definition not_listening : Listening :=
  {| isListening := false; notificationListener := None; abandoned := [] |}.

(** [start()]: a new listener replaces the one referred to, if any, and
    its [connect()] is awaited. *)
Definition start (o : Listener.connect_outcome) (a : Listening)
  : Listening * result js_error unit :=
  if isListening a then (a, Returned tt)
  else
    let replaced := option_list (notificationListener a) in
    match Listener.connect o Listener.init with
    | (l, Returned _) =>
        ({| isListening := true; notificationListener := Some l;
            abandoned := (abandoned a ++ replaced)%list |}, Returned tt)
    | (l, Threw _) =>
        ({| isListening := false; notificationListener := Some l;
            abandoned := (abandoned a ++ replaced)%list |},
         Threw (DBChangeError "Failed to start PostgreSQL adapter"
                  (PgError "connection failed")))
    end.

(** [stop()] when nothing happens to the listener while its
    [disconnect()] is awaited ([stop_during] below is the general case):
    the reference and the flag are reset after the awaited [disconnect()],
    so they stay when it rejects. *)
Definition stop (o : Listener.disconnect_outcome) (a : Listening)
  : Listening * result js_error unit :=
  if negb (isListening a) then (a, Returned tt)
  else
    match notificationListener a with
    | Some l =>
        match Listener.disconnect o l with
        | (l', Returned _) =>
            ({| isListening := false; notificationListener := None;
                abandoned := (abandoned a ++ [l'])%list |}, Returned tt)
        | (l', Threw _) =>
            ({| isListening := isListening a; notificationListener := Some l';
                abandoned := abandoned a |},
             Threw (DBChangeError "Failed to stop PostgreSQL adapter"
                      (PgError "disconnect failed")))
        end
    | None =>
        ({| isListening := false; notificationListener := None;
            abandoned := abandoned a |}, Returned tt)
    end.

(** [stop()], with what happens to the listener while its [disconnect()]
    is awaited: the events [mid], each one synchronous segment of the
    listener.  [stop] above is the case where nothing happens
    meanwhile. *)
Definition stop_during (mid : list Listener.event) (o : Listener.disconnect_outcome)
    (a : Listening) : Listening * result js_error unit :=
  if negb (isListening a) then (a, Returned tt)
  else
    match notificationListener a with
    | Some l =>
        let '(l1, suspended) := Listener.disconnect_begin l in
        let '(l', r) := if suspended
                        then Listener.disconnect_settle o (Listener.run mid l1)
                        else (l1, Returned tt) in
        match r with
        | Returned _ =>
            ({| isListening := false; notificationListener := None;
                abandoned := (abandoned a ++ [l'])%list |}, Returned tt)
        | Threw _ =>
            ({| isListening := isListening a; notificationListener := Some l';
                abandoned := abandoned a |},
             Threw (DBChangeError "Failed to stop PostgreSQL adapter"
                      (PgError "disconnect failed")))
        end
    | None =>
        ({| isListening := false; notificationListener := None;
            abandoned := abandoned a |}, Returned tt)
    end.

(** ** Error handlers ([onError], [handleError]) *)

(** A registered error handler: it is called with the error and may
    throw. *)
Definition ErrorHandler : Type := js_error -> result js_error unit.

(** What [handleError] does to the outside, in order; a handler is named
    by its place in [this.errorHandlers]. *)
Inductive error_effect :=
| ErrorLogged (msg : string) (err : js_error)
| ErrorHandlerCalled (i : nat) (err : js_error).

(** [onError(handler)] *)
Definition onError (handler : ErrorHandler) (errorHandlers : list ErrorHandler)
  : list ErrorHandler :=
  (errorHandlers ++ [handler])%list.

(** [for (const handler of this.errorHandlers) { try { handler(err) }
    catch (handlerError) { error('Error in error handler', ...) } }],
    from the handler at place [i] on. *)
Fixpoint call_error_handlers (i : nat) (errorHandlers : list ErrorHandler)
    (err : js_error) : SE (list error_effect) unit :=
  match errorHandlers with
  | [] => se_ret tt
  | handler :: rest =>
      do! _ := se_try
                 (do! _ := se_modify (λ tr, (tr ++ [ErrorHandlerCalled i err])%list) in
                  se_lift (handler err))
                 (λ handlerError,
                  se_modify (λ tr,
                    (tr ++ [ErrorLogged "Error in error handler" handlerError])%list)) in
      call_error_handlers (S i) rest err
  end.

(** [handleError(err)] *)
Definition handleError (errorHandlers : list ErrorHandler) (err : js_error)
  : SE (list error_effect) unit :=
  do! _ := se_modify (λ tr, (tr ++ [ErrorLogged "PostgreSQL adapter error" err])%list) in
  call_error_handlers 0 errorHandlers err.

(** The handler calls of a trace. *)
Definition error_handler_calls (tr : list error_effect) : list (nat * js_error) :=
  omap (λ x, match x with
             | ErrorHandlerCalled i err => Some (i, err)
             | ErrorLogged _ _ => None
             end) tr.

(** The failures of handlers that a trace logs. *)
Definition error_handler_failures (tr : list error_effect) : list js_error :=
  omap (λ x, match x with
             | ErrorLogged msg err =>
                 if bool_decide (msg = "Error in error handler") then Some err else None
             | ErrorHandlerCalled _ _ => None
             end) tr.

(** ** The trigger function [notify_db_changes] *)

(** [TG_OP] *)
Inductive TG_OP := TG_INSERT | TG_UPDATE | TG_DELETE | TG_TRUNCATE.

(** The value the function hands to [pg_notify], for the operation, the
    schema and the table of the trigger, the rows [NEW] and [OLD] as
    [row_to_json] renders them, and the values of [gen_random_uuid()] and
    of [extract(epoch from clock_timestamp())]. *)
Definition notify_payload (op : TG_OP) (tg_table_schema tg_table_name : string)
    (new old : list (string * value)) (uuid : string) (epoch : Qc) : value :=
  VObject
    (match op with
     | TG_INSERT =>
         [("operation", VString "insert"); ("schema", VString tg_table_schema);
          ("table", VString tg_table_name);
          ("data", VObject [("new", VObject new)])]
     | TG_UPDATE =>
         [("operation", VString "update"); ("schema", VString tg_table_schema);
          ("table", VString tg_table_name);
          ("data", VObject [("new", VObject new); ("old", VObject old)])]
     | TG_DELETE =>
         [("operation", VString "delete"); ("schema", VString tg_table_schema);
          ("table", VString tg_table_name);
          ("data", VObject [("old", VObject old)])]
     | TG_TRUNCATE =>
         [("operation", VString "unknown"); ("schema", VString tg_table_schema);
          ("table", VString tg_table_name)]
     end
     (* payload || jsonb_build_object('id', ..., 'timestamp', ...) *)
     ++ [("id", VString uuid); ("timestamp", VNumber epoch)])%list.

(** The event that stands for a change. *)
Definition change_event (database : string) (op : TG_OP)
    (tg_table_schema tg_table_name : string) (new old : list (string * value))
    (uuid iso : string) : ChangeEvent :=
  {| ev_id := VString uuid;
     ev_timestamp := iso;
     ev_operation := match op with
                     | TG_INSERT => INSERT
                     | TG_UPDATE => UPDATE
                     | TG_DELETE => DELETE
                     | TG_TRUNCATE => UNKNOWN
                     end;
     ev_database := database;
     ev_table := VString tg_table_name;
     ev_schema := VString tg_table_schema;
     ev_data_new := Some match op with
                         | TG_INSERT | TG_UPDATE => VObject new
                         | TG_DELETE | TG_TRUNCATE => VNull
                         end;
     ev_data_old := Some match op with
                         | TG_UPDATE | TG_DELETE => VObject old
                         | TG_INSERT | TG_TRUNCATE => VNull
                         end |}.

End Adapter.

(* ================================================================== *)
(** * The core notifier (core/notifier.ts)                             *)
(* ================================================================== *)

Module Notifier.

(** ** Table patterns *)

(** A [RegExp] object.  With the [g] flag, [test] starts at [lastIndex]
    and moves it. *)
Record RegExp := { source : string; global : bool; lastIndex : nat }.

(** [tablePattern: string | RegExp] *)
Inductive pattern := PatternString (s : string) | PatternRegExp (r : RegExp).

Record TransformationConfig := {
  tablePattern : pattern;
  transform : ChangeEvent -> option ChangeEvent   (* [None] is [null] *)
}.

Record NotifierConfig := {
  batchingEnabled : bool;
  batchSize : option Z;
  batchTimeWindowMs : option Z;
  transformations : option (list TransformationConfig)
}.

(** ** State *)

Record NotifierStats := {
  eventsProcessed : nat;
  eventsByOperation : gmap string nat;
  eventsByTable : gmap string nat;
  deliveryAttempts : nat;
  deliverySuccesses : nat;
  deliveryFailures : nat
}.

(** What one fan-out hands to every sink. *)
Inductive payload := Single (e : ChangeEvent) | Batch (es : list ChangeEvent).

(** What the notifier does to its collaborators, in order.  A fan-out is
    recorded with, for every sink it targeted, whether that sink's
    [deliver] resolved. *)
Inductive action :=
| Fanout (p : payload) (resolved : list bool)
| AdapterStop
| AdapterTeardown
| SinkClose (sink : nat)
| LoggedError (msg : string).

Record Timer := { timer_id : nat; timer_delay : Z }.

Record State := {
  config : NotifierConfig;
  adapter : bool;                        (* this.adapter !== null *)
  deliveryMechanisms : list nat;         (* the sinks, by number *)
  isRunning : bool;
  stats : NotifierStats;
  eventBuffer : list ChangeEvent;
  batchTimeout : option nat;
  pending : list Timer;                  (* timers armed in the event loop *)
  next_timer : nat;
  trace : list action
}.

Definition op_key (o : OperationType) : string :=
  match o with
  | INSERT => "insert" | UPDATE => "update" | DELETE => "delete"
  | REPLACE => "replace" | DROP => "drop" | TRUNCATE => "truncate"
  | UNKNOWN => "unknown"
  end.

(** [initializeStats()] *)
Definition initializeStats : NotifierStats :=
  {| eventsProcessed := 0;
     eventsByOperation :=
       foldl (λ acc o, <[op_key o := 0]> acc) ∅
             [INSERT; UPDATE; DELETE; REPLACE; DROP; TRUNCATE; UNKNOWN];
     eventsByTable := ∅;
     deliveryAttempts := 0; deliverySuccesses := 0; deliveryFailures := 0 |}.

(** The notifier after [initialize()] succeeded on sinks [sinks]. *)
Definition running (c : NotifierConfig) (sinks : list nat) : State :=
  {| config := c; adapter := true; deliveryMechanisms := sinks; isRunning := true;
     stats := initializeStats; eventBuffer := []; batchTimeout := None;
     pending := []; next_timer := 0; trace := [] |}.

Definition set_stats (x : NotifierStats) (s : State) : State :=
  {| config := config s; adapter := adapter s;
     deliveryMechanisms := deliveryMechanisms s; isRunning := isRunning s;
     stats := x; eventBuffer := eventBuffer s; batchTimeout := batchTimeout s;
     pending := pending s; next_timer := next_timer s; trace := trace s |}.

Definition set_buffer (b : list ChangeEvent) (s : State) : State :=
  {| config := config s; adapter := adapter s;
     deliveryMechanisms := deliveryMechanisms s; isRunning := isRunning s;
     stats := stats s; eventBuffer := b; batchTimeout := batchTimeout s;
     pending := pending s; next_timer := next_timer s; trace := trace s |}.

Definition set_timers (h : option nat) (p : list Timer) (n : nat) (s : State) : State :=
  {| config := config s; adapter := adapter s;
     deliveryMechanisms := deliveryMechanisms s; isRunning := isRunning s;
     stats := stats s; eventBuffer := eventBuffer s; batchTimeout := h;
     pending := p; next_timer := n; trace := trace s |}.

Definition set_config (c : NotifierConfig) (s : State) : State :=
  {| config := c; adapter := adapter s;
     deliveryMechanisms := deliveryMechanisms s; isRunning := isRunning s;
     stats := stats s; eventBuffer := eventBuffer s; batchTimeout := batchTimeout s;
     pending := pending s; next_timer := next_timer s; trace := trace s |}.

Definition set_lifecycle (a : bool) (sinks : list nat) (r : bool) (s : State) : State :=
  {| config := config s; adapter := a; deliveryMechanisms := sinks; isRunning := r;
     stats := stats s; eventBuffer := eventBuffer s; batchTimeout := batchTimeout s;
     pending := pending s; next_timer := next_timer s; trace := trace s |}.

Definition record (a : action) (s : State) : State :=
  {| config := config s; adapter := adapter s;
     deliveryMechanisms := deliveryMechanisms s; isRunning := isRunning s;
     stats := stats s; eventBuffer := eventBuffer s; batchTimeout := batchTimeout s;
     pending := pending s; next_timer := next_timer s;
     trace := (trace s ++ [a])%list |}.

(** ** Operations *)

Section Operations.
Context `{JsRuntime}.

(** [r.test(subject)]: the answer and the object afterwards.  Without the
    [g] flag the search starts at 0 and [lastIndex] stays; with it the
    search starts at [lastIndex], which moves to the end of the match, or
    back to 0 when there is none. *)
Definition RegExp_test (r : RegExp) (subject : string) : bool * RegExp :=
  if global r then
    match regexp_match (source r) subject (lastIndex r) with
    | Some e => (true, {| source := source r; global := global r; lastIndex := e |})
    | None => (false, {| source := source r; global := global r; lastIndex := 0 |})
    end
  else (bool_decide (is_Some (regexp_match (source r) subject 0)), r).

(** The test of one transformation's pattern: a [RegExp] is used as it
    is, a string is compiled by [new RegExp(tablePattern)] first. *)
Definition test_pattern (t : TransformationConfig) (subject : string)
  : result js_error (bool * TransformationConfig) :=
  match tablePattern t with
  | PatternRegExp r =>
      let '(m, r') := RegExp_test r subject in
      Returned (m, {| tablePattern := PatternRegExp r'; transform := transform t |})
  | PatternString src =>
      if regexp_valid src
      then Returned (fst (RegExp_test {| source := src; global := false; lastIndex := 0 |}
                                      subject), t)
      else Threw (SyntaxError "Invalid regular expression")
  end.

(** The loop of [applyTransformations]: [subject] is
    [event.source.table] of the incoming event, [currentEvent] the event
    so far.  It gives the transformations back, with their patterns as
    the tests left them. *)
Fixpoint apply_loop (ts : list TransformationConfig) (subject : string)
    (currentEvent : ChangeEvent)
  : list TransformationConfig * result js_error (option ChangeEvent) :=
  match ts with
  | [] => ([], Returned (Some currentEvent))
  | t :: rest =>
      match test_pattern t subject with
      | Threw e => (t :: rest, Threw e)
      | Returned (false, t') =>
          let '(rest', r) := apply_loop rest subject currentEvent in (t' :: rest', r)
      | Returned (true, t') =>
          match transform t currentEvent with
          | None => (t' :: rest, Returned None)
          | Some result =>
              let '(rest', r) := apply_loop rest subject result in (t' :: rest', r)
          end
      end
  end.

(** [applyTransformations(event)] *)
Definition applyTransformations (event : ChangeEvent) : SE State (option ChangeEvent) :=
  λ s, match transformations (config s) with
       | None | Some [] => (s, Returned (Some event))
       | Some ts =>
           let '(ts', r) := apply_loop ts (ToString (ev_table event)) event in
           (set_config {| batchingEnabled := batchingEnabled (config s);
                          batchSize := batchSize (config s);
                          batchTimeWindowMs := batchTimeWindowMs (config s);
                          transformations := Some ts' |} s, r)
       end.

(** [m[k] = (m[k] || 0) + 1] *)
Definition bump (k : string) (m : gmap string nat) : gmap string nat :=
  <[k := default 0 (m !! k) + 1]> m.

(** [updateEventStats(event)] *)
Definition updateEventStats (event : ChangeEvent) : SE State unit :=
  se_modify (λ s,
    let x := stats s in
    let tableKey :=
      ToString (js_or (ev_schema event) (VString "")) +:+ "." +:+ ToString (ev_table event) in
    set_stats {| eventsProcessed := eventsProcessed x + 1;
                 eventsByOperation := bump (op_key (ev_operation event)) (eventsByOperation x);
                 eventsByTable := bump tableKey (eventsByTable x);
                 deliveryAttempts := deliveryAttempts x;
                 deliverySuccesses := deliverySuccesses x;
                 deliveryFailures := deliveryFailures x |} s).

(** [await Promise.all(this.deliveryMechanisms.map(d => d.deliver(p)))]:
    every sink is called; the promise rejects when one of them does.
    [resolves i] tells whether sink [i] resolves this call. *)
Definition deliver_to_all (resolves : nat -> bool) (p : payload) : SE State unit :=
  λ s, let resolved := resolves <$> deliveryMechanisms s in
       (record (Fanout p resolved) s,
        if forallb (λ b, b) resolved then Returned tt
        else Threw (DeliveryError "Failed to deliver event(s)")).

Definition count_delivery (ok : bool) : SE State unit :=
  se_modify (λ s,
    let x := stats s in
    set_stats {| eventsProcessed := eventsProcessed x;
                 eventsByOperation := eventsByOperation x;
                 eventsByTable := eventsByTable x;
                 deliveryAttempts := deliveryAttempts x + 1;
                 deliverySuccesses := deliverySuccesses x + (if ok then 1 else 0);
                 deliveryFailures := deliveryFailures x + (if ok then 0 else 1) |} s).

(** [deliverEvent(event)] *)
Definition deliverEvent (resolves : nat -> bool) (event : ChangeEvent) : SE State unit :=
  se_try
    (do! _ := deliver_to_all resolves (Single event) in
     count_delivery true)
    (λ err,
     do! _ := count_delivery false in
     se_modify (record (LoggedError "Failed to deliver event"))).

(** [clearTimeout(h)] *)
Definition clearTimeout (h : nat) (s : State) : State :=
  set_timers (batchTimeout s) (filter (λ t, timer_id t ≠ h) (pending s)) (next_timer s) s.

(** [if (this.batchTimeout) { clearTimeout(this.batchTimeout);
    this.batchTimeout = null; }] *)
Definition clear_batch_timer (s : State) : State :=
  match batchTimeout s with
  | Some h => let c := clearTimeout h s in set_timers None (pending c) (next_timer c) c
  | None => s
  end.

(** [deliverBatch()] *)
Definition deliverBatch (resolves : nat -> bool) : SE State unit :=
  λ s,
  let s1 := clear_batch_timer s in
  match eventBuffer s1 with
  | [] => (s1, Returned tt)
  | _ :: _ =>
      let batchToDeliver := eventBuffer s1 in
      se_try
        (do! _ := deliver_to_all resolves (Batch batchToDeliver) in
         count_delivery true)
        (λ err,
         do! _ := count_delivery false in
         se_modify (record (LoggedError "Failed to deliver batch of events")))
        (set_buffer [] s1)
  end.

(** [x || d] for an optional number: absent and 0 give the default. *)
Definition or_default (x : option Z) (d : Z) : Z :=
  match x with
  | Some n => if bool_decide (n = 0%Z) then d else n
  | None => d
  end.

(** [bufferEvent(event)] *)
Definition bufferEvent (resolves : nat -> bool) (event : ChangeEvent) : SE State unit :=
  λ s,
  let s1 := set_buffer (eventBuffer s ++ [event])%list s in
  if bool_decide (or_default (batchSize (config s1)) 100 ≤ Z.of_nat (length (eventBuffer s1)))%Z
  then deliverBatch resolves s1
  else
    match batchTimeout s1, eventBuffer s1 with
    | None, _ :: _ =>
        (set_timers (Some (next_timer s1))
           (pending s1 ++ [ {| timer_id := next_timer s1;
                               timer_delay := or_default (batchTimeWindowMs (config s1)) 1000 |} ])%list
           (S (next_timer s1)) s1, Returned tt)
    | _, _ => (s1, Returned tt)
    end.

(** The callback armed by [bufferEvent], run by the event loop when the
    first armed timer is due. *)
Definition batch_timer_fires (resolves : nat -> bool) : SE State unit :=
  λ s, match pending s with
       | [] => (s, Returned tt)
       | _ :: rest => deliverBatch resolves (set_timers (batchTimeout s) rest (next_timer s) s)
       end.

(** [processEvent(event)] *)
Definition processEvent (resolves : nat -> bool) (event : ChangeEvent) : SE State unit :=
  do! _ := updateEventStats event in
  do! transformedEvent := applyTransformations event in
  match transformedEvent with
  | None => se_ret tt
  | Some e =>
      λ s, if batchingEnabled (config s)
           then bufferEvent resolves e s
           else deliverEvent resolves e s
  end.

End Operations.

(** ** Cleanup *)

(** How the collaborators answer during one [cleanup()]. *)
Record CleanupOutcomes := {
  flush_resolves : nat -> bool;      (* deliver(batch) of sink i resolves *)
  adapter_stop_ok : bool;            (* adapter.stop() resolves *)
  adapter_teardown_ok : bool;        (* adapter.teardownChangeNotifications() resolves *)
  sink_close_ok : nat -> bool        (* close() of sink i resolves *)
}.

Section Cleanup.
Variable co : CleanupOutcomes.

(** [await this.adapter.stop()] *)
Definition adapter_stop : SE State unit :=
  λ s, (record AdapterStop s,
        if adapter_stop_ok co then Returned tt
        else Threw (DBChangeError "Failed to stop PostgreSQL adapter"
                      (PgError "connection lost"))).

(** [await this.adapter.teardownChangeNotifications()] *)
Definition adapter_teardown : SE State unit :=
  λ s, (record AdapterTeardown s,
        if adapter_teardown_ok co then Returned tt
        else Threw (DBChangeError "Failed to tear down change notifications"
                      (PgError "statement failed"))).

(** [await delivery.close()] *)
Definition sink_close (i : nat) : SE State unit :=
  λ s, (record (SinkClose i) s,
        if sink_close_ok co i then Returned tt
        else Threw (DeliveryError "Failed to close delivery mechanism")).

(** The body of the loop over the sinks:
    [try { await delivery.close() } catch (err) { error(...) }] *)
Definition close_logged (i : nat) : SE State unit :=
  se_try (sink_close i)
         (λ err, se_modify
            (record (LoggedError "Error during delivery mechanism cleanup"))).

(** [if (this.eventBuffer.length > 0) { await this.deliverBatch(); }] *)
Definition flush_remaining : SE State unit :=
  λ s, match eventBuffer s with
       | [] => (s, Returned tt)
       | _ :: _ => deliverBatch (flush_resolves co) s
       end.

(** The adapter part of [cleanup]: [stop] and the tear-down share one
    [try] block. *)
Definition cleanup_adapter : SE State unit :=
  λ s, if adapter s
       then (do! _ := se_try
                        (do! _ := adapter_stop in adapter_teardown)
                        (λ err, se_modify
                           (record (LoggedError "Error during adapter cleanup"))) in
             (* this.adapter = null *)
             se_modify (λ s, set_lifecycle false (deliveryMechanisms s) (isRunning s) s)) s
       else (s, Returned tt).

(** [cleanup()] when the event loop runs nothing else during its awaits
    ([cleanup_during] below is the general case). *)
Definition cleanup : SE State unit :=
  (* deliver any remaining batched events *)
  do! _ := flush_remaining in
  (* clean up the adapter *)
  do! _ := cleanup_adapter in
  (* clean up delivery mechanisms *)
  do! sinks := (λ s, (s, Returned (deliveryMechanisms s))) in
  do! _ := se_for sinks close_logged in
  do! _ := se_modify (λ s, set_lifecycle (adapter s) [] (isRunning s) s) in
  (* clear any pending batch timeout *)
  se_modify clear_batch_timer.

(** [stop()], likewise. *)
Definition stop : SE State unit :=
  λ s, if negb (isRunning s)
       then (s, Returned tt)   (* warn('Attempted to stop notifier that is not running') *)
       else (do! _ := cleanup in
             se_modify (λ s, set_lifecycle (adapter s) (deliveryMechanisms s) false s)) s.

End Cleanup.

(** ** Runs of the notifier *)

(** What the adapter and the event loop do to a running notifier. *)
Inductive event :=
| EventArrives (e : ChangeEvent) (resolves : nat -> bool)
| BatchTimerFires (resolves : nat -> bool).

Definition step `{JsRuntime} (s : State) (ev : event) : State :=
  match ev with
  | EventArrives e resolves => fst (processEvent resolves e s)
  | BatchTimerFires resolves => fst (batch_timer_fires resolves s)
  end.

Definition run `{JsRuntime} (evs : list event) (s : State) : State := foldl step s evs.

(** ** Reading a trace *)

(** The fan-out calls of a trace. *)
Definition fanouts (tr : list action) : list (payload * list bool) :=
  omap (λ a, match a with Fanout p r => Some (p, r) | _ => None end) tr.

(** A fan-out failed when at least one targeted sink rejected. *)
Definition failed (call : payload * list bool) : bool :=
  negb (forallb (λ b, b) (snd call)).

Definition delivered (tr : list action) : list payload := fst <$> fanouts tr.

(** The calls of a trace, without the log lines. *)
Definition is_call (a : action) : bool :=
  match a with
  | LoggedError _ => false
  | _ => true
  end.

Definition calls (tr : list action) : list action := List.filter is_call tr.

(** ** The transform pipeline as the specification words it *)

(** A pattern that is a string accepted by [new RegExp], or a [RegExp]
    without the [g] flag, matches a table name when the pattern is found
    in it. *)
Definition pattern_source (p : pattern) : string :=
  match p with
  | PatternString s => s
  | PatternRegExp r => source r
  end.

Definition matches `{JsRuntime} (t : TransformationConfig) (tableName : string) : bool :=
  bool_decide (is_Some (regexp_match (pattern_source (tablePattern t)) tableName 0)).

Definition stateless `{JsRuntime} (t : TransformationConfig) : bool :=
  match tablePattern t with
  | PatternString s => regexp_valid s
  | PatternRegExp r => negb (global r)
  end.

(** The transforms applied in order, each to the result of the one
    before, ending at the first [null]. *)
Fixpoint pipeline (fs : list (ChangeEvent -> option ChangeEvent)) (e : ChangeEvent)
  : option ChangeEvent :=
  match fs with
  | [] => Some e
  | f :: rest =>
      match f e with
      | None => None
      | Some e' => pipeline rest e'
      end
  end.

Definition expected_pipeline `{JsRuntime} (ts : list TransformationConfig) (e : ChangeEvent)
  : option ChangeEvent :=
  pipeline (transform <$> List.filter (λ t, matches t (ToString (ev_table e))) ts) e.

(** Every sink resolves this call. *)
Definition all_resolve (resolves : nat -> bool) (s : State) : bool :=
  forallb (λ b, b) (resolves <$> deliveryMechanisms s).

(** What a fan-out inside its [try]/[catch] amounts to: the call is
    recorded, the counters move, a failure is logged. *)
Definition fan_out (resolves : nat -> bool) (p : payload) (msg : string) (s : State) : State :=
  let s1 := record (Fanout p (resolves <$> deliveryMechanisms s)) s in
  if all_resolve resolves s
  then fst (count_delivery true s1)
  else record (LoggedError msg) (fst (count_delivery false s1)).

(** ** Shapes of the state *)

(** The effective batch size and window. *)
Definition batch_size (s : State) : Z := or_default (batchSize (config s)) 100.
Definition batch_window (s : State) : Z := or_default (batchTimeWindowMs (config s)) 1000.

(** At most one timer is armed, and it is the one the handle names. *)
Definition timer_single (s : State) : Prop :=
  (batchTimeout s = None /\ pending s = [])
  \/ exists h, batchTimeout s = Some h
               /\ pending s = [ {| timer_id := h; timer_delay := batch_window s |} ].

(** Every armed timer is the one the handle names. *)
Definition timers_named (s : State) : Prop :=
  forall t, t ∈ pending s -> batchTimeout s = Some (timer_id t).

(** Nothing is buffered and no timer is armed. *)
Definition idle (s : State) : Prop :=
  eventBuffer s = [] /\ batchTimeout s = None /\ pending s = [].

(** Events are buffered and exactly one timer, for the batch window, is
    armed. *)
Definition armed (s : State) : Prop :=
  eventBuffer s <> []
  /\ exists h, batchTimeout s = Some h
               /\ pending s = [ {| timer_id := h; timer_delay := batch_window s |} ].

Definition batch_ok (s : State) : Prop := idle s \/ armed s.

(** The delivery counters say what the trace says. *)
Definition counters_match (s : State) : Prop :=
  deliveryAttempts (stats s) = length (fanouts (trace s))
  /\ deliveryFailures (stats s) = length (List.filter failed (fanouts (trace s)))
  /\ deliverySuccesses (stats s)
     = length (List.filter (λ c, negb (failed c)) (fanouts (trace s))).




(** ** Reading a run *)

#[global] Instance OperationType_eq_dec : EqDecision OperationType.
Proof. solve_decision. Defined.

(** The events of a run that reached [processEvent], in order. *)
Definition arrivals (evs : list event) : list ChangeEvent :=
  omap (λ ev, match ev with
              | EventArrives e _ => Some e
              | BatchTimerFires _ => None
              end) evs.

(** The key of [eventsByTable] under which [updateEventStats] counts an
    event: [`${event.source.schema || ''}.${event.source.table}`]. *)
Definition tableKey `{JsRuntime} (event : ChangeEvent) : string :=
  ToString (js_or (ev_schema event) (VString "")) +:+ "." +:+ ToString (ev_table event).

(** The events one fan-out hands over, and those of a whole trace. *)
Definition payload_events (p : payload) : list ChangeEvent :=
  match p with
  | Single e => [e]
  | Batch es => es
  end.

Definition delivered_events (tr : list action) : list ChangeEvent :=
  List.concat (payload_events <$> delivered tr).

(** What the transformations make of an event while their patterns keep
    no state. *)
Definition accepted `{JsRuntime} (c : NotifierConfig) (e : ChangeEvent)
  : option ChangeEvent :=
  match transformations c with
  | None => Some e
  | Some ts => expected_pipeline ts e
  end.

(** Every pattern of the configuration is a string [new RegExp] accepts
    or a [RegExp] without the [g] flag. *)
Definition stateless_patterns `{JsRuntime} (c : NotifierConfig) : Prop :=
  match transformations c with
  | None => True
  | Some ts => Forall (λ t, stateless t = true) ts
  end.


(** ** [stop] and the event loop *)

(** [deliverBatch()] up to its [await]: the timer is cleared and, when
    events are buffered, the buffer is emptied and every sink is called
    with the batch.  The answer tells whether the call waits for the
    sinks, and then whether [Promise.all] will resolve. *)
Definition deliverBatch_begin (resolves : nat -> bool) (s : State) : State * option bool :=
  let s1 := clear_batch_timer s in
  match eventBuffer s1 with
  | [] => (s1, None)
  | _ :: _ =>
      match deliver_to_all resolves (Batch (eventBuffer s1)) (set_buffer [] s1) with
      | (s2, Returned _) => (s2, Some true)
      | (s2, Threw _) => (s2, Some false)
      end
  end.

(** [deliverBatch()] from the settlement of [Promise.all]. *)
Definition deliverBatch_settle (ok : bool) (s : State) : State :=
  if ok then fst (count_delivery true s)
  else record (LoggedError "Failed to deliver batch of events")
              (fst (count_delivery false s)).

(** What the event loop runs while [cleanup()] waits: the change events
    that arrive and the batch timers that fire during each of its awaits
    (of the last batch, of [adapter.stop()], of the tear-down, and of the
    [close()] of each sink). *)
Record Meanwhile := {
  during_flush : list event;
  during_adapter_stop : list event;
  during_adapter_teardown : list event;
  during_close : nat -> list event
}.

Definition nothing_meanwhile : Meanwhile :=
  {| during_flush := []; during_adapter_stop := []; during_adapter_teardown := [];
     during_close := λ _, [] |}.

(** Only [adapter.stop()] takes long enough for something to happen. *)
Definition while_adapter_stops (mid : list event) : Meanwhile :=
  {| during_flush := []; during_adapter_stop := mid; during_adapter_teardown := [];
     during_close := λ _, [] |}.

Section CleanupDuring.
Context `{JsRuntime}.
Variable co : CleanupOutcomes.
Variable mw : Meanwhile.

(** [await call]: the call is made, the event loop runs [mid], and the
    call settles. *)
Definition awaited {A} (mid : list event) (call : SE State A) : SE State A :=
  λ s, match call s with
       | (s1, r) => (run mid s1, r)
       end.

(** [if (this.eventBuffer.length > 0) { await this.deliverBatch(); }] *)
Definition flush_remaining_during : SE State unit :=
  λ s, match eventBuffer s with
       | [] => (s, Returned tt)
       | _ :: _ =>
           match deliverBatch_begin (flush_resolves co) s with
           | (s1, Some ok) =>
               (deliverBatch_settle ok (run (during_flush mw) s1), Returned tt)
           | (s1, None) => (s1, Returned tt)
           end
       end.

(** The adapter part of [cleanup]. *)
Definition cleanup_adapter_during : SE State unit :=
  λ s, if adapter s
       then (do! _ := se_try
                        (do! _ := awaited (during_adapter_stop mw) (adapter_stop co) in
                         awaited (during_adapter_teardown mw) (adapter_teardown co))
                        (λ err, se_modify
                           (record (LoggedError "Error during adapter cleanup"))) in
             se_modify (λ s, set_lifecycle false (deliveryMechanisms s) (isRunning s) s)) s
       else (s, Returned tt).

(** The body of the loop over the sinks. *)
Definition close_logged_during (i : nat) : SE State unit :=
  se_try (awaited (during_close mw i) (sink_close co i))
         (λ err, se_modify
            (record (LoggedError "Error during delivery mechanism cleanup"))).

(** [cleanup()], with what the event loop runs during its awaits. *)
Definition cleanup_during : SE State unit :=
  do! _ := flush_remaining_during in
  do! _ := cleanup_adapter_during in
  do! sinks := (λ s, (s, Returned (deliveryMechanisms s))) in
  do! _ := se_for sinks close_logged_during in
  do! _ := se_modify (λ s, set_lifecycle (adapter s) [] (isRunning s) s) in
  se_modify clear_batch_timer.

(** [stop()], with what the event loop runs during its awaits. *)
Definition stop_during : SE State unit :=
  λ s, if negb (isRunning s)
       then (s, Returned tt)
       else (do! _ := cleanup_during in
             se_modify (λ s, set_lifecycle (adapter s) (deliveryMechanisms s) false s)) s.

(** What ran during the awaits of a [cleanup()] started in state [s], in
    order. *)
Definition meanwhile_events (s : State) : list event :=
  (match eventBuffer s with
   | [] => []
   | _ :: _ => during_flush mw
   end
   ++ (if adapter s
       then during_adapter_stop mw
            ++ (if adapter_stop_ok co then during_adapter_teardown mw else [])
       else [])
   ++ List.concat (during_close mw <$> deliveryMechanisms s))%list.

(** What [cleanup] itself writes between two steps of the event loop:
    the configuration, the buffer, the timers and what was handed to the
    sinks stay. *)
Definition bookkeeping (s s' : State) : Prop :=
  config s' = config s /\ eventBuffer s' = eventBuffer s
  /\ batchTimeout s' = batchTimeout s /\ pending s' = pending s
  /\ delivered (trace s') = delivered (trace s).

(** Steps of the event loop, on the events [mids] in all, with such
    writes in between. *)
Inductive interleaved : State -> list event -> State -> Prop :=
| interleaved_refl s : interleaved s [] s
| interleaved_write s mids s1 s2 :
    interleaved s mids s1 -> bookkeeping s1 s2 -> interleaved s mids s2
| interleaved_run s mids s1 mid :
    interleaved s mids s1 -> interleaved s (mids ++ mid)%list (run mid s1).

End CleanupDuring.

(** ** The error list of the statistics ([stats.errors]) *)

Record ErrorEntry := { time : Z; message : string; count : nat }.

(** [const existingError = this.stats.errors.find(e => e.message ===
    errorMessage)] followed, when there is one, by [existingError.count +=
    1; existingError.time = new Date()]: the first entry with the message
    is updated in place.  [None] when no entry has the message. *)
Fixpoint touch (now : Z) (errorMessage : string) (errors : list ErrorEntry)
  : option (list ErrorEntry) :=
  match errors with
  | [] => None
  | e :: rest =>
      if bool_decide (message e = errorMessage)
      then Some ({| time := now; message := message e; count := count e + 1 |} :: rest)
      else cons e <$> touch now errorMessage rest
  end.

(** [errors.sort((a, b) => b.time.getTime() - a.time.getTime())]: the most
    recent first; entries with the same time keep their order (the sort
    is stable). *)
Fixpoint insert_by_time (x : ErrorEntry) (l : list ErrorEntry) : list ErrorEntry :=
  match l with
  | [] => [x]
  | y :: rest =>
      if (time x <? time y)%Z then y :: insert_by_time x rest else x :: y :: rest
  end.

Definition sort_recent_first (l : list ErrorEntry) : list ErrorEntry :=
  foldr insert_by_time [] l.

(** [recordError(errorMessage)] at time [now], on the array
    [this.stats.errors]. *)
Definition recordError (now : Z) (errorMessage : string) (errors : list ErrorEntry)
  : list ErrorEntry :=
  let errors1 :=
    match touch now errorMessage errors with
    | Some updated => updated
    | None => (errors ++ [ {| time := now; message := errorMessage; count := 1 |} ])%list
    end in
  if Nat.ltb 100 (length errors1)
  then take 100 (sort_recent_first errors1)
  else errors1.

(** Errors recorded one after the other, each with the time of its
    call. *)
Definition record_all (calls : list (Z * string)) (errors : list ErrorEntry)
  : list ErrorEntry :=
  foldl (λ l call, recordError (fst call) (snd call) l) errors calls.

(** The count the list holds for a message, 0 when it holds none. *)
Definition error_count (m : string) (errors : list ErrorEntry) : nat :=
  match List.find (λ e, bool_decide (message e = m)) errors with
  | Some e => count e
  | None => 0
  end.

(** The time the list holds for a message. *)
Definition error_time (m : string) (errors : list ErrorEntry) : option Z :=
  time <$> List.find (λ e, bool_decide (message e = m)) errors.

End Notifier.

(* ================================================================== *)
(** * Delivery mechanisms (delivery/base.ts, custom.ts, index.ts)      *)
(* ================================================================== *)

Module Delivery.

(** [DeliveryMethod] (types.ts) *)
Inductive DeliveryMethod := SERVER_SENT_EVENTS | WEBSOCKET | HTTP_WEBHOOK | CUSTOM.

(** ** The base class *)

(** The three methods a subclass of [BaseDelivery] implements, over what
    the subclass keeps. *)
Record Implementation (X : Type) := {
  initializeDelivery : SE X unit;
  deliverEvent : Notifier.payload -> SE X unit;
  closeDelivery : SE X unit
}.
Arguments initializeDelivery {X} _.
Arguments deliverEvent {X} _ _.
Arguments closeDelivery {X} _.

(** The calls the base class makes to these methods, with whether each
    resolved. *)
Inductive impl_call :=
| InitializeDelivery (ok : bool)
| DeliverEvent (p : Notifier.payload) (ok : bool)
| CloseDelivery (ok : bool).

(** An instance: the flag of the base class, what the subclass keeps, and
    the calls made to the subclass so far. *)
Record Instance (X : Type) := {
  initialized : bool;
  own : X;
  impl_calls : list impl_call
}.
Arguments initialized {X} _.
Arguments own {X} _.
Arguments impl_calls {X} _.


Section Base.
Context {X : Type}.
Variable impl : Implementation X.

(** One call to a method of the subclass.  The base class wraps what the
    method throws in a [DeliveryError] with a fixed message; the model of
    the error keeps the message and not the cause. *)
Definition call_impl (m : SE X unit) (mk : bool -> impl_call) : SE (Instance X) unit :=
  λ d, match m (own d) with
       | (x, Returned _) =>
           ({| initialized := initialized d; own := x;
               impl_calls := (impl_calls d ++ [mk true])%list |}, Returned tt)
       | (x, Threw e) =>
           ({| initialized := initialized d; own := x;
               impl_calls := (impl_calls d ++ [mk false])%list |}, Threw e)
       end.

Definition set_initialized (b : bool) : SE (Instance X) unit :=
  se_modify (λ d, {| initialized := b; own := own d; impl_calls := impl_calls d |}).

(** [initialize()] *)
Definition initialize : SE (Instance X) unit :=
  λ d, if initialized d then (d, Returned tt)
       else se_try
              (do! _ := call_impl (initializeDelivery impl) InitializeDelivery in
               set_initialized true)
              (λ err, se_throw (DeliveryError "Failed to initialize delivery mechanism"))
              d.

(** [deliver(event)] *)
Definition deliver (event : Notifier.payload) : SE (Instance X) unit :=
  λ d, if negb (initialized d)
       then (d, Threw (DeliveryError "Delivery mechanism not initialized"))
       else se_try
              (call_impl (deliverEvent impl event) (DeliverEvent event))
              (λ err, se_throw (DeliveryError "Failed to deliver event(s)"))
              d.

(** [close()] *)
Definition close : SE (Instance X) unit :=
  λ d, if negb (initialized d) then (d, Returned tt)
       else se_try
              (do! _ := call_impl (closeDelivery impl) CloseDelivery in
               set_initialized false)
              (λ err, se_throw (DeliveryError "Failed to close delivery mechanism"))
              d.

(** What a user of the instance can call. *)
Inductive call := Initialize | Deliver (event : Notifier.payload) | Close.

Definition step (d : Instance X) (c : call) : Instance X :=
  match c with
  | Initialize => fst (initialize d)
  | Deliver event => fst (deliver event d)
  | Close => fst (close d)
  end.

Definition run (cs : list call) (d : Instance X) : Instance X := foldl step d cs.

End Base.

(** ** The life of an instance, read off the calls to its subclass *)




(** ** The custom mechanism (delivery/custom.ts) *)

Section Custom.
(** What the handler's closure holds, and [options.handler]. *)
Context {H : Type}.
Variable handler : ChangeEvent -> SE H unit.

(** [await this.options.handler(e)], with the events the handler was
    called with so far. *)
Definition call_handler (e : ChangeEvent) : SE (H * list ChangeEvent) unit :=
  λ st, match handler e (fst st) with
        | (h, r) => ((h, (snd st ++ [e])%list), r)
        end.

(** [CustomDelivery]: nothing to initialize, nothing to close; an array
    goes to the handler one event after the other. *)
Definition custom : Implementation (H * list ChangeEvent) :=
  {| initializeDelivery := se_ret tt;
     deliverEvent := λ event,
       match event with
       | Notifier.Batch es => se_for es call_handler
       | Notifier.Single e => call_handler e
       end;
     closeDelivery := se_ret tt |}.

End Custom.

(** ** The factory (delivery/base.ts) *)

(** [createDeliveryMechanism(config)]: which class is instantiated, or
    the error thrown. *)
Inductive mechanism := ServerSentEventsDelivery | CustomDelivery.

Definition method_name (m : DeliveryMethod) : string :=
  match m with
  | SERVER_SENT_EVENTS => "sse"
  | WEBSOCKET => "websocket"
  | HTTP_WEBHOOK => "webhook"
  | CUSTOM => "custom"
  end.

Definition createDeliveryMechanism (m : DeliveryMethod) : result js_error mechanism :=
  match m with
  | SERVER_SENT_EVENTS => Returned ServerSentEventsDelivery
  | CUSTOM => Returned CustomDelivery
  | WEBSOCKET | HTTP_WEBHOOK =>
      Threw (DeliveryError ("Delivery method " +:+ method_name m +:+ " not implemented yet"))
  end.

End Delivery.

(* ================================================================== *)
(** * The server-sent-events mechanism (delivery/base.ts)              *)
(* ================================================================== *)

Module SSE.

(** What is written to a response. *)
Inductive chunk :=
| ConnectedLine                      (* 'event: connected\n' *)
| ConnectedData (clientId : string)  (* `data: ${JSON.stringify({ clientId })}\n\n` *)
| IdLine (id : value)                (* `id: ${event.id}\n` *)
| ChangeLine                         (* 'event: change\n' *)
| DataLine (e : ChangeEvent)         (* `data: ${JSON.stringify(event)}\n\n` *)
| HeartbeatLine.                     (* ':heartbeat\n\n' *)

(** The response object of a client, as far as the mechanism acts on
    it. *)
Record Response := { head_sent : bool; written : list chunk; ended : bool }.

(** [SSEClientConnection] *)
Record SSEClientConnection := {
  id : string;
  res : Response;
  lastEventId : option value
}.

(** The mechanism: the map of clients in the order of insertion, the
    interval of the heartbeat if it is armed, the events emitted on
    [this.events], and the clients taken out of the map, as they were
    left. *)
Record State := {
  clients : list SSEClientConnection;
  heartbeatInterval : option Z;
  emitted : list ChangeEvent;
  removed : list SSEClientConnection
}.

Definition set_clients (cs removed' : list SSEClientConnection) (s : State) : State :=
  {| clients := cs; heartbeatInterval := heartbeatInterval s; emitted := emitted s;
     removed := removed' |}.

Section Mechanism.
(** Whether [res.write(chunk)] and [res.end()] throw, for a client and the
    state of its response. *)
Variable write_throws : string -> Response -> chunk -> bool.
Variable end_throws : string -> Response -> bool.
(** [options.heartbeatInterval] after the defaults were merged in. *)
Variable heartbeat_option : option Z.

(** [client.res.write(chunk)] *)
Definition write (c : chunk) : SE SSEClientConnection unit :=
  λ cl, if write_throws (id cl) (res cl) c
        then (cl, Threw (UserError "write failed"))
        else ({| id := id cl;
                 res := {| head_sent := head_sent (res cl);
                           written := (written (res cl) ++ [c])%list;
                           ended := ended (res cl) |};
                 lastEventId := lastEventId cl |}, Returned tt).

(** [try { client.res.end() } catch (err) { }] *)
Definition end_quietly (cl : SSEClientConnection) : SSEClientConnection :=
  if end_throws (id cl) (res cl) then cl
  else {| id := id cl;
          res := {| head_sent := head_sent (res cl); written := written (res cl);
                    ended := true |};
          lastEventId := lastEventId cl |}.

(** [sendEventToClient(client, event)] *)
Definition sendEventToClient (event : ChangeEvent) : SE SSEClientConnection unit :=
  do! _ := write (IdLine (ev_id event)) in
  do! _ := write ChangeLine in
  do! _ := write (DataLine event) in
  se_modify (λ cl, {| id := id cl; res := res cl; lastEventId := Some (ev_id event) |}).

(** One turn of the loop over the clients in [deliverEvent]:
    [try { for (const eventData of events) { this.sendEventToClient(client,
    eventData) } } catch (err) { this.removeClient(clientId) }].  The
    answer is the client as it stays in the map, or as it leaves it. *)
Definition serve (events : list ChangeEvent) (cl : SSEClientConnection)
  : SSEClientConnection + SSEClientConnection :=
  match se_for events sendEventToClient cl with
  | (cl', Returned _) => inl cl'
  | (cl', Threw _) => inr (end_quietly cl')
  end.

(** The loop over the entries of the map, for a body that keeps the
    client or removes it. *)
Fixpoint for_each_client (body : SSEClientConnection -> SSEClientConnection + SSEClientConnection)
    (todo kept gone : list SSEClientConnection)
  : list SSEClientConnection * list SSEClientConnection :=
  match todo with
  | [] => (kept, gone)
  | cl :: rest =>
      match body cl with
      | inl cl' => for_each_client body rest (kept ++ [cl'])%list gone
      | inr cl' => for_each_client body rest kept (gone ++ [cl'])%list
      end
  end.

(** [initializeDelivery()] *)
Definition initializeDelivery : SE State unit :=
  se_modify (λ s,
    match heartbeat_option with
    | Some n =>
        if bool_decide (0 < n)%Z
        then {| clients := clients s; heartbeatInterval := Some n; emitted := emitted s;
                removed := removed s |}
        else s
    | None => s
    end).

(** [deliverEvent(event)] *)
Definition deliverEvent (event : Notifier.payload) : SE State unit :=
  se_modify (λ s,
    let events := match event with
                  | Notifier.Batch es => es
                  | Notifier.Single e => [e]
                  end in
    let '(kept, gone) := for_each_client (serve events) (clients s) [] (removed s) in
    {| clients := kept; heartbeatInterval := heartbeatInterval s;
       emitted := (emitted s ++ events)%list; removed := gone |}).

(** [sendHeartbeat()], the callback of the interval. *)
Definition sendHeartbeat (s : State) : State :=
  let '(kept, gone) :=
    for_each_client
      (λ cl, match write HeartbeatLine cl with
             | (cl', Returned _) => inl cl'
             | (cl', Threw _) => inr (end_quietly cl')
             end)
      (clients s) [] (removed s) in
  set_clients kept gone s.

(** [closeDelivery()] *)
Definition closeDelivery : SE State unit :=
  se_modify (λ s,
    {| clients := []; heartbeatInterval := None; emitted := emitted s;
       removed := (removed s ++ (end_quietly <$> clients s))%list |}).

(** [removeClient(clientId)] *)
Definition removeClient (clientId : string) (s : State) : State :=
  match List.find (λ cl, bool_decide (id cl = clientId)) (clients s) with
  | Some cl =>
      set_clients (List.filter (λ c, negb (bool_decide (id c = clientId))) (clients s))
                  (removed s ++ [end_quietly cl])%list s
  | None => s
  end.

Definition mechanism : Delivery.Implementation State :=
  {| Delivery.initializeDelivery := initializeDelivery;
     Delivery.deliverEvent := deliverEvent;
     Delivery.closeDelivery := closeDelivery |}.

(** The chunks one event is sent as. *)
Definition event_chunks (e : ChangeEvent) : list chunk :=
  [IdLine (ev_id e); ChangeLine; DataLine e].

(** Whether the response of a client takes the chunks, one after the
    other. *)
Fixpoint takes (clientId : string) (r : Response) (cs : list chunk) : bool :=
  match cs with
  | [] => true
  | c :: rest =>
      negb (write_throws clientId r c)
      && takes clientId {| head_sent := head_sent r; written := (written r ++ [c])%list;
                           ended := ended r |} rest
  end.

(** A client after the events were written to its response. *)
Definition served (events : list ChangeEvent) (cl : SSEClientConnection)
  : SSEClientConnection :=
  {| id := id cl;
     res := {| head_sent := head_sent (res cl);
               written := (written (res cl) ++ List.concat (event_chunks <$> events))%list;
               ended := ended (res cl) |};
     lastEventId := match last events with
                    | Some e => Some (ev_id e)
                    | None => lastEventId cl
                    end |}.

(** The clients a delivery of the events keeps. *)
Definition keeps (events : list ChangeEvent) (cl : SSEClientConnection) : bool :=
  takes (id cl) (res cl) (List.concat (event_chunks <$> events)).

End Mechanism.

End SSE.

(* ================================================================== *)
(** * Starting the notifier (core/notifier.ts, core/adapter.ts)        *)
(* ================================================================== *)

Module Startup.

(** The part of the configuration [initialize] reads: the type of the
    database, as the configuration object has it, and the methods of the
    configured deliveries, in order. *)
Record StartupConfig := {
  database_type : string;
  delivery_methods : list Delivery.DeliveryMethod
}.

(** How the collaborators answer during one [initialize()]. *)
Record StartupOutcomes := {
  test_connection_ok : bool;          (* adapter.testConnection() gives true *)
  sink_initialize_ok : nat -> bool;   (* initialize() of the i-th delivery resolves *)
  setup_ok : bool;                    (* adapter.setupChangeNotifications() resolves *)
  start_ok : bool                     (* adapter.start() resolves *)
}.

(** A [DBChangeError] made without a cause has [cause] undefined. *)
Definition no_cause : js_error := UserError "undefined".

(** The notifier as its constructor leaves it. *)
Definition constructed (c : Notifier.NotifierConfig) : Notifier.State :=
  {| Notifier.config := c; Notifier.adapter := false; Notifier.deliveryMechanisms := [];
     Notifier.isRunning := false; Notifier.stats := Notifier.initializeStats;
     Notifier.eventBuffer := []; Notifier.batchTimeout := None; Notifier.pending := [];
     Notifier.next_timer := 0; Notifier.trace := [] |}.

Section Initialize.
Variable sc : StartupConfig.
Variable so : StartupOutcomes.
Variable co : Notifier.CleanupOutcomes.

(** [getAdapter(config)] (core/adapter.ts): only PostgreSQL has an
    adapter. *)
Definition getAdapter : result js_error unit :=
  if bool_decide (database_type sc = "postgresql") then Returned tt
  else Threw (UserError ("Unsupported database type: " +:+ database_type sc)).

(** [this.adapter = await this.createAdapter()] *)
Definition createAdapter : SE Notifier.State unit :=
  do! _ := se_lift getAdapter in
  if test_connection_ok so
  then se_modify (λ s, Notifier.set_lifecycle true (Notifier.deliveryMechanisms s)
                         (Notifier.isRunning s) s)
  else se_throw (DBChangeError "Failed to connect to database" no_cause).

(** The body of the loop of [setupDeliveryMechanisms], for the i-th
    configured delivery. *)
Definition setup_delivery (i : nat) (m : Delivery.DeliveryMethod)
  : SE Notifier.State unit :=
  do! _ := se_lift (Delivery.createDeliveryMechanism m) in
  if sink_initialize_ok so i
  then (* this.deliveryMechanisms.push(delivery) *)
       se_modify (λ s, Notifier.set_lifecycle (Notifier.adapter s)
                         (Notifier.deliveryMechanisms s ++ [i])%list
                         (Notifier.isRunning s) s)
  else se_throw (DeliveryError "Failed to initialize delivery mechanism").

(** [setupDeliveryMechanisms()], from the i-th delivery on. *)
Fixpoint setupDeliveryMechanisms (i : nat) (ms : list Delivery.DeliveryMethod)
  : SE Notifier.State unit :=
  match ms with
  | [] => se_ret tt
  | m :: rest => do! _ := setup_delivery i m in setupDeliveryMechanisms (S i) rest
  end.

(** [await this.adapter.setupChangeNotifications(this.config.tables || {})] *)
Definition adapter_setup : SE Notifier.State unit :=
  if setup_ok so then se_ret tt
  else se_throw (DBChangeError "Failed to set up change notifications"
                   (PgError "statement failed")).

(** [await this.adapter.start()] *)
Definition adapter_start : SE Notifier.State unit :=
  if start_ok so then se_ret tt
  else se_throw (DBChangeError "Failed to start PostgreSQL adapter"
                   (PgError "connection failed")).

(** The [try] block of [initialize()]. *)
Definition initialize_try : SE Notifier.State unit :=
  do! _ := createAdapter in
  do! _ := setupDeliveryMechanisms 0 (delivery_methods sc) in
  do! _ := adapter_setup in
  (* this.registerEventHandlers(): the adapter is set *)
  do! _ := adapter_start in
  se_modify (λ s, Notifier.set_lifecycle (Notifier.adapter s)
                    (Notifier.deliveryMechanisms s) true s).

(** [initialize()] *)
Definition initialize : SE Notifier.State unit :=
  se_try initialize_try
    (λ err,
     (* clean up any partially initialized resources *)
     do! _ := Notifier.cleanup co in
     se_throw (DBChangeError "Failed to initialize change notifier" err)).

(** The deliveries that are set up before the first one that cannot be:
    their places in the configuration. *)
Fixpoint set_up (i : nat) (ms : list Delivery.DeliveryMethod) : list nat :=
  match ms with
  | [] => []
  | m :: rest =>
      match Delivery.createDeliveryMechanism m with
      | Returned _ => if sink_initialize_ok so i then i :: set_up (S i) rest else []
      | Threw _ => []
      end
  end.

(** Every step of [initialize] goes well. *)
Definition all_goes_well : bool :=
  bool_decide (database_type sc = "postgresql")
  && test_connection_ok so
  && bool_decide (set_up 0 (delivery_methods sc) = seq 0 (length (delivery_methods sc)))
  && setup_ok so
  && start_ok so.

(** The adapter is obtained. *)
Definition adapter_obtained : bool :=
  bool_decide (database_type sc = "postgresql") && test_connection_ok so.

End Initialize.

End Startup.

(* ================================================================== *)
(** * Concrete inputs                                                  *)
(* ================================================================== *)

Module Inputs.

(** ** A catalog and filters *)

Definition shop_catalog : list Adapter.CatalogRow :=
  [ {| Adapter.table_schema := "public"; Adapter.table_name := "users";
       Adapter.row_type := Adapter.BASE_TABLE |};
    {| Adapter.table_schema := "public"; Adapter.table_name := "logs";
       Adapter.row_type := Adapter.BASE_TABLE |};
    {| Adapter.table_schema := "public"; Adapter.table_name := "report";
       Adapter.row_type := Adapter.VIEW |};
    {| Adapter.table_schema := "audit"; Adapter.table_name := "users";
       Adapter.row_type := Adapter.BASE_TABLE |} ].

(** [{ exclude: ['logs'] }] *)
Definition exclude_logs : Adapter.TableFilter :=
  {| Adapter.include := None; Adapter.exclude := Some ["logs"]; Adapter.schemas := None |}.

(** [{ include: ['users'] }] *)
Definition include_users : Adapter.TableFilter :=
  {| Adapter.include := Some ["users"]; Adapter.exclude := None; Adapter.schemas := None |}.

(** [{}] *)
Definition no_filter : Adapter.TableFilter :=
  {| Adapter.include := None; Adapter.exclude := None; Adapter.schemas := None |}.

(** ** A database with two tables, one of which refuses triggers *)

Definition two_tables : Adapter.Database :=
  {| Adapter.catalog :=
       [ {| Adapter.table_schema := "public"; Adapter.table_name := "a";
            Adapter.row_type := Adapter.BASE_TABLE |};
         {| Adapter.table_schema := "public"; Adapter.table_name := "b";
            Adapter.row_type := Adapter.BASE_TABLE |} ];
     Adapter.installed := [];
     Adapter.notify_function := false |}.

(** The statement creating the trigger on table [b] fails (say, for lack
    of privilege on that table). *)
Definition b_refuses_triggers : Adapter.Faults :=
  {| Adapter.pool_connect_fails := false;
     Adapter.statement_fails := λ st,
       match st with
       | Adapter.DROP_AND_CREATE_TRIGGER o => bool_decide (Adapter.tableName o = "b")
       | _ => false
       end |}.

Definition trigger_on_a : Adapter.TriggerRecord :=
  {| Adapter.name := "db_change_notify_public_a"; Adapter.table := "a";
     Adapter.schema := "public" |}.

Definition trigger_on_b : Adapter.TriggerRecord :=
  {| Adapter.name := "db_change_notify_public_b"; Adapter.table := "b";
     Adapter.schema := "public" |}.

(** The same database after another process installed its trigger on
    [a]. *)
Definition two_tables_watched : Adapter.Database :=
  {| Adapter.catalog := Adapter.catalog two_tables;
     Adapter.installed := [trigger_on_a];
     Adapter.notify_function := true |}.

(** [{ include: ['a', 'b'] }] and [{ include: ['b'] }] *)
Definition include_a_b : Adapter.TableFilter :=
  {| Adapter.include := Some ["a"; "b"]; Adapter.exclude := None; Adapter.schemas := None |}.

Definition include_b : Adapter.TableFilter :=
  {| Adapter.include := Some ["b"]; Adapter.exclude := None; Adapter.schemas := None |}.

(** ** A runtime for patterns without metacharacters *)

(** The first occurrence of [needle] in [hay] at or after [start], where
    [hay] is the part of the subject from position [pos] on; the answer is
    the position after the occurrence. *)
Fixpoint find_literal (needle hay : string) (pos start : nat) : option nat :=
  if Nat.leb start pos && String.prefix needle hay
  then Some (pos + String.length needle)
  else match hay with
       | EmptyString => None
       | String _ hay' => find_literal needle hay' (S pos) start
       end.

Definition quote : string := String (ascii_of_nat 34) EmptyString.

(** [{"operation":"merge","table":"t"}] *)
Definition merge_payload : string :=
  "{" +:+ quote +:+ "operation" +:+ quote +:+ ":" +:+ quote +:+ "merge" +:+ quote +:+ ","
  +:+ quote +:+ "table" +:+ quote +:+ ":" +:+ quote +:+ "t" +:+ quote +:+ "}".

(** [{"operation":"INSERT","table":"t","data":{"new":{"a":1}}}] *)
Definition insert_payload : string :=
  "{" +:+ quote +:+ "operation" +:+ quote +:+ ":" +:+ quote +:+ "INSERT" +:+ quote +:+ ","
  +:+ quote +:+ "table" +:+ quote +:+ ":" +:+ quote +:+ "t" +:+ quote +:+ ","
  +:+ quote +:+ "data" +:+ quote +:+ ":{" +:+ quote +:+ "new" +:+ quote +:+ ":{"
  +:+ quote +:+ "a" +:+ quote +:+ ":1}}}".

(** A runtime that parses the payloads above and rejects the text
    [{oops]; its patterns are literal texts, every pattern string
    compiles. *)
Definition literal_runtime : JsRuntime :=
  {| JSON_parse := λ text,
       if bool_decide (text = merge_payload)
       then Some (VObject [("operation", VString "merge"); ("table", VString "t")])
       else if bool_decide (text = insert_payload)
       then Some (VObject [("operation", VString "INSERT"); ("table", VString "t");
                           ("data", VObject [("new", VObject [("a", VNumber 1%Qc)])])])
       else None;
     epoch_to_iso := λ _, Some "1970-01-01T00:00:00.000Z";
     ToString := λ v, match v with
                      | VString s => s
                      | VUndefined => "undefined"
                      | VNull => "null"
                      | VBool true => "true"
                      | VBool false => "false"
                      | _ => "[object Object]"
                      end;
     regexp_valid := λ _, true;
     regexp_match := λ src subject start, find_literal src subject 0 start |}.

(** [{"operation":"merge","timestamp":"yesterday"}] *)
Definition merge_yesterday_payload : string :=
  "{" +:+ quote +:+ "operation" +:+ quote +:+ ":" +:+ quote +:+ "merge" +:+ quote +:+ ","
  +:+ quote +:+ "timestamp" +:+ quote +:+ ":" +:+ quote +:+ "yesterday" +:+ quote +:+ "}".

(** A runtime that parses this payload.  The text [yesterday] times 1000
    is [NaN], and [new Date(NaN).toISOString()] throws. *)
Definition yesterday_runtime : JsRuntime :=
  {| JSON_parse := λ text,
       if bool_decide (text = merge_yesterday_payload)
       then Some (VObject [("operation", VString "merge");
                           ("timestamp", VString "yesterday")])
       else None;
     epoch_to_iso := λ v,
       match v with
       | VString t => if bool_decide (t = "yesterday") then None
                      else Some "1970-01-01T00:00:00.000Z"
       | _ => Some "1970-01-01T00:00:00.000Z"
       end;
     ToString := @ToString literal_runtime;
     regexp_valid := λ _, true;
     regexp_match := λ src subject start, find_literal src subject 0 start |}.

(** A change-event handler that accepts every event. *)
Definition accepting_handler : Adapter.Handler := λ _, Returned tt.

(** The event the adapter builds from [insert_payload] for database
    [demo_db], with ["u"] for the generated id and ["n"] for the current
    time. *)
Definition insert_event : ChangeEvent :=
  {| ev_id := VString "u"; ev_timestamp := "n"; ev_operation := INSERT;
     ev_database := "demo_db"; ev_table := VString "t"; ev_schema := VUndefined;
     ev_data_new := Some (VObject [("a", VNumber 1%Qc)]);
     ev_data_old := Some VNull |}.

(** ** A redacting transformation on a pattern with the [g] flag *)

(** Replaces [data.new] by an object whose password is masked. *)
Definition redact : ChangeEvent -> option ChangeEvent :=
  λ e, Some {| ev_id := ev_id e; ev_timestamp := ev_timestamp e;
               ev_operation := ev_operation e; ev_database := ev_database e;
               ev_table := ev_table e; ev_schema := ev_schema e;
               ev_data_new := Some (VObject [("password", VString "[REDACTED]")]);
               ev_data_old := ev_data_old e |}.

(** [{ tablePattern: /users/g, transform: redact }] *)
Definition redact_users_g : Notifier.TransformationConfig :=
  {| Notifier.tablePattern :=
       Notifier.PatternRegExp
         {| Notifier.source := "users"; Notifier.global := true; Notifier.lastIndex := 0 |};
     Notifier.transform := redact |}.

(** [{ tablePattern: 'users', transform: redact }] *)
Definition redact_users : Notifier.TransformationConfig :=
  {| Notifier.tablePattern := Notifier.PatternString "users";
     Notifier.transform := redact |}.

(** An insert into [public.users] carrying a password. *)
Definition user_inserted (n : string) : ChangeEvent :=
  {| ev_id := VString n; ev_timestamp := "2024-01-01T00:00:00.000Z";
     ev_operation := INSERT; ev_database := "demo_db";
     ev_table := VString "users"; ev_schema := VString "public";
     ev_data_new := Some (VObject [("password", VString "secret")]);
     ev_data_old := Some VNull |}.

(** An insert into [public.orders]. *)
Definition order_inserted : ChangeEvent :=
  {| ev_id := VString "o1"; ev_timestamp := "2024-01-01T00:00:00.000Z";
     ev_operation := INSERT; ev_database := "demo_db";
     ev_table := VString "orders"; ev_schema := VString "public";
     ev_data_new := Some (VObject [("total", VNumber (Q2Qc 5))]);
     ev_data_old := Some VNull |}.

(** Immediate delivery through the given transformations. *)
Definition unbatched (ts : list Notifier.TransformationConfig) : Notifier.NotifierConfig :=
  {| Notifier.batchingEnabled := false; Notifier.batchSize := None;
     Notifier.batchTimeWindowMs := None; Notifier.transformations := Some ts |}.

(** Batches of two, no transformations. *)
Definition batches_of_two : Notifier.NotifierConfig :=
  {| Notifier.batchingEnabled := true; Notifier.batchSize := Some 2%Z;
     Notifier.batchTimeWindowMs := None; Notifier.transformations := None |}.

(** Every sink resolves; sink 1 rejects. *)
Definition all_sinks_ok : nat -> bool := λ _, true.
Definition sink_1_rejects : nat -> bool := λ i, negb (Nat.eqb i 1).

(** A cleanup during which [adapter.stop()] rejects and everything else
    resolves. *)
Definition adapter_stop_rejects : Notifier.CleanupOutcomes :=
  {| Notifier.flush_resolves := λ _, true;
     Notifier.adapter_stop_ok := false;
     Notifier.adapter_teardown_ok := true;
     Notifier.sink_close_ok := λ _, true |}.

(** [user_inserted n] after [redact]. *)
Definition user_redacted (n : string) : ChangeEvent :=
  {| ev_id := VString n; ev_timestamp := "2024-01-01T00:00:00.000Z";
     ev_operation := INSERT; ev_database := "demo_db";
     ev_table := VString "users"; ev_schema := VString "public";
     ev_data_new := Some (VObject [("password", VString "[REDACTED]")]);
     ev_data_old := Some VNull |}.

(** A running notifier with two sinks, batches of two, and one event in
    its buffer. *)
Definition one_buffered : Notifier.State :=
  @Notifier.run literal_runtime
    [Notifier.EventArrives order_inserted all_sinks_ok]
    (Notifier.running batches_of_two [0; 1]).

(** Every statement dropping a trigger fails. *)
Definition drops_fail : Adapter.Faults :=
  {| Adapter.pool_connect_fails := false;
     Adapter.statement_fails := λ st,
       match st with
       | Adapter.DROP_TRIGGER_IF_EXISTS _ _ _ => true
       | _ => false
       end |}.

(** An adapter that has set up its triggers on both tables. *)
Definition watching_two_tables : Adapter.World :=
  fst (Adapter.setupChangeNotifications Adapter.no_faults no_filter
         (Adapter.new_adapter two_tables)).

(** The runtime above, except that the pattern ["("] does not compile. *)
Definition unbalanced_runtime : JsRuntime :=
  {| JSON_parse := @JSON_parse literal_runtime;
     epoch_to_iso := @epoch_to_iso literal_runtime;
     ToString := @ToString literal_runtime;
     regexp_valid := λ src, negb (bool_decide (src = "("));
     regexp_match := @regexp_match literal_runtime |}.

(** [{ tablePattern: '(', transform: redact }] *)
Definition redact_unbalanced : Notifier.TransformationConfig :=
  {| Notifier.tablePattern := Notifier.PatternString "(";
     Notifier.transform := redact |}.


(** A full error list: a hundred messages, reported at times 0 to 99. *)
Definition hundred_errors : list Notifier.ErrorEntry :=
  (λ i, {| Notifier.time := Z.of_nat i;
           Notifier.message := "error " +:+ Adapter.decimal i;
           Notifier.count := 1 |}) <$> seq 0 100.

(** ** A notification of the trigger function *)

(** [{"operation":"update","schema":"public","table":"users","data":
    {"new":{"id":2},"old":{"id":1}},"id":"7f","timestamp":1700000000}] *)
Definition update_notification : string :=
  "{" +:+ quote +:+ "operation" +:+ quote +:+ ":" +:+ quote +:+ "update" +:+ quote +:+ ","
  +:+ quote +:+ "schema" +:+ quote +:+ ":" +:+ quote +:+ "public" +:+ quote +:+ ","
  +:+ quote +:+ "table" +:+ quote +:+ ":" +:+ quote +:+ "users" +:+ quote +:+ ","
  +:+ quote +:+ "data" +:+ quote +:+ ":{" +:+ quote +:+ "new" +:+ quote +:+ ":{"
  +:+ quote +:+ "id" +:+ quote +:+ ":2}," +:+ quote +:+ "old" +:+ quote +:+ ":{"
  +:+ quote +:+ "id" +:+ quote +:+ ":1}},"
  +:+ quote +:+ "id" +:+ quote +:+ ":" +:+ quote +:+ "7f" +:+ quote +:+ ","
  +:+ quote +:+ "timestamp" +:+ quote +:+ ":1700000000}".

(** A runtime that parses this notification and dates its epoch. *)
Definition notification_runtime : JsRuntime :=
  {| JSON_parse := λ text,
       if bool_decide (text = update_notification)
       then Some (Adapter.notify_payload Adapter.TG_UPDATE "public" "users"
                    [("id", VNumber (Q2Qc 2))] [("id", VNumber (Q2Qc 1))]
                    "7f" (Q2Qc 1700000000))
       else None;
     epoch_to_iso := λ _, Some "2023-11-14T22:13:20.000Z";
     ToString := @ToString literal_runtime;
     regexp_valid := λ _, true;
     regexp_match := @regexp_match literal_runtime |}.

(** A handler of a custom delivery that counts its calls and rejects the
    second one. *)
Definition rejects_second_call : ChangeEvent -> SE nat unit :=
  λ _ h, (S h, if Nat.eqb h 1 then Threw (UserError "socket closed") else Returned tt).

(** Two clients of the server-sent-events mechanism, as [registerClient]
    leaves them; the response of the second one throws on every write. *)
Definition sse_client (clientId : string) : SSE.SSEClientConnection :=
  {| SSE.id := clientId;
     SSE.res := {| SSE.head_sent := true;
                   SSE.written := [SSE.ConnectedLine; SSE.ConnectedData clientId];
                   SSE.ended := false |};
     SSE.lastEventId := None |}.

Definition two_sse_clients : SSE.State :=
  {| SSE.clients := [sse_client "sse-client-1"; sse_client "sse-client-gone"];
     SSE.heartbeatInterval := Some 30000%Z;
     SSE.emitted := [];
     SSE.removed := [] |}.

Definition gone_refuses_writes : string -> SSE.Response -> SSE.chunk -> bool :=
  λ clientId _ _, bool_decide (clientId = "sse-client-gone").

Definition end_works : string -> SSE.Response -> bool := λ _ _, false.

(** Configurations of the deliveries, and how the collaborators answer
    during [initialize()]. *)
Definition sse_and_custom : Startup.StartupConfig :=
  {| Startup.database_type := "postgresql";
     Startup.delivery_methods := [Delivery.SERVER_SENT_EVENTS; Delivery.CUSTOM] |}.

Definition three_deliveries : Startup.StartupConfig :=
  {| Startup.database_type := "postgresql";
     Startup.delivery_methods :=
       [Delivery.SERVER_SENT_EVENTS; Delivery.CUSTOM; Delivery.SERVER_SENT_EVENTS] |}.

Definition sse_websocket_custom : Startup.StartupConfig :=
  {| Startup.database_type := "postgresql";
     Startup.delivery_methods :=
       [Delivery.SERVER_SENT_EVENTS; Delivery.WEBSOCKET; Delivery.CUSTOM] |}.

Definition everything_works : Startup.StartupOutcomes :=
  {| Startup.test_connection_ok := true;
     Startup.sink_initialize_ok := λ _, true;
     Startup.setup_ok := true;
     Startup.start_ok := true |}.

Definition second_delivery_fails : Startup.StartupOutcomes :=
  {| Startup.test_connection_ok := true;
     Startup.sink_initialize_ok := λ i, negb (Nat.eqb i 1);
     Startup.setup_ok := true;
     Startup.start_ok := true |}.

Definition cleanup_works : Notifier.CleanupOutcomes :=
  {| Notifier.flush_resolves := λ _, true;
     Notifier.adapter_stop_ok := true;
     Notifier.adapter_teardown_ok := true;
     Notifier.sink_close_ok := λ _, true |}.

End Inputs.

(* ================================================================== *)
(** * Sequencing                                                       *)
(* ================================================================== *)

Module MonadFacts.

Lemma se_bind_eq {S A B} (m : SE S A) (k : A -> SE S B) (s : S) :
  se_bind m k s = match m s with
                  | (s', Returned a) => k a s'
                  | (s', Threw e) => (s', Threw e)
                  end.
Proof. reflexivity. Qed.

(** What every part of a sequence leaves alone, the sequence leaves
    alone. *)
Lemma se_bind_frame {S A B X} (g : S -> X) (m : SE S A) (k : A -> SE S B) :
  (forall s, g (fst (m s)) = g s) -> (forall a s, g (fst (k a s)) = g s) ->
  forall s, g (fst (se_bind m k s)) = g s.
Proof.
  intros Hm Hk s. unfold se_bind. specialize (Hm s).
  destruct (m s) as [s1 [a|e]]; cbn [fst] in *; [|exact Hm].
  rewrite Hk. exact Hm.
Qed.

Lemma se_for_frame {S A X} (g : S -> X) (l : list A) (body : A -> SE S unit) :
  (forall a s, g (fst (body a s)) = g s) ->
  forall s, g (fst (se_for l body s)) = g s.
Proof.
  intros Hb. induction l as [|a l IH]; intros s; [reflexivity|].
  cbn [se_for]. apply se_bind_frame; [apply Hb|]. intros _. exact IH.
Qed.

Lemma se_try_frame {S A X} (g : S -> X) (body : SE S A) (handler : js_error -> SE S A) :
  (forall s, g (fst (body s)) = g s) -> (forall e s, g (fst (handler e s)) = g s) ->
  forall s, g (fst (se_try body handler s)) = g s.
Proof.
  intros Hb Hh s. unfold se_try. specialize (Hb s).
  destruct (body s) as [s1 [a|e]]; cbn [fst] in *; [exact Hb|].
  rewrite Hh. exact Hb.
Qed.

End MonadFacts.

(* ================================================================== *)
(** * Properties of the notification listener                          *)
(* ================================================================== *)

Module ListenerSpec.
Import Listener.

Example backoff_first : backoff 1 = 1000%Z.
Proof. reflexivity. Qed.

Example backoff_fifth : backoff 5 = 16000%Z.
Proof. reflexivity. Qed.

Example backoff_sixth : backoff 6 = 30000%Z.
Proof. reflexivity. Qed.

Lemma backoff_le_ceiling (n : nat) : (backoff n <= 30000)%Z.
Proof. unfold backoff. destruct n; [lia|]. apply Z.le_min_r. Qed.

Lemma backoff_formula (n : nat) :
  1 <= n -> backoff n = Z.min (1000 * 2 ^ (Z.of_nat n - 1)) 30000.
Proof. destruct n; [lia|]. reflexivity. Qed.

(** ** The retry timer *)

Lemma pending_singleton_of_ids (l : list Timer) (h : nat) :
  timer_id <$> l = [h] -> exists t, l = [t] /\ timer_id t = h.
Proof.
  destruct l as [|t [|u l]]; simpl; intros H; try discriminate.
  injection H as H. eauto.
Qed.

Lemma clear_only_timer (t : Timer) (h : nat) :
  timer_id t = h -> filter (λ u, timer_id u ≠ h) [t] = [].
Proof.
  intros Ht. rewrite filter_cons_False; [reflexivity|].
  intros Hne. apply Hne, Ht.
Qed.

(** Arming a retry leaves exactly the new timer in the event loop. *)
Lemma handleReconnect_pending (d : Z) (s : State) :
  timers_ok s ->
  pending (handleReconnect d s) = [ {| timer_id := next_timer s; timer_delay := d |} ]
  /\ reconnectTimeout (handleReconnect d s) = Some (next_timer s)
  /\ next_timer (handleReconnect d s) = S (next_timer s).
Proof.
  unfold timers_ok, handleReconnect. intros Hok.
  destruct (reconnectTimeout s) as [h|] eqn:Hh; simpl in *.
  - apply pending_singleton_of_ids in Hok as (t & Hp & Ht).
    rewrite Hp, (clear_only_timer t h Ht). simpl. repeat split.
  - apply fmap_nil_inv in Hok. rewrite Hok. simpl. repeat split.
Qed.

Lemma handleReconnect_frame (d : Z) (s : State) :
  connected (handleReconnect d s) = connected s
  /\ connectionAttempts (handleReconnect d s) = connectionAttempts s
  /\ client (handleReconnect d s) = client s.
Proof. unfold handleReconnect. destruct (reconnectTimeout s); repeat split. Qed.

Lemma handleReconnect_ok (d : Z) (s : State) :
  timers_ok s -> timers_ok (handleReconnect d s).
Proof.
  intros Hok. destruct (handleReconnect_pending d s Hok) as (Hp & Hh & _).
  unfold timers_ok. rewrite Hp, Hh. reflexivity.
Qed.

Lemma same_timers_ok (s s' : State) : same_timers s s' -> timers_ok s -> timers_ok s'.
Proof. intros (Hp & Hh & _). unfold timers_ok. rewrite Hp, Hh. exact id. Qed.

Lemma connect_begin_timers (s : State) : same_timers s (connect_begin s).
Proof. unfold connect_begin. destruct (connected s); repeat split. Qed.

Lemma connect_settle_ok (o : connect_outcome) (s : State) :
  timers_ok s -> timers_ok (fst (connect_settle o s)).
Proof.
  intros Hok. unfold connect_settle. destruct (connecting s); [exact Hok|].
  destruct o; cbn [fst]; [exact Hok|].
  apply handleReconnect_ok. exact Hok.
Qed.

Lemma handleDisconnect_ok (s : State) :
  timers_ok s -> timers_ok (handleDisconnect s).
Proof.
  intros Hok. unfold handleDisconnect. destruct (connected s); simpl; [|exact Hok].
  apply handleReconnect_ok. exact Hok.
Qed.

(** As soon as [disconnect] is called no timer is armed. *)
Lemma disconnect_begin_pending (s : State) :
  timers_ok s ->
  pending (fst (disconnect_begin s)) = []
  /\ reconnectTimeout (fst (disconnect_begin s)) = None.
Proof.
  unfold timers_ok, disconnect_begin. intros Hok.
  destruct (reconnectTimeout s) as [h|] eqn:Hh; simpl in *.
  - apply pending_singleton_of_ids in Hok as (t & Hp & Ht).
    rewrite Hp, (clear_only_timer t h Ht).
    destruct (connected s), (client s); simpl; split; reflexivity.
  - apply fmap_nil_inv in Hok.
    destruct (connected s), (client s); simpl; rewrite ?Hok, ?Hh; split; reflexivity.
Qed.

Lemma disconnect_settle_timers (o : disconnect_outcome) (s : State) :
  same_timers s (fst (disconnect_settle o s)).
Proof.
  unfold disconnect_settle. destruct (disconnecting s); [repeat split|].
  destruct o; repeat split.
Qed.

Lemma timer_fires_ok (s : State) : timers_ok s -> timers_ok (timer_fires s).
Proof.
  intros Hok. unfold timer_fires.
  destruct (pending s) as [|t rest] eqn:Hp; [exact Hok|].
  assert (Hrest : rest = []).
  { unfold timers_ok in Hok. rewrite Hp in Hok.
    destruct (reconnectTimeout s); simpl in Hok; [|discriminate].
    injection Hok as _ Hr. apply fmap_nil_inv in Hr. exact Hr. }
  subst rest.
  match goal with |- timers_ok (if _ then connect_begin ?x else _) =>
    assert (Hx : timers_ok x) by reflexivity;
    destruct (negb (connected x)); [|exact Hx];
    apply (same_timers_ok x); [apply connect_begin_timers | exact Hx]
  end.
Qed.

Lemma step_ok (s : State) (e : event) : timers_ok s -> timers_ok (step s e).
Proof.
  intros Hok. destruct e; simpl.
  - apply (same_timers_ok s); [apply connect_begin_timers | exact Hok].
  - apply connect_settle_ok, Hok.
  - apply handleDisconnect_ok, Hok.
  - destruct (disconnect_begin_pending s Hok) as [Hp Hh].
    unfold timers_ok. rewrite Hp, Hh. reflexivity.
  - apply (same_timers_ok s); [apply disconnect_settle_timers | exact Hok].
  - apply timer_fires_ok, Hok.
Qed.

Lemma run_ok (evs : list event) (s : State) : timers_ok s -> timers_ok (run evs s).
Proof.
  revert s. induction evs as [|e evs IH]; intros s Hok; simpl; [exact Hok|].
  apply IH, step_ok, Hok.
Qed.

Lemma init_ok : timers_ok init.
Proof. reflexivity. Qed.


(** [disconnect] as a whole. *)
Lemma disconnect_pending (o : disconnect_outcome) (s : State) :
  timers_ok s ->
  pending (fst (disconnect o s)) = [] /\ reconnectTimeout (fst (disconnect o s)) = None.
Proof.
  intros Hok. unfold disconnect.
  destruct (disconnect_begin_pending s Hok) as [Hp Hh].
  destruct (disconnect_begin s) as [s1 [|]]; cbn [fst] in *; [|split; assumption].
  destruct (disconnect_settle_timers o s1) as (Hp' & Hh' & _).
  rewrite Hp', Hh'. split; assumption.
Qed.

Lemma disconnect_ok (o : disconnect_outcome) (s : State) :
  timers_ok s -> timers_ok (fst (disconnect o s)).
Proof.
  intros Hok. destruct (disconnect_pending o s Hok) as [Hp Hh].
  unfold timers_ok. rewrite Hp, Hh. reflexivity.
Qed.

Lemma disconnect_attempts (o : disconnect_outcome) (s : State) :
  connectionAttempts (fst (disconnect o s)) = connectionAttempts s.
Proof.
  unfold disconnect, disconnect_begin, disconnect_settle.
  destruct (reconnectTimeout s); simpl;
    destruct (connected s), (client s), o; reflexivity.
Qed.


(** ** The attempt counter *)

Lemma connect_begin_counter (s : State) : counter_ok s -> counter_ok (connect_begin s).
Proof.
  unfold counter_ok, connect_begin. intros Hc.
  destruct (connected s) eqn:Hs; [rewrite Hs; exact Hc|].
  cbn. discriminate.
Qed.

Lemma connect_settle_counter (o : connect_outcome) (s : State) :
  counter_ok s -> counter_ok (fst (connect_settle o s)).
Proof.
  unfold counter_ok, connect_settle. intros Hc.
  destruct (connecting s); [exact Hc|].
  destruct o; cbn [fst]; [reflexivity|].
  destruct (handleReconnect_frame
              (backoff (connectionAttempts
                 (set_conn None false
                    (connectionAttempts (set_suspended n (disconnecting s) s))
                    (set_suspended n (disconnecting s) s))))
              (set_conn None false
                 (connectionAttempts (set_suspended n (disconnecting s) s))
                 (set_suspended n (disconnecting s) s))) as [-> _].
  discriminate.
Qed.

Lemma handleDisconnect_counter (s : State) : counter_ok (handleDisconnect s).
Proof.
  unfold counter_ok, handleDisconnect.
  destruct (connected s) eqn:Hs; cbn [negb]; [|rewrite Hs; discriminate].
  destruct (handleReconnect_frame (backoff (connectionAttempts
              (set_conn None false (S (connectionAttempts s)) s)))
              (set_conn None false (S (connectionAttempts s)) s)) as [-> _].
  discriminate.
Qed.

Lemma disconnect_begin_counter (s : State) :
  counter_ok s -> counter_ok (fst (disconnect_begin s)).
Proof.
  unfold counter_ok, disconnect_begin. intros Hc.
  destruct (reconnectTimeout s); simpl;
    destruct (connected s) eqn:Hs, (client s); simpl;
    rewrite ?Hs; try discriminate; exact Hc.
Qed.

Lemma disconnect_settle_counter (o : disconnect_outcome) (s : State) :
  counter_ok s -> counter_ok (fst (disconnect_settle o s)).
Proof.
  unfold counter_ok, disconnect_settle. intros Hc.
  destruct (disconnecting s); [exact Hc|]. destruct o; discriminate.
Qed.

Lemma timer_fires_counter (s : State) : counter_ok s -> counter_ok (timer_fires s).
Proof.
  intros Hc. unfold timer_fires. destruct (pending s); [exact Hc|].
  match goal with |- counter_ok (if _ then connect_begin ?x else _) =>
    assert (Hx : counter_ok x) by exact Hc;
    destruct (negb (connected x)); [apply connect_begin_counter|]; exact Hx
  end.
Qed.

Lemma run_counter (evs : list event) (s : State) :
  counter_ok s -> counter_ok (run evs s).
Proof.
  revert s. induction evs as [|e evs IH]; intros s Hc; simpl; [exact Hc|].
  apply IH. destruct e; simpl.
  - apply connect_begin_counter, Hc.
  - apply connect_settle_counter, Hc.
  - apply handleDisconnect_counter.
  - apply disconnect_begin_counter, Hc.
  - apply disconnect_settle_counter, Hc.
  - apply timer_fires_counter, Hc.
Qed.

(** ** Connection failures *)

(** A connect attempt that rejects: the retry is the only armed timer,
    its delay comes from the counter as it stands. *)
Lemma connect_rejects_effect (s : State) (n : nat) :
  timers_ok s -> connecting s = S n ->
  timers_ok (fst (connect_settle ConnectFails s))
  /\ connected (fst (connect_settle ConnectFails s)) = false
  /\ connectionAttempts (fst (connect_settle ConnectFails s)) = connectionAttempts s
  /\ pending (fst (connect_settle ConnectFails s))
     = [ {| timer_id := next_timer s; timer_delay := backoff (connectionAttempts s) |} ]
  /\ next_timer (fst (connect_settle ConnectFails s)) = S (next_timer s).
Proof.
  intros Hok Hn. unfold connect_settle. rewrite Hn. cbn [fst].
  match goal with |- context [handleReconnect ?d ?x] =>
    assert (H2 : timers_ok x) by exact Hok;
    destruct (handleReconnect_pending d x H2) as (Hp & _ & Hnt);
    destruct (handleReconnect_frame d x) as (Hc & Ha & _);
    split; [apply handleReconnect_ok, H2|];
    rewrite Hp, Hnt, Hc, Ha
  end.
  repeat split.
Qed.

Lemma connect_begin_effect (s : State) :
  connected s = false ->
  connected (connect_begin s) = false
  /\ connectionAttempts (connect_begin s) = S (connectionAttempts s)
  /\ connecting (connect_begin s) = S (connecting s).
Proof. intros Hs. unfold connect_begin. rewrite Hs. repeat split. Qed.

(** One connection failure: the counter goes up by one and the only armed
    timer is the retry just scheduled. *)
Lemma failure_effect (s s' : State) :
  timers_ok s -> failure s s' ->
  timers_ok s' /\ connected s' = false
  /\ connectionAttempts s' = S (connectionAttempts s)
  /\ pending s' = [ {| timer_id := next_timer s;
                       timer_delay := backoff (S (connectionAttempts s)) |} ]
  /\ next_timer s' = S (next_timer s).
Proof.
  intros Hok Hf. destruct Hf as [s Hs|s Hs Hp0|s Hs].
  - unfold connect. rewrite Hs.
    destruct (connect_begin_effect s Hs) as (_ & Ha & Hn).
    destruct (connect_begin_timers s) as (Hp & Hh & Hnt).
    destruct (connect_rejects_effect (connect_begin s) (connecting s)) as (H1 & H2 & H3 & H4 & H5);
      [apply (same_timers_ok s); [apply connect_begin_timers | exact Hok] | exact Hn |].
    rewrite H3, H4, H5, Ha, Hnt. repeat split; assumption.
  - assert (Hfire : exists s1, timer_fires s = connect_begin s1
                               /\ timers_ok s1 /\ connected s1 = false
                               /\ connectionAttempts s1 = connectionAttempts s
                               /\ next_timer s1 = next_timer s).
    { unfold timer_fires. destruct (pending s) as [|t rest] eqn:Hpend; [contradiction|].
      assert (Hrest : rest = []).
      { unfold timers_ok in Hok. rewrite Hpend in Hok.
        destruct (reconnectTimeout s); simpl in Hok; [|discriminate].
        injection Hok as _ Hr. apply fmap_nil_inv in Hr. exact Hr. }
      subst rest. exists (set_timer None [] (next_timer s) s).
      cbn [connected set_timer]. rewrite Hs. repeat split; try assumption. }
    destruct Hfire as (s1 & -> & Hok1 & Hs1 & Ha1 & Hn1).
    destruct (connect_begin_effect s1 Hs1) as (_ & Ha & Hn).
    destruct (connect_begin_timers s1) as (Hp & Hh & Hnt).
    destruct (connect_rejects_effect (connect_begin s1) (connecting s1))
      as (H1 & H2 & H3 & H4 & H5);
      [apply (same_timers_ok s1); [apply connect_begin_timers | exact Hok1] | exact Hn |].
    rewrite H3, H4, H5, Ha, Hnt, Ha1, Hn1. repeat split; assumption.
  - unfold transport_error, handleDisconnect. rewrite Hs. cbn [negb].
    match goal with |- context [handleReconnect ?d ?x] =>
      assert (H2 : timers_ok x) by exact Hok;
      destruct (handleReconnect_pending d x H2) as (Hp & _ & Hnt);
      destruct (handleReconnect_frame d x) as (Hc & Ha & _);
      split; [apply handleReconnect_ok, H2|];
      rewrite Hp, Hnt, Hc, Ha
    end.
    repeat split.
Qed.

(** ** Failures in a row *)

Lemma count_run (evs : list event) (k : nat) (s : State) :
  snd (foldl count_step (k, s) evs) = run evs s.
Proof.
  revert k s. induction evs as [|e evs IH]; intros k s; [reflexivity|].
  cbn [foldl]. unfold count_step at 2. cbn [fst snd]. rewrite IH. reflexivity.
Qed.

Lemma serial_run (evs : list event) (b : bool) (s : State) :
  snd (foldl serial_step (b, s) evs) = run evs s.
Proof.
  revert b s. induction evs as [|e evs IH]; intros b s; [reflexivity|].
  cbn [foldl]. unfold serial_step at 2. cbn [fst snd]. rewrite IH. reflexivity.
Qed.

Lemma failures_in_a_row_snoc (evs : list event) (e : event) :
  failures_in_a_row (evs ++ [e])
  = if succeeds (run evs init) e then 0
    else if fails (run evs init) e then S (failures_in_a_row evs)
         else failures_in_a_row evs.
Proof.
  unfold failures_in_a_row. rewrite foldl_app. cbn [foldl]. unfold count_step at 1.
  cbn [fst]. rewrite count_run. reflexivity.
Qed.

Lemma serial_snoc (evs : list event) (e : event) :
  serial (evs ++ [e]) = serial evs && Nat.leb (connecting (run (evs ++ [e]) init)) 1.
Proof.
  unfold serial, run. rewrite !foldl_app. cbn [foldl]. unfold serial_step at 1.
  cbn [fst]. rewrite serial_run. reflexivity.
Qed.

Lemma run_snoc (evs : list event) (e : event) (s : State) :
  run (evs ++ [e]) s = step (run evs s) e.
Proof. unfold run. rewrite foldl_app. reflexivity. Qed.

Lemma backoff_bounds (n : nat) : (500 <= backoff n <= 30000)%Z.
Proof.
  destruct n as [|n]; [cbn; lia|]. unfold backoff.
  assert (0 < 2 ^ (Z.of_nat (S n) - 1))%Z by (apply Z.pow_pos_nonneg; lia).
  lia.
Qed.

Lemma delays_filter (Q : Timer -> Prop) `{forall t, Decision (Q t)} (l : list Timer) :
  Forall (λ t, (500 <= timer_delay t <= 30000)%Z) l ->
  Forall (λ t, (500 <= timer_delay t <= 30000)%Z) (filter Q l).
Proof.
  induction 1 as [|t l Ht Hl IH]; [constructor|].
  rewrite filter_cons. destruct (decide (Q t)); [constructor; assumption|assumption].
Qed.

Lemma handleReconnect_delays (d : Z) (s : State) :
  (500 <= d <= 30000)%Z -> delays_ok s -> delays_ok (handleReconnect d s).
Proof.
  intros Hd Hok. unfold delays_ok, handleReconnect.
  destruct (reconnectTimeout s); cbn.
  - apply Forall_app. split; [|apply Forall_singleton; exact Hd].
    apply delays_filter. exact Hok.
  - apply Forall_app. split; [exact Hok|apply Forall_singleton; exact Hd].
Qed.

Lemma step_delays (s : State) (e : event) : delays_ok s -> delays_ok (step s e).
Proof.
  intros Hok. destruct e as [|o| | |o|]; cbn [step].
  - unfold connect_begin. destruct (connected s); exact Hok.
  - unfold connect_settle. destruct (connecting s); [exact Hok|].
    destruct o; cbn [fst]; [exact Hok|].
    apply handleReconnect_delays; [apply backoff_bounds|exact Hok].
  - unfold transport_error, handleDisconnect. destruct (connected s); cbn [negb];
      [|exact Hok].
    apply handleReconnect_delays; [apply backoff_bounds|exact Hok].
  - unfold disconnect_begin.
    assert (H1 : delays_ok match reconnectTimeout s with
                           | Some h => let c := clearTimeout h s in
                                       set_timer None (pending c) (next_timer c) c
                           | None => s
                           end).
    { destruct (reconnectTimeout s); [|exact Hok]. unfold delays_ok. cbn.
      apply delays_filter. exact Hok. }
    destruct (negb _ || negb _); exact H1.
  - unfold disconnect_settle. destruct (disconnecting s); [exact Hok|].
    destruct o; exact Hok.
  - unfold timer_fires. destruct (pending s) as [|t rest] eqn:Hp; [exact Hok|].
    assert (H1 : delays_ok (set_timer None rest (next_timer s) s)).
    { unfold delays_ok in *. rewrite Hp in Hok. cbn. apply Forall_inv_tail in Hok.
      exact Hok. }
    destruct (negb (connected (set_timer None rest (next_timer s) s))); [|exact H1].
    unfold connect_begin. destruct (connected _); exact H1.
Qed.

Lemma run_delays (evs : list event) (s : State) : delays_ok s -> delays_ok (run evs s).
Proof.
  revert s. induction evs as [|e evs IH]; intros s Hs; [exact Hs|].
  apply IH, step_delays, Hs.
Qed.

(** One event of a run without overlapping attempts. *)
Lemma serial_step_effect (k : nat) (s : State) (e : event) :
  attempts_ok k s -> counter_ok s -> timers_ok s ->
  connecting (step s e) <= 1 ->
  attempts_ok (fst (count_step (k, s) e)) (step s e)
  /\ (fails s e = true ->
      fst (count_step (k, s) e) = S k
      /\ scheduled_delays (step s e) = [backoff (S k)]).
Proof.
  intros (Ha & Hc & Hcon) Hcnt Hok Hser. unfold count_step. cbn [fst snd].
  destruct e as [|o| | |o|]; cbn [step succeeds fails] in *.
  - (* connect called *)
    split; [|discriminate]. revert Hser. unfold attempts_ok, connect_begin.
    destruct (connected s) eqn:Hs.
    + intros _. split; [exact Ha|split; [exact Hc|intros _; exact (Hcon eq_refl)]].
    + cbn. intros Hser. split; [lia|split; [lia|discriminate]].
  - (* a connect attempt settles *)
    destruct (connecting s) as [|n] eqn:Hn.
    + assert (Hsame : fst (connect_settle o s) = s)
        by (unfold connect_settle; rewrite Hn; reflexivity).
      rewrite Hsame. destruct o; cbn [Nat.eqb negb]; (split; [|discriminate]);
        (split; [lia|split; [lia|intros _; exact Hn]]).
    + assert (n = 0) by lia. subst n. destruct o; cbn [Nat.eqb negb].
      * split; [|discriminate]. unfold connect_settle. rewrite Hn. cbn.
        unfold attempts_ok. cbn. split; [reflexivity|split; [lia|reflexivity]].
      * destruct (connect_rejects_effect s 0 Hok Hn) as (_ & Hcd & Hat & Hp & _).
        assert (Hz : connecting (fst (connect_settle ConnectFails s)) = 0).
        { unfold connect_settle. rewrite Hn. cbn [fst].
          unfold handleReconnect. destruct (reconnectTimeout _); reflexivity. }
        split.
        { unfold attempts_ok. rewrite Hat, Hcd, Hz.
          split; [lia|split; [lia|discriminate]]. }
        intros _. split; [reflexivity|]. unfold scheduled_delays. rewrite Hp. cbn.
        replace (connectionAttempts s) with (S k) by lia. reflexivity.
  - (* transport error *)
    revert Hser. unfold transport_error, handleDisconnect.
    destruct (connected s) eqn:Hs; cbn [negb]; intros Hser.
    + specialize (Hcon eq_refl). specialize (Hcnt Hs).
      assert (k = 0) by lia. subst k.
      match goal with |- context [handleReconnect ?d ?x] =>
        assert (H2 : timers_ok x) by exact Hok;
        destruct (handleReconnect_pending d x H2) as (Hp & _ & _);
        destruct (handleReconnect_frame d x) as (Hc' & Ha' & _);
        assert (Hz : connecting (handleReconnect d x) = connecting s)
          by (unfold handleReconnect; destruct (reconnectTimeout x); reflexivity)
      end.
      split.
      * unfold attempts_ok. rewrite Ha', Hc', Hz. cbn.
        split; [lia|split; [lia|discriminate]].
      * intros _. split; [reflexivity|]. unfold scheduled_delays. rewrite Hp. cbn.
        rewrite Hcnt. reflexivity.
    + split; [|discriminate]. split; [exact Ha|split; [exact Hc|]].
      rewrite Hs. discriminate.
  - (* disconnect called *)
    split; [|discriminate]. unfold attempts_ok, disconnect_begin.
    destruct (reconnectTimeout s); cbn;
      destruct (negb (connected s) || negb (bool_decide (is_Some (client s))));
      cbn; (split; [exact Ha|split; [exact Hc|exact Hcon]]).
  - (* a disconnect settles *)
    split; [|discriminate]. unfold attempts_ok, disconnect_settle.
    destruct (disconnecting s); [split; [exact Ha|split; [exact Hc|exact Hcon]]|].
    destruct o; cbn; (split; [exact Ha|split; [exact Hc|discriminate]]).
  - (* the timer fires *)
    split; [|discriminate]. revert Hser. unfold attempts_ok, timer_fires.
    destruct (pending s) as [|t rest];
      [intros _; split; [exact Ha|split; [exact Hc|exact Hcon]]|].
    cbn [connected set_timer]. destruct (connected s) eqn:Hs; cbn [negb].
    + cbn. intros _. split; [exact Ha|split; [exact Hc|intros _; exact (Hcon eq_refl)]].
    + unfold connect_begin. cbn [connected set_timer]. rewrite Hs. cbn.
      intros Hser. split; [lia|split; [lia|discriminate]].
Qed.

(** The invariant of the runs without overlapping attempts. *)
Lemma serial_run_attempts (evs : list event) :
  serial evs = true -> attempts_ok (failures_in_a_row evs) (run evs init).
Proof.
  induction evs as [|e evs IH] using rev_ind.
  - intros _. split; [reflexivity|split; [cbn; lia|discriminate]].
  - rewrite serial_snoc. intros Hs. apply andb_true_iff in Hs as [Hs Hle].
    apply Nat.leb_le in Hle. rewrite run_snoc in Hle |- *.
    destruct (serial_step_effect (failures_in_a_row evs) (run evs init) e (IH Hs)
                (run_counter evs init ltac:(intros Hx; discriminate))
                (run_ok evs init init_ok) Hle) as [Hinv _].
    rewrite failures_in_a_row_snoc. exact Hinv.
Qed.

(** C4 (with the condition it needs).  In a run of the listener in
    which no connect attempt begins while another is under way, a
    connection failure (a
    connect attempt that rejects, or a transport error while connected)
    that is the [K]-th in a row since the last successful connect leaves
    exactly one retry armed, with delay [min(1000 * 2^(K-1), 30000)] ms,
    and the counter stands at [K].  In every run, overlapping or not, no
    armed retry waits longer than 30000 ms, and a connect that succeeds
    sets the attempt counter to zero. *)
Theorem backoff_after_serial_failures (evs : list event) (e : event) :
  serial (evs ++ [e]) = true ->
  fails (run evs init) e = true ->
  1 <= failures_in_a_row (evs ++ [e])
  /\ scheduled_delays (run (evs ++ [e]) init)
     = [Z.min (1000 * 2 ^ (Z.of_nat (failures_in_a_row (evs ++ [e])) - 1)) 30000]
  /\ connectionAttempts (run (evs ++ [e]) init) = failures_in_a_row (evs ++ [e])
  /\ (forall evs' d, d ∈ scheduled_delays (run evs' init) -> (d <= 30000)%Z)
  /\ (forall evs' e',
        succeeds (run evs' init) e' = true ->
        connectionAttempts (run (evs' ++ [e']) init) = 0
        /\ failures_in_a_row (evs' ++ [e']) = 0).
Proof.
  intros Hser Hf.
  assert (Hs := Hser). rewrite serial_snoc in Hs. apply andb_true_iff in Hs as [Hs Hle].
  apply Nat.leb_le in Hle. rewrite run_snoc in Hle.
  destruct (serial_step_effect (failures_in_a_row evs) (run evs init) e
              (serial_run_attempts evs Hs)
              (run_counter evs init ltac:(intros Hx; discriminate))
              (run_ok evs init init_ok) Hle) as [_ Heff].
  destruct (Heff Hf) as [Hk Hd].
  assert (HK : failures_in_a_row (evs ++ [e]) = S (failures_in_a_row evs)).
  { rewrite failures_in_a_row_snoc, Hf.
    destruct (succeeds (run evs init) e) eqn:Hsu; [|reflexivity].
    destruct e as [|[]| | |o|]; cbn in Hsu, Hf; discriminate. }
  destruct (serial_run_attempts (evs ++ [e]) Hser) as (Ha & _ & _).
  split; [lia|]. split.
  { rewrite run_snoc, Hd, HK. rewrite (backoff_formula (S (failures_in_a_row evs)));
      [reflexivity|lia]. }
  split.
  { rewrite Ha, HK.
    assert (Hz : connecting (run (evs ++ [e]) init) = 0).
    { rewrite run_snoc. destruct e as [|[]| | |o|]; cbn in Hf; try discriminate.
      - cbn [step]. unfold connect_settle.
        destruct (connecting (run evs init)) as [|n] eqn:Hn; [discriminate|].
        cbn [fst]. unfold handleReconnect.
        destruct (serial_run_attempts evs Hs) as (_ & H1 & _). rewrite Hn in H1.
        assert (n = 0) by lia. subst n. destruct (reconnectTimeout _); reflexivity.
      - cbn [step]. unfold transport_error, handleDisconnect. rewrite Hf. cbn [negb].
        destruct (serial_run_attempts evs Hs) as (_ & _ & H1).
        unfold handleReconnect. destruct (reconnectTimeout _); cbn; exact (H1 Hf). }
    lia. }
  split.
  { intros evs' d Hin. unfold scheduled_delays in Hin.
    apply list_elem_of_fmap_1 in Hin as (t & -> & Hin).
    assert (Hall : delays_ok (run evs' init)) by (apply run_delays; constructor).
    unfold delays_ok in Hall. rewrite Forall_forall in Hall. apply Hall in Hin. lia. }
  intros evs' e' Hsu. rewrite failures_in_a_row_snoc, Hsu. split; [|reflexivity].
  rewrite run_snoc. destruct e' as [|[]| | |o|]; cbn in Hsu; try discriminate.
  cbn [step]. unfold connect_settle.
  destruct (connecting (run evs' init)); [discriminate|]. reflexivity.
Qed.

Lemma backoff_after_serial_failures_witness :
  scheduled_delays
    (run ([CallConnect; ConnectSettles ConnectOk; TransportError; TimerFires;
           ConnectSettles ConnectFails; CallDisconnect; CallConnect]
          ++ [ConnectSettles ConnectFails]) init)
  = [Z.min (1000 * 2 ^ (Z.of_nat
       (failures_in_a_row
          ([CallConnect; ConnectSettles ConnectOk; TransportError; TimerFires;
            ConnectSettles ConnectFails; CallDisconnect; CallConnect]
           ++ [ConnectSettles ConnectFails])) - 1)) 30000]
  /\ failures_in_a_row
       ([CallConnect; ConnectSettles ConnectOk; TransportError; TimerFires;
         ConnectSettles ConnectFails; CallDisconnect; CallConnect]
        ++ [ConnectSettles ConnectFails]) = 3.
Proof.
  destruct (backoff_after_serial_failures
              [CallConnect; ConnectSettles ConnectOk; TransportError; TimerFires;
               ConnectSettles ConnectFails; CallDisconnect; CallConnect]
              (ConnectSettles ConnectFails)) as (_ & Hd & _).
  - reflexivity.
  - reflexivity.
  - split; [exact Hd|reflexivity].
Defined.

(** C4 (without that condition it fails).  When connect attempts
    overlap, the counter counts the attempts begun, not the failures.  After two
    attempts were begun and the first has rejected, one failure in a row
    has happened and the retry waits 2000 ms, not 1000 ms.  After two
    attempts were begun, one has resolved and the other then rejects, one
    failure has happened since the success and the retry waits 500 ms.  So
    the delay after [K] failures in a row is not always
    [min(1000 * 2^(K-1), 30000)]. *)
Lemma overlapping_attempts_break_the_backoff :
  failures_in_a_row [CallConnect; CallConnect; ConnectSettles ConnectFails] = 1
  /\ scheduled_delays (run [CallConnect; CallConnect; ConnectSettles ConnectFails] init)
     = [2000%Z]
  /\ failures_in_a_row
       [CallConnect; CallConnect; ConnectSettles ConnectOk; ConnectSettles ConnectFails] = 1
  /\ scheduled_delays
       (run [CallConnect; CallConnect; ConnectSettles ConnectOk; ConnectSettles ConnectFails]
            init)
     = [500%Z]
  /\ ~ (forall evs e,
          fails (run evs init) e = true ->
          scheduled_delays (run (evs ++ [e]) init)
          = [Z.min (1000 * 2 ^ (Z.of_nat (failures_in_a_row (evs ++ [e])) - 1)) 30000]).
Proof.
  split; [reflexivity|]. split; [reflexivity|]. split; [reflexivity|].
  split; [reflexivity|].
  intros Hall.
  specialize (Hall [CallConnect; CallConnect] (ConnectSettles ConnectFails) eq_refl).
  vm_compute in Hall. discriminate.
Qed.



(** ** What a connection, a disconnection and the timer leave behind *)

(** X1.  In every state the listener can reach, no failure is counted
    while it is connected: the attempt counter is 0.  So the first
    transport error on any connection, however many failures came before
    it was made, schedules the retry after 1000 ms and counts one
    attempt. *)
Theorem connected_listener_has_counted_no_failure (evs : list event) :
  connected (run evs init) = true ->
  connectionAttempts (run evs init) = 0
  /\ scheduled_delays (transport_error (run evs init)) = [1000%Z]
  /\ connectionAttempts (transport_error (run evs init)) = 1
  /\ connected (transport_error (run evs init)) = false.
Proof.
  intros Hc.
  pose proof (run_counter evs init ltac:(discriminate) Hc) as Ha.
  destruct (failure_effect (run evs init) (transport_error (run evs init))
              (run_ok evs init init_ok) (failure_transport _ Hc))
    as (_ & Hc' & Ha' & Hp' & _).
  split; [exact Ha|]. unfold scheduled_delays. rewrite Hp', Ha', Ha.
  repeat split. exact Hc'.
Qed.

Lemma connected_listener_has_counted_no_failure_witness :
  connectionAttempts
    (run [CallConnect; ConnectSettles ConnectFails; TimerFires; ConnectSettles ConnectOk]
         init) = 0
  /\ scheduled_delays
       (transport_error
          (run [CallConnect; ConnectSettles ConnectFails; TimerFires;
                ConnectSettles ConnectOk] init))
     = [1000%Z].
Proof.
  destruct (connected_listener_has_counted_no_failure
              [CallConnect; ConnectSettles ConnectFails; TimerFires;
               ConnectSettles ConnectOk])
    as (Ha & Hd & _).
  - reflexivity.
  - split; [exact Ha|exact Hd].
Defined.

(** X2.  A connect that succeeds does not cancel a retry that is armed:
    neither the call nor its settlement touches the timers.  When the
    retry then fires on the connected listener, it only resets the handle:
    no client is made, no attempt is counted, and no timer is left. *)
Theorem retry_timer_outlives_a_successful_connect (evs : list event) :
  same_timers (run evs init) (connect_begin (run evs init))
  /\ same_timers (run evs init) (fst (connect_settle ConnectOk (run evs init)))
  /\ (connected (run evs init) = true ->
      pending (timer_fires (run evs init)) = []
      /\ reconnectTimeout (timer_fires (run evs init)) = None
      /\ connected (timer_fires (run evs init)) = true
      /\ client (timer_fires (run evs init)) = client (run evs init)
      /\ connectionAttempts (timer_fires (run evs init))
         = connectionAttempts (run evs init)
      /\ connecting (timer_fires (run evs init)) = connecting (run evs init)
      /\ next_client (timer_fires (run evs init)) = next_client (run evs init)).
Proof.
  pose proof (run_ok evs init init_ok) as Hok.
  generalize dependent (run evs init). intros s Hok.
  split; [apply connect_begin_timers|]. split.
  { unfold connect_settle. destruct (connecting s); repeat split. }
  intros Hc. unfold timer_fires.
  destruct (pending s) as [|t rest] eqn:Hp.
  - unfold timers_ok in Hok. rewrite Hp in Hok.
    destruct (reconnectTimeout s); [discriminate|]. repeat split; assumption.
  - assert (Hrest : rest = []).
    { unfold timers_ok in Hok. rewrite Hp in Hok.
      destruct (reconnectTimeout s); simpl in Hok; [|discriminate].
      injection Hok as _ Hr. apply fmap_nil_inv in Hr. exact Hr. }
    subst rest. cbn [connected set_timer]. rewrite Hc. cbn [negb].
    repeat split. exact Hc.
Qed.

Lemma retry_timer_outlives_a_successful_connect_witness :
  length (pending (run [CallConnect; ConnectSettles ConnectFails; CallConnect;
                        ConnectSettles ConnectOk] init)) = 1
  /\ pending (timer_fires (run [CallConnect; ConnectSettles ConnectFails; CallConnect;
                                ConnectSettles ConnectOk] init)) = []
  /\ connectionAttempts
       (timer_fires (run [CallConnect; ConnectSettles ConnectFails; CallConnect;
                          ConnectSettles ConnectOk] init))
     = connectionAttempts (run [CallConnect; ConnectSettles ConnectFails; CallConnect;
                                ConnectSettles ConnectOk] init).
Proof.
  destruct (retry_timer_outlives_a_successful_connect
              [CallConnect; ConnectSettles ConnectFails; CallConnect;
               ConnectSettles ConnectOk])
    as (_ & _ & H).
  destruct H as (Hp & _ & _ & _ & Ha & _); [reflexivity|].
  split; [reflexivity|]. split; [exact Hp|exact Ha].
Defined.

(** X3.  [disconnect] does not reach a connect attempt that is under
    way.  Called on a listener that is not connected while an attempt is
    suspended, it returns normally at once and leaves the attempt and its
    client alone; when the attempt then settles, the listener is connected
    if it resolved, and has a retry armed if it rejected. *)
Theorem disconnect_leaves_a_connect_under_way (evs : list event)
    (o : disconnect_outcome) :
  connected (run evs init) = false -> connecting (run evs init) <> 0 ->
  snd (disconnect o (run evs init)) = Returned tt
  /\ connecting (fst (disconnect o (run evs init))) = connecting (run evs init)
  /\ client (fst (disconnect o (run evs init))) = client (run evs init)
  /\ connected (fst (connect_settle ConnectOk (fst (disconnect o (run evs init))))) = true
  /\ length (pending (fst (connect_settle ConnectFails
                             (fst (disconnect o (run evs init)))))) = 1.
Proof.
  pose proof (run_ok evs init init_ok) as Hok.
  generalize dependent (run evs init). intros s Hok Hc Hn.
  pose proof (disconnect_ok o s Hok) as Hok1.
  assert (Hd : disconnect o s = (fst (disconnect_begin s), Returned tt)
               /\ connecting (fst (disconnect_begin s)) = connecting s
               /\ client (fst (disconnect_begin s)) = client s).
  { unfold disconnect, disconnect_begin.
    destruct (reconnectTimeout s); cbn [connected set_timer clearTimeout];
      rewrite Hc; cbn; repeat split. }
  destruct Hd as (Hd & Hn1 & Hcl1). rewrite Hd in Hok1 |- *. cbn [fst snd] in *.
  split; [reflexivity|]. split; [exact Hn1|]. split; [exact Hcl1|].
  destruct (connecting s) as [|n] eqn:Hcs; [contradiction|].
  split.
  - unfold connect_settle. rewrite Hn1. reflexivity.
  - destruct (connect_rejects_effect (fst (disconnect_begin s)) n Hok1 Hn1)
      as (_ & _ & _ & Hp & _).
    rewrite Hp. reflexivity.
Qed.

Lemma disconnect_leaves_a_connect_under_way_witness :
  snd (disconnect DisconnectOk (run [CallConnect] init)) = Returned tt
  /\ connected (fst (connect_settle ConnectOk
                       (fst (disconnect DisconnectOk (run [CallConnect] init))))) = true
  /\ length (pending (fst (connect_settle ConnectFails
                             (fst (disconnect DisconnectOk (run [CallConnect] init))))))
     = 1.
Proof.
  destruct (disconnect_leaves_a_connect_under_way [CallConnect] DisconnectOk)
    as (Hr & _ & _ & Hc & Hp).
  - reflexivity.
  - discriminate.
  - split; [exact Hr|]. split; [exact Hc|exact Hp].
Defined.

(** X4.  [disconnect] on a connected listener that holds its client
    clears the armed timer and waits for [UNLISTEN] and [end].  When
    nothing happens to the listener meanwhile, it ends with the listener
    not connected, without client and without timer, whether the two
    calls resolve (it returns normally) or reject (it rethrows), and a
    transport error reported afterwards changes nothing.  When a transport
    error is reported while it waits, the listener also ends not connected
    and without client, but a retry is armed for 1000 ms and is still
    armed after [disconnect] has settled: when it fires, a connect attempt
    begins, and the listener is connected again if the attempt succeeds,
    although it was disconnected on purpose. *)
Theorem disconnect_takes_the_listener_down_unless_interrupted (evs : list event)
    (o : disconnect_outcome) :
  connected (run evs init) = true -> is_Some (client (run evs init)) ->
  snd (disconnect_begin (run evs init)) = true
  /\ pending (fst (disconnect_begin (run evs init))) = []
  /\ connected (fst (disconnect_settle o (fst (disconnect_begin (run evs init))))) = false
  /\ client (fst (disconnect_settle o (fst (disconnect_begin (run evs init))))) = None
  /\ pending (fst (disconnect_settle o (fst (disconnect_begin (run evs init))))) = []
  /\ snd (disconnect_settle o (fst (disconnect_begin (run evs init))))
     = match o with DisconnectOk => Returned tt | DisconnectFails => Threw tt end
  /\ transport_error (fst (disconnect_settle o (fst (disconnect_begin (run evs init)))))
     = fst (disconnect_settle o (fst (disconnect_begin (run evs init))))
  /\ connected (fst (disconnect_settle o
                       (transport_error (fst (disconnect_begin (run evs init)))))) = false
  /\ client (fst (disconnect_settle o
                    (transport_error (fst (disconnect_begin (run evs init)))))) = None
  /\ scheduled_delays (fst (disconnect_settle o
                              (transport_error (fst (disconnect_begin (run evs init))))))
     = [1000%Z]
  /\ connected (fst (connect_settle ConnectOk
                       (timer_fires
                          (fst (disconnect_settle o
                                  (transport_error
                                     (fst (disconnect_begin (run evs init))))))))) = true.
Proof.
  pose proof (run_ok evs init init_ok) as Hok.
  pose proof (run_counter evs init ltac:(intros Hx; discriminate)) as Hcnt.
  generalize dependent (run evs init). intros s Hok Hcnt Hc [c Hcl].
  specialize (Hcnt Hc).
  destruct (disconnect_begin_pending s Hok) as [Hp Hh].
  assert (Hb : exists s1,
            disconnect_begin s = (s1, true)
            /\ connected s1 = true /\ client s1 = Some c
            /\ connectionAttempts s1 = 0
            /\ disconnecting s1 = S (disconnecting s)).
  { unfold disconnect_begin.
    destruct (reconnectTimeout s); cbn [connected client set_timer clearTimeout];
      rewrite Hc, Hcl; cbn; eexists; (split; [reflexivity|]); cbn;
      repeat split; assumption. }
  destruct Hb as (s1 & Hb & Hc1 & Hcl1 & Ha1 & Hd1).
  rewrite Hb in Hp, Hh |- *. cbn [fst snd] in *.
  assert (Hok1 : timers_ok s1) by (unfold timers_ok; rewrite Hp, Hh; reflexivity).
  split; [reflexivity|]. split; [exact Hp|].
  assert (Hs : forall t, disconnecting t = S (disconnecting s) ->
                 connected (fst (disconnect_settle o t)) = false
                 /\ client (fst (disconnect_settle o t)) = None
                 /\ pending (fst (disconnect_settle o t)) = pending t
                 /\ connectionAttempts (fst (disconnect_settle o t)) = connectionAttempts t
                 /\ connecting (fst (disconnect_settle o t)) = connecting t
                 /\ snd (disconnect_settle o t)
                    = match o with DisconnectOk => Returned tt | DisconnectFails => Threw tt end).
  { intros t Ht. unfold disconnect_settle. rewrite Ht. destruct o; repeat split. }
  destruct (Hs s1 Hd1) as (H1 & H2 & H3 & _ & _ & H4).
  split; [exact H1|]. split; [exact H2|]. split; [rewrite H3; exact Hp|].
  split; [exact H4|].
  split; [unfold transport_error, handleDisconnect; rewrite H1; reflexivity|].
  assert (Ht : pending (transport_error s1)
               = [ {| timer_id := next_timer s1; timer_delay := 1000 |} ]
               /\ disconnecting (transport_error s1) = S (disconnecting s)).
  { unfold transport_error, handleDisconnect. rewrite Hc1. cbn [negb].
    match goal with |- context [handleReconnect ?d ?x] =>
      assert (Hx : timers_ok x) by exact Hok1;
      destruct (handleReconnect_pending d x Hx) as (Hpx & _ & _);
      rewrite Hpx;
      assert (Hdx : disconnecting (handleReconnect d x) = disconnecting s1)
        by (unfold handleReconnect; destruct (reconnectTimeout x); reflexivity);
      rewrite Hdx
    end.
    cbn. rewrite Ha1. split; [reflexivity|exact Hd1]. }
  destruct Ht as [Htp Htd].
  destruct (Hs (transport_error s1) Htd) as (H5 & H6 & H7 & _ & _ & _).
  split; [exact H5|]. split; [exact H6|].
  split; [unfold scheduled_delays; rewrite H7, Htp; reflexivity|].
  unfold timer_fires. rewrite H7, Htp. cbn [connected set_timer]. rewrite H5. cbn [negb].
  unfold connect_begin. cbn [connected set_timer]. rewrite H5.
  unfold connect_settle. cbn. reflexivity.
Qed.

Lemma disconnect_takes_the_listener_down_unless_interrupted_witness :
  pending (fst (disconnect_settle DisconnectFails
                  (fst (disconnect_begin
                          (run [CallConnect; ConnectSettles ConnectOk] init))))) = []
  /\ scheduled_delays
       (fst (disconnect_settle DisconnectFails
               (transport_error
                  (fst (disconnect_begin
                          (run [CallConnect; ConnectSettles ConnectOk] init))))))
     = [1000%Z].
Proof.
  destruct (disconnect_takes_the_listener_down_unless_interrupted
              [CallConnect; ConnectSettles ConnectOk] DisconnectFails)
    as (_ & _ & _ & _ & Hp & _ & _ & _ & _ & Hd & _).
  - reflexivity.
  - eexists. reflexivity.
  - split; [exact Hp|exact Hd].
Defined.

End ListenerSpec.

(* ================================================================== *)
(** * Properties of the PostgreSQL adapter                             *)
(* ================================================================== *)

Module AdapterSpec.
Import Adapter MonadFacts.

(** ** The table list *)

Lemma parse_base : parse_query base_query = Some [].
Proof. vm_compute. reflexivity. Qed.

Lemma parse_include :
  parse_query (base_query +:+ " AND table_name = ANY($2::text[])")
  = Some [NameAny (Placeholder 2)].
Proof. vm_compute. reflexivity. Qed.

Lemma parse_exclude :
  parse_query (base_query +:+ " AND table_name != ALL(" +:+ decimal 2 +:+ "::text[])")
  = Some [NameNotAll (IntegerLiteral 2)].
Proof. vm_compute. reflexivity. Qed.

Lemma parse_include_exclude :
  parse_query ((base_query +:+ " AND table_name = ANY($2::text[])")
               +:+ " AND table_name != ALL(" +:+ decimal 3 +:+ "::text[])")
  = Some [NameAny (Placeholder 2); NameNotAll (IntegerLiteral 3)].
Proof. vm_compute. reflexivity. Qed.

Example shop_users_only :
  getTableList Inputs.shop_catalog Inputs.include_users
  = Returned [ {| ref_schema := "public"; ref_name := "users" |} ].
Proof. vm_compute. reflexivity. Qed.

Example shop_public_tables :
  getTableList Inputs.shop_catalog Inputs.no_filter
  = Returned [ {| ref_schema := "public"; ref_name := "users" |};
               {| ref_schema := "public"; ref_name := "logs" |} ].
Proof. vm_compute. reflexivity. Qed.

(** Without an exclude list the query is well formed and resolves to the
    set the filter describes. *)
Lemma getTableList_without_exclude (catalog : list CatalogRow) (f : TableFilter) :
  present (exclude f) = false ->
  getTableList catalog f = Returned (resolved_by_filter catalog f).
Proof.
  destruct f as [inc exc sch]. cbn [exclude]. intros Hex.
  unfold getTableList, resolved_by_filter, table_list_query. cbn [include exclude schemas].
  rewrite Hex.
  destruct inc as [[|i inc]|]; cbn [present default]; unfold pg_table_query.
  - rewrite parse_base. cbn. f_equal. f_equal. apply List.filter_ext. intros r.
    rewrite !andb_true_r. reflexivity.
  - rewrite parse_include. cbn. f_equal. f_equal. apply List.filter_ext. intros r.
    rewrite !andb_true_r. reflexivity.
  - rewrite parse_base. cbn. f_equal. f_equal. apply List.filter_ext. intros r.
    rewrite !andb_true_r. reflexivity.
Qed.

(** C1 (the code departs from it).  Whenever the filter has a non-empty
    exclude list, the query text carries the bare number where the
    placeholder should be, the server rejects it, and [getTableList]
    throws: no table set is resolved, whatever the catalog. *)
Theorem getTableList_exclude_throws (catalog : list CatalogRow) (f : TableFilter) :
  present (exclude f) = true ->
  getTableList catalog f = Threw (PgError "cannot cast type integer to text[]").
Proof.
  destruct f as [inc exc sch]. cbn [exclude]. intros Hex.
  unfold getTableList, table_list_query. cbn [include exclude schemas].
  rewrite Hex.
  destruct (present inc); cbn [length Nat.add app]; unfold pg_table_query.
  - rewrite parse_include_exclude. reflexivity.
  - rewrite parse_exclude. reflexivity.
Qed.

Lemma getTableList_exclude_throws_witness :
  present (exclude Inputs.exclude_logs) = true
  /\ getTableList Inputs.shop_catalog Inputs.exclude_logs
     = Threw (PgError "cannot cast type integer to text[]")
  /\ resolved_by_filter Inputs.shop_catalog Inputs.exclude_logs
     = [ {| ref_schema := "public"; ref_name := "users" |} ].
Proof.
  split; [reflexivity|]. split.
  - apply (getTableList_exclude_throws Inputs.shop_catalog Inputs.exclude_logs).
    reflexivity.
  - vm_compute. reflexivity.
Defined.

(** ** Set-up and tear-down *)

(** Inside a transaction a statement other than [COMMIT] leaves the
    committed database alone. *)
Lemma client_query_in_txn (F : Faults) (st : statement) (C : Database) (w : World) :
  st <> COMMIT -> untouched C w -> is_Some (transaction w) ->
  untouched C (fst (client_query F st w))
  /\ (st <> ROLLBACK -> is_Some (transaction (fst (client_query F st w)))).
Proof.
  intros Hst [Hc Hi] [d Hd]. unfold client_query.
  destruct (statement_fails F st).
  - destruct st; try congruence; simpl; (split; [split; assumption|]); rewrite Hd; eauto.
  - destruct st; try congruence; simpl; unfold update_working; rewrite ?Hd; simpl.
    all: try (split; [split; assumption|]); intros; eauto; try congruence.
Qed.

Lemma install_trigger_in_txn (F : Faults) (t : TableRef) (C : Database) (w : World) :
  untouched C w -> is_Some (transaction w) ->
  untouched C (fst (install_trigger F t w))
  /\ is_Some (transaction (fst (install_trigger F t w))).
Proof.
  intros Hu Ht. unfold install_trigger, se_bind, se_lift, buildTriggerSQL.
  match goal with |- context [if ?b then Threw _ else _] => destruct b end;
    [split; assumption|].
  match goal with |- context [client_query F ?st w] =>
    destruct (client_query_in_txn F st C w) as [Hu' Ht'];
      [discriminate | assumption | assumption |];
    specialize (Ht' ltac:(discriminate));
    destruct (client_query F st w) as [w' [[]|e]]
  end; simpl in *; [|split; assumption].
  destruct Hu' as [Hc Hi]. split; [split; assumption|assumption].
Qed.

Lemma install_triggers_in_txn (F : Faults) (ts : list TableRef) (C : Database) (w : World) :
  untouched C w -> is_Some (transaction w) ->
  untouched C (fst (se_for ts (install_trigger F) w))
  /\ is_Some (transaction (fst (se_for ts (install_trigger F) w))).
Proof.
  revert w. induction ts as [|t ts IH]; intros w Hu Ht; simpl; [split; assumption|].
  unfold se_bind.
  destruct (install_trigger_in_txn F t C w Hu Ht) as [Hu' Ht'].
  destruct (install_trigger F t w) as [w' [[]|e]]; simpl in *; [|split; assumption].
  apply IH; assumption.
Qed.

Lemma client_query_begin (F : Faults) (C : Database) (w : World) :
  untouched C w ->
  untouched C (fst (client_query F BEGIN w))
  /\ (snd (client_query F BEGIN w) = Returned tt ->
      is_Some (transaction (fst (client_query F BEGIN w)))).
Proof.
  intros Hu. unfold client_query.
  destruct (statement_fails F BEGIN); simpl; [split; [assumption|discriminate]|].
  destruct (transaction w) eqn:Ht; simpl; (split; [assumption|]); intros _;
    rewrite ?Ht; eauto.
Qed.

(** When the transaction of the set-up throws, nothing of it is
    committed. *)
Lemma setup_transaction_throws (F : Faults) (f : TableFilter) (C : Database) (w : World) :
  untouched C w ->
  forall e, snd (setup_transaction F f w) = Threw e ->
  untouched C (fst (setup_transaction F f w)).
Proof.
  intros Hu e. unfold setup_transaction, se_bind.
  destruct (client_query_begin F C w Hu) as [Hu1 Ht1].
  destruct (client_query F BEGIN w) as [w1 [[]|e1]]; simpl in *;
    [|intros _; assumption].
  specialize (Ht1 eq_refl).
  destruct (client_query_in_txn F CREATE_OR_REPLACE_FUNCTION C w1) as [Hu2 Ht2];
    [discriminate | assumption | assumption |].
  specialize (Ht2 ltac:(discriminate)).
  destruct (client_query F CREATE_OR_REPLACE_FUNCTION w1) as [w2 [[]|e2]]; simpl in *;
    [|intros _; assumption].
  destruct (getTableList (catalog (working w2)) f) as [tables|e3]; simpl;
    [|intros _; assumption].
  destruct (install_triggers_in_txn F tables C w2 Hu2 Ht2) as [Hu3 Ht3].
  destruct (se_for tables (install_trigger F) w2) as [w3 [[]|e4]]; simpl in *;
    [|intros _; assumption].
  unfold client_query. destruct (statement_fails F COMMIT); simpl.
  - intros _. destruct Hu3 as [Hc3 Hi3]. split; assumption.
  - discriminate.
Qed.

(** The part of C2 that holds: a set-up that fails leaves the committed
    database and the initialized flag as they were. *)
Lemma setup_failure_rolls_back (F : Faults) (f : TableFilter) (w : World) :
  initialized w = false ->
  forall e, snd (setupChangeNotifications F f w) = Threw e ->
  committed (fst (setupChangeNotifications F f w)) = committed w
  /\ initialized (fst (setupChangeNotifications F f w)) = false.
Proof.
  intros Hi e. unfold setupChangeNotifications. rewrite Hi.
  unfold se_bind, pool_connect.
  destruct (pool_connect_fails F); simpl; [intros _; split; [reflexivity|assumption]|].
  set (w0 := set_checked_out (S (checked_out w)) w).
  assert (Hu0 : untouched (committed w) w0) by (split; [reflexivity|assumption]).
  unfold se_finally, se_try.
  pose proof (setup_transaction_throws F f (committed w) w0 Hu0) as Hbody.
  destruct (setup_transaction F f w0) as [w1 [[]|e1]]; simpl in *.
  - discriminate.
  - intros _. specialize (Hbody e1 eq_refl). destruct Hbody as [Hc1 Hi1].
    unfold client_query, se_throw.
    destruct (statement_fails F ROLLBACK); simpl; split; assumption.
Qed.

(** C2 (the code departs from it).  Table [b] refuses its trigger, so the
    set-up of [a] and [b] fails: one wrapped failure is thrown and the
    transaction is rolled back, but the record pushed for [a] stays in
    [this.triggers].  On a database where another process watches [a], a
    later set-up of [b] alone followed by a tear-down then drops the
    trigger on [a], which this adapter never installed. *)
Theorem setup_failure_keeps_trigger_records :
  snd (setupChangeNotifications Inputs.b_refuses_triggers Inputs.no_filter
         (new_adapter Inputs.two_tables))
  = Threw (DBChangeError "Failed to set up change notifications"
             (PgError "statement failed"))
  /\ installed (committed (fst (setupChangeNotifications Inputs.b_refuses_triggers
                                  Inputs.no_filter (new_adapter Inputs.two_tables))))
     = []
  /\ initialized (fst (setupChangeNotifications Inputs.b_refuses_triggers
                         Inputs.no_filter (new_adapter Inputs.two_tables)))
     = false
  /\ triggers (new_adapter Inputs.two_tables) = []
  /\ triggers (fst (setupChangeNotifications Inputs.b_refuses_triggers
                      Inputs.no_filter (new_adapter Inputs.two_tables)))
     = [Inputs.trigger_on_a]
  /\ installed (committed
       (fst (setupChangeNotifications no_faults Inputs.include_b
          (fst (setupChangeNotifications Inputs.b_refuses_triggers Inputs.include_a_b
             (new_adapter Inputs.two_tables_watched))))))
     = [Inputs.trigger_on_a; Inputs.trigger_on_b]
  /\ installed (committed
       (fst (teardownChangeNotifications no_faults
          (fst (setupChangeNotifications no_faults Inputs.include_b
             (fst (setupChangeNotifications Inputs.b_refuses_triggers Inputs.include_a_b
                (new_adapter Inputs.two_tables_watched))))))))
     = [].
Proof. vm_compute. repeat split; reflexivity. Qed.

(** ** Payload handling *)

Section Payload.
Context `{JsRuntime}.
Variable database : string.
Variable handler : option Handler.
Variables uuid now : string.

Example mapOperationType_mixed_case :
  mapOperationType (VString "InSeRt") = Returned INSERT.
Proof. reflexivity. Qed.

Example mapOperationType_merge : mapOperationType (VString "merge") = Returned UNKNOWN.
Proof. reflexivity. Qed.

Example mapOperationType_missing :
  mapOperationType VUndefined
  = Threw (TypeError "Cannot read properties of undefined (reading 'toLowerCase')").
Proof. reflexivity. Qed.

Lemma mapOperationType_keyword (keyword : string) :
  exists op, mapOperationType (VString keyword) = Returned op
             /\ (recognised keyword = false -> op = UNKNOWN)
             /\ (recognised keyword = true -> op <> UNKNOWN).
Proof.
  unfold mapOperationType, recognised. eexists. split; [reflexivity|].
  repeat case_bool_decide; split; intros Hr; try discriminate; try reflexivity;
    exfalso;
    match goal with
    | Hin : _ ∉ _ |- _ => apply Hin; rewrite !elem_of_cons; tauto
    | Hin : _ ∈ _ |- _ => rewrite !elem_of_cons, elem_of_nil in Hin; tauto
    end.
Qed.

(** What one run of the handler adds to the trace. *)
Lemma handleNotification_trace (payload : string) (tr : list effect) :
  handleNotification database handler uuid now payload tr =
  match build_event database uuid now payload with
  | Threw err =>
      ((tr ++ [LogError "Error processing PostgreSQL notification" err])%list, Returned tt)
  | Returned e =>
      match handler with
      | None =>
          (((tr ++ [LogDebug "Change event"])
              ++ [LogWarn "No change event handler registered to process events"])%list,
           Returned tt)
      | Some h =>
          match h e with
          | Returned _ =>
              (((tr ++ [LogDebug "Change event"]) ++ [HandlerCalled e])%list, Returned tt)
          | Threw err =>
              ((((tr ++ [LogDebug "Change event"]) ++ [HandlerCalled e])
                  ++ [LogError "Error processing PostgreSQL notification" err])%list,
               Returned tt)
          end
      end
  end.
Proof.
  unfold handleNotification, se_try, se_bind, se_lift, emitChangeEvent, se_bind, emit,
    se_modify.
  destruct (build_event database uuid now payload) as [e|err]; simpl; [|reflexivity].
  destruct handler as [h|]; simpl; [|reflexivity].
  destruct (h e) as [[]|err]; reflexivity.
Qed.

Lemma handed_over_app (a b : list effect) :
  handed_over (a ++ b) = (handed_over a ++ handed_over b)%list.
Proof. unfold handed_over. apply omap_app. Qed.

(** An object payload with a keyword for operation and a usable timestamp
    becomes an event. *)
Lemma build_event_object (payload : string) (fields : list (string * value))
    (keyword : string) :
  JSON_parse payload = Some (VObject fields) ->
  assoc "operation" fields = Some (VString keyword) ->
  timestamp_converts (VObject fields) ->
  exists e, build_event database uuid now payload = Returned e
            /\ mapOperationType (VString keyword) = Returned (ev_operation e).
Proof.
  intros Hp Hop Hts. unfold build_event. rewrite Hp.
  unfold timestamp_converts in Hts. cbn [get rbind] in *. rewrite Hop. cbn [default].
  destruct (truthy (default VUndefined (assoc "timestamp" fields))) eqn:Ht.
  - destruct (Hts eq_refl) as [iso Hiso]. rewrite Hiso. cbn [rbind].
    eexists. split; reflexivity.
  - cbn [rbind]. eexists. split; reflexivity.
Qed.

(** C7 (with the condition it needs).  The payload handler returns
    normally on every payload text.  A text [JSON.parse] rejects adds one error line to the
    log and nothing else.  The mapping of the operation never throws on a
    keyword and gives [unknown] for every keyword outside
    insert/update/delete/truncate (whatever the case of its letters); an
    object payload with such a keyword, and with a timestamp that is a
    date when it has one, becomes an event with operation [unknown], which
    is handed to the registered handler.  A payload from which no event
    can be built, whatever the reason, is dropped like a text that does
    not parse: the error is logged, and nothing is handed over. *)
Theorem handleNotification_never_throws (payload : string) (tr : list effect) :
  snd (handleNotification database handler uuid now payload tr) = Returned tt
  /\ (JSON_parse payload = None ->
      fst (handleNotification database handler uuid now payload tr)
      = (tr ++ [LogError "Error processing PostgreSQL notification"
                         (SyntaxError "Unexpected token in JSON")])%list)
  /\ (forall keyword,
        exists op, mapOperationType (VString keyword) = Returned op
                   /\ (recognised keyword = false -> op = UNKNOWN))
  /\ (forall fields keyword,
        JSON_parse payload = Some (VObject fields) ->
        assoc "operation" fields = Some (VString keyword) ->
        recognised keyword = false ->
        timestamp_converts (VObject fields) ->
        exists e, build_event database uuid now payload = Returned e
                  /\ ev_operation e = UNKNOWN
                  /\ handed_over
                       (fst (handleNotification database handler uuid now payload tr))
                     = (handed_over tr
                        ++ match handler with Some _ => [e] | None => [] end)%list)
  /\ (forall err,
        build_event database uuid now payload = Threw err ->
        fst (handleNotification database handler uuid now payload tr)
        = (tr ++ [LogError "Error processing PostgreSQL notification" err])%list
        /\ handed_over (fst (handleNotification database handler uuid now payload tr))
           = handed_over tr).
Proof.
  rewrite handleNotification_trace. split; [|split; [|split; [|split]]].
  - destruct (build_event database uuid now payload); [|reflexivity].
    destruct handler as [h|]; [|reflexivity]. destruct (h a) as [[]|]; reflexivity.
  - intros Hp. unfold build_event. rewrite Hp. reflexivity.
  - intros keyword. destruct (mapOperationType_keyword keyword) as (op & Hmap & Hunk & _).
    exists op. split; assumption.
  - intros fields keyword Hp Hop Hrec Hts.
    destruct (build_event_object payload fields keyword Hp Hop Hts) as (e & He & Hmap).
    destruct (mapOperationType_keyword keyword) as (op' & Hmap' & Hunk & _).
    rewrite Hmap in Hmap'. injection Hmap' as Hop'.
    exists e. split; [exact He|]. split; [rewrite Hop'; apply Hunk, Hrec|].
    rewrite He. destruct handler as [h|]; [destruct (h e) as [[]|]|]; cbn [fst];
      rewrite !handed_over_app; cbn; rewrite ?app_nil_r; reflexivity.
  - intros err He. rewrite He. cbn [fst]. split; [reflexivity|].
    rewrite handed_over_app. cbn. rewrite app_nil_r. reflexivity.
Qed.

Lemma handed_event_built (payload : string) (e : ChangeEvent) :
  HandlerCalled e ∈ fst (handleNotification database handler uuid now payload []) ->
  build_event database uuid now payload = Returned e.
Proof.
  rewrite handleNotification_trace.
  destruct (build_event database uuid now payload) as [e'|err]; cbn.
  - destruct handler as [h|]; [destruct (h e') as [[]|]|]; cbn;
      rewrite ?elem_of_cons, ?elem_of_nil; intros Hin;
      repeat (destruct Hin as [Hin|Hin]); try discriminate; try contradiction;
      injection Hin as ->; reflexivity.
  - rewrite elem_of_cons, elem_of_nil. intros [Hin|[]]. discriminate.
Qed.

(** C10. Every event the payload handler constructs has both [data.new]
    and [data.old] present: each is the value the payload supplied when
    that value is truthy, and [null] otherwise.  The events handed to the
    change-event handler are events so constructed. *)
Theorem event_data_never_omitted (payload : string) (e : ChangeEvent) :
  build_event database uuid now payload = Returned e ->
  (exists data,
     JSON_parse payload = Some data
     /\ ev_data_new e = Some (if truthy (supplied data "new") then supplied data "new"
                              else VNull)
     /\ ev_data_old e = Some (if truthy (supplied data "old") then supplied data "old"
                              else VNull))
  /\ ev_data_new e <> None /\ ev_data_old e <> None
  /\ (forall e',
        HandlerCalled e' ∈ fst (handleNotification database handler uuid now payload []) ->
        e' = e).
Proof.
  intros Hb. split; [|split; [|split]].
  - revert Hb.
    unfold build_event. destruct (JSON_parse payload) as [data|]; [|discriminate].
    intros Hb. exists data. split; [reflexivity|].
    unfold supplied.
    destruct (get data "id") as [v1|]; cbn [rbind] in Hb; [|discriminate].
    destruct (get data "timestamp") as [v2|]; cbn [rbind] in Hb; [|discriminate].
    match type of Hb with rbind ?x _ = _ => destruct x as [v3|] end;
      cbn [rbind] in Hb; [|discriminate].
    destruct (get data "operation") as [v4|]; cbn [rbind] in Hb; [|discriminate].
    destruct (mapOperationType v4) as [v5|]; cbn [rbind] in Hb; [|discriminate].
    destruct (get data "table") as [v6|]; cbn [rbind] in Hb; [|discriminate].
    destruct (get data "schema") as [v7|]; cbn [rbind] in Hb; [|discriminate].
    destruct (get data "data") as [v8|]; cbn [rbind] in Hb; [|discriminate].
    injection Hb as <-. cbn. unfold js_or. split; reflexivity.
  - revert Hb. unfold build_event.
    destruct (JSON_parse payload) as [data|]; [|discriminate].
    unfold rbind. repeat (match goal with
      | |- context [match ?x with Returned _ => _ | Threw _ => _ end] => destruct x
      end; try discriminate).
    intros Hb. injection Hb as <-. discriminate.
  - revert Hb. unfold build_event.
    destruct (JSON_parse payload) as [data|]; [|discriminate].
    unfold rbind. repeat (match goal with
      | |- context [match ?x with Returned _ => _ | Threw _ => _ end] => destruct x
      end; try discriminate).
    intros Hb. injection Hb as <-. discriminate.
  - intros e' Hin. apply handed_event_built in Hin. rewrite Hb in Hin.
    injection Hin as ->. reflexivity.
Qed.

End Payload.

Lemma handleNotification_never_throws_witness :
  snd (@handleNotification Inputs.literal_runtime "demo_db"
         (Some Inputs.accepting_handler) "u" "n" "{oops" []) = Returned tt
  /\ fst (@handleNotification Inputs.literal_runtime "demo_db"
            (Some Inputs.accepting_handler) "u" "n" "{oops" [])
     = [LogError "Error processing PostgreSQL notification"
                 (SyntaxError "Unexpected token in JSON")]
  /\ exists e,
       @build_event Inputs.literal_runtime "demo_db" "u" "n" Inputs.merge_payload
       = Returned e
       /\ ev_operation e = UNKNOWN
       /\ handed_over (fst (@handleNotification Inputs.literal_runtime "demo_db"
                              (Some Inputs.accepting_handler) "u" "n"
                              Inputs.merge_payload []))
          = [e].
Proof.
  split.
  { apply (@handleNotification_never_throws Inputs.literal_runtime "demo_db"
             (Some Inputs.accepting_handler) "u" "n" "{oops" []). }
  split.
  { apply (@handleNotification_never_throws Inputs.literal_runtime "demo_db"
             (Some Inputs.accepting_handler) "u" "n" "{oops" []).
    reflexivity. }
  apply (proj1 (proj2 (proj2 (proj2 (@handleNotification_never_throws
           Inputs.literal_runtime "demo_db" (Some Inputs.accepting_handler) "u" "n"
           Inputs.merge_payload []))))
         [("operation", VString "merge"); ("table", VString "t")] "merge").
  - reflexivity.
  - reflexivity.
  - reflexivity.
  - simpl. discriminate.
Defined.

(** C7 (without that condition it fails).  The payload
    [{"operation":"merge","timestamp":"yesterday"}] parses, and its
    operation keyword is not a recognised one; but its timestamp is no
    date, so building the event throws a [RangeError] inside the [try]:
    the error is logged and no event is made, with operation [unknown] or
    any other. *)
Lemma unknown_keyword_with_undated_timestamp_yields_no_event :
  @JSON_parse Inputs.yesterday_runtime Inputs.merge_yesterday_payload
  = Some (VObject [("operation", VString "merge"); ("timestamp", VString "yesterday")])
  /\ recognised "merge" = false
  /\ @build_event Inputs.yesterday_runtime "demo_db" "u" "n" Inputs.merge_yesterday_payload
     = Threw (RangeError "Invalid time value")
  /\ @handleNotification Inputs.yesterday_runtime "demo_db" (Some Inputs.accepting_handler)
       "u" "n" Inputs.merge_yesterday_payload []
     = ([LogError "Error processing PostgreSQL notification"
                  (RangeError "Invalid time value")], Returned tt)
  /\ handed_over (fst (@handleNotification Inputs.yesterday_runtime "demo_db"
                         (Some Inputs.accepting_handler) "u" "n"
                         Inputs.merge_yesterday_payload [])) = [].
Proof. vm_compute. repeat split. Qed.

Lemma event_data_never_omitted_witness :
  (exists data,
     @JSON_parse Inputs.literal_runtime Inputs.insert_payload = Some data
     /\ ev_data_new Inputs.insert_event
        = Some (if truthy (supplied data "new") then supplied data "new" else VNull)
     /\ ev_data_old Inputs.insert_event
        = Some (if truthy (supplied data "old") then supplied data "old" else VNull))
  /\ ev_data_new Inputs.insert_event <> None
  /\ ev_data_old Inputs.insert_event <> None
  /\ (forall e',
        HandlerCalled e'
          ∈ fst (@handleNotification Inputs.literal_runtime "demo_db"
                   (Some Inputs.accepting_handler) "u" "n" Inputs.insert_payload []) ->
        e' = Inputs.insert_event).
Proof.
  apply (@event_data_never_omitted Inputs.literal_runtime "demo_db"
           (Some Inputs.accepting_handler) "u" "n" Inputs.insert_payload
           Inputs.insert_event).
  vm_compute. reflexivity.
Defined.

(** ** A set-up and a tear-down that succeed *)

Lemma same_trigger_decide (x r : TriggerRecord) :
  same_trigger (name x) (schema x) (table x) r = bool_decide (r = x).
Proof.
  unfold same_trigger. destruct x as [xn xt xs], r as [rn rt rs]. cbn.
  repeat case_bool_decide; try reflexivity; congruence.
Qed.

Lemma installed_drop_trigger (x : TriggerRecord) (d : Database) :
  installed (drop_trigger (name x) (schema x) (table x) d)
  = List.filter (λ r, negb (bool_decide (r = x))) (installed d).
Proof.
  unfold drop_trigger. cbn. apply List.filter_ext. intros r.
  rewrite same_trigger_decide. reflexivity.
Qed.

Lemma elem_of_filter_out (x r : TriggerRecord) (l : list TriggerRecord) :
  r ∈ List.filter (λ r, negb (bool_decide (r = x))) l <-> r ∈ l /\ r <> x.
Proof.
  rewrite list_elem_of_In, List.filter_In, <- list_elem_of_In, negb_true_iff.
  rewrite bool_decide_eq_false. reflexivity.
Qed.

(** The options the adapter builds for a table. *)
Lemma buildTriggerSQL_for (t : TableRef) :
  named t = true ->
  buildTriggerSQL
    {| triggerName := "db_change_notify_" +:+ ref_schema t +:+ "_" +:+ ref_name t;
       schemaName := ref_schema t; tableName := ref_name t;
       functionName := "notify_db_changes";
       operations := [OP_INSERT; OP_UPDATE; OP_DELETE] |}
  = Returned (DROP_AND_CREATE_TRIGGER
    {| triggerName := "db_change_notify_" +:+ ref_schema t +:+ "_" +:+ ref_name t;
       schemaName := ref_schema t; tableName := ref_name t;
       functionName := "notify_db_changes";
       operations := [OP_INSERT; OP_UPDATE; OP_DELETE] |}).
Proof.
  unfold named, buildTriggerSQL. cbn [triggerName schemaName tableName functionName operations].
  intros Hn. apply andb_true_iff in Hn as [Hs Ht].
  apply negb_true_iff in Hs, Ht. rewrite Hs, Ht.
  rewrite !bool_decide_false by discriminate. reflexivity.
Qed.

(** One turn of the loop, when nothing fails: the trigger is in the
    transaction's view and its record is at the end of [this.triggers]. *)
Lemma install_trigger_no_faults (t : TableRef) (d : Database) (w : World) :
  named t = true -> transaction w = Some d ->
  exists w', install_trigger no_faults t w = (w', Returned tt)
    /\ (exists d', transaction w' = Some d'
          /\ catalog d' = catalog d /\ notify_function d' = notify_function d
          /\ installed d'
             = (List.filter (λ r, negb (bool_decide (r = trigger_for t))) (installed d)
                ++ [trigger_for t])%list)
    /\ committed w' = committed w
    /\ triggers w' = (triggers w ++ [trigger_for t])%list
    /\ initialized w' = initialized w
    /\ checked_out w' = checked_out w.
Proof.
  intros Hn Hd. unfold install_trigger, se_bind, se_lift.
  rewrite (buildTriggerSQL_for t Hn).
  unfold client_query, no_faults. cbn [statement_fails].
  unfold se_modify. eexists. split; [reflexivity|].
  cbn [run_statement]. unfold update_working. rewrite Hd.
  cbn [transaction committed triggers initialized checked_out set_adapter log_statement set_db].
  split; [|repeat split].
  eexists. split; [reflexivity|].
  unfold create_trigger. cbn [catalog notify_function installed triggerName schemaName tableName].
  split; [reflexivity|]. split; [reflexivity|].
  f_equal. apply (installed_drop_trigger (trigger_for t) d).
Qed.

Lemma filter_out_recreated (x : TriggerRecord) (N l : list TriggerRecord) :
  x ∈ N ->
  List.filter (λ r, negb (bool_decide (r ∈ N)))
    (List.filter (λ r, negb (bool_decide (r = x))) l ++ [x])
  = List.filter (λ r, negb (bool_decide (r ∈ N))) l.
Proof.
  intros Hx. rewrite List.filter_app. cbn [List.filter].
  rewrite (bool_decide_true _ Hx). cbn [negb]. rewrite app_nil_r.
  induction l as [|r l IH]; [reflexivity|]. cbn [List.filter].
  destruct (bool_decide (r = x)) eqn:Hr; cbn [negb List.filter].
  - apply bool_decide_eq_true in Hr. subst r.
    rewrite (bool_decide_true _ Hx). exact IH.
  - rewrite IH. reflexivity.
Qed.

(** The whole loop. *)
Lemma install_triggers_no_faults (ts : list TableRef) (d : Database) (w : World) :
  Forall (λ t, named t = true) ts -> transaction w = Some d ->
  exists w', se_for ts (install_trigger no_faults) w = (w', Returned tt)
    /\ (exists d', transaction w' = Some d'
          /\ catalog d' = catalog d /\ notify_function d' = notify_function d
          /\ (forall r, r ∈ installed d'
                        <-> r ∈ installed d \/ r ∈ trigger_for <$> ts)
          /\ (forall N : list TriggerRecord, (forall t, t ∈ ts -> trigger_for t ∈ N) ->
                List.filter (λ r, negb (bool_decide (r ∈ N))) (installed d')
                = List.filter (λ r, negb (bool_decide (r ∈ N))) (installed d)))
    /\ committed w' = committed w
    /\ triggers w' = (triggers w ++ (trigger_for <$> ts))%list
    /\ initialized w' = initialized w
    /\ checked_out w' = checked_out w.
Proof.
  intros Hall. revert d w. induction Hall as [|t ts Ht Hall IH]; intros d w Hd.
  - exists w. split; [reflexivity|]. split.
    + exists d. repeat split; try assumption.
      * intros Hr. left. exact Hr.
      * intros [Hr|Hr]; [exact Hr|]. cbn in Hr. apply elem_of_nil in Hr. contradiction.
    + rewrite app_nil_r. repeat split.
  - cbn [se_for]. unfold se_bind.
    destruct (install_trigger_no_faults t d w Ht Hd)
      as (w1 & -> & (d1 & Hd1 & Hc1 & Hf1 & Hi1) & Hco1 & Htr1 & Hin1 & Hch1).
    destruct (IH d1 w1 Hd1)
      as (w2 & -> & (d2 & Hd2 & Hc2 & Hf2 & Hi2 & Hk2) & Hco2 & Htr2 & Hin2 & Hch2).
    exists w2. split; [reflexivity|]. split.
    + exists d2. split; [exact Hd2|]. split; [congruence|]. split; [congruence|]. split.
      * intros r. rewrite Hi2, Hi1, elem_of_app, elem_of_filter_out, list_elem_of_singleton.
        rewrite fmap_cons, elem_of_cons.
        destruct (decide (r = trigger_for t)); tauto.
      * intros N HN. rewrite Hk2 by (intros u Hu; apply HN; right; exact Hu).
        rewrite Hi1. apply filter_out_recreated, HN. left.
    + split; [congruence|]. split; [|split; congruence].
      rewrite Htr2, Htr1, fmap_cons, <- app_assoc. reflexivity.
Qed.

(** A set-up on which nothing fails, for the tables the table query
    gives. *)
Lemma setup_no_faults (f : TableFilter) (ts : list TableRef) (w : World) :
  initialized w = false -> transaction w = None ->
  getTableList (catalog (committed w)) f = Returned ts ->
  Forall (λ t, named t = true) ts ->
  exists w', setupChangeNotifications no_faults f w = (w', Returned tt)
    /\ initialized w' = true
    /\ triggers w' = (triggers w ++ (trigger_for <$> ts))%list
    /\ transaction w' = None
    /\ checked_out w' = checked_out w
    /\ catalog (committed w') = catalog (committed w)
    /\ notify_function (committed w') = true
    /\ (forall r, r ∈ installed (committed w')
                  <-> r ∈ installed (committed w) \/ r ∈ trigger_for <$> ts)
    /\ (forall N : list TriggerRecord, (forall t, t ∈ ts -> trigger_for t ∈ N) ->
          List.filter (λ r, negb (bool_decide (r ∈ N))) (installed (committed w'))
          = List.filter (λ r, negb (bool_decide (r ∈ N))) (installed (committed w))).
Proof.
  intros Hi Ht Hq Hn. unfold setupChangeNotifications. rewrite Hi.
  unfold se_bind at 1. cbn [pool_connect no_faults pool_connect_fails].
  unfold se_finally, se_try, setup_transaction.
  unfold se_bind at 1. unfold client_query at 1. cbn [statement_fails no_faults].
  cbn [run_statement]. cbn [transaction set_checked_out]. rewrite Ht.
  unfold se_bind at 1. unfold client_query at 1. cbn [statement_fails no_faults].
  cbn [run_statement]. unfold update_working.
  cbn [transaction set_db log_statement committed].
  unfold se_bind at 1. unfold working.
  cbn [transaction set_db log_statement committed default create_function catalog
       set_checked_out].
  change (getTableList _ f) with (getTableList (catalog (committed w)) f).
  rewrite Hq.
  unfold se_bind at 1.
  match goal with |- context [se_for ts (install_trigger no_faults) ?x] =>
    destruct (install_triggers_no_faults ts (create_function (committed w)) x Hn eq_refl)
      as (w1 & -> & (d1 & Hd1 & Hc1 & Hf1 & Hi1 & Hk1) & Hco1 & Htr1 & Hin1 & Hch1)
  end.
  unfold se_bind at 1. unfold client_query at 1. cbn [statement_fails no_faults].
  cbn [run_statement]. rewrite Hd1. unfold se_modify, release, se_modify.
  eexists. split; [reflexivity|].
  cbn [initialized triggers transaction checked_out committed set_checked_out set_adapter
       log_statement set_db].
  rewrite Htr1, Hch1, Hc1, Hf1.
  cbn [initialized triggers transaction checked_out committed set_checked_out set_adapter
       log_statement set_db Nat.pred catalog notify_function create_function].
  repeat split; try (apply Hi1); try assumption.
Qed.

Lemma filter_out_cons (x : TriggerRecord) (N l : list TriggerRecord) :
  List.filter (λ r, negb (bool_decide (r ∈ N)))
    (List.filter (λ r, negb (bool_decide (r = x))) l)
  = List.filter (λ r, negb (bool_decide (r ∈ x :: N))) l.
Proof.
  induction l as [|r l IH]; [reflexivity|]. cbn [List.filter].
  destruct (bool_decide (r = x)) eqn:Hr; cbn [negb List.filter].
  - apply bool_decide_eq_true in Hr.
    rewrite (bool_decide_true (r ∈ x :: N)) by (rewrite elem_of_cons; left; exact Hr).
    exact IH.
  - apply bool_decide_eq_false in Hr.
    destruct (bool_decide (r ∈ N)) eqn:Hn; cbn [negb].
    + apply bool_decide_eq_true in Hn.
      rewrite (bool_decide_true (r ∈ x :: N)) by (rewrite elem_of_cons; right; exact Hn).
      exact IH.
    + apply bool_decide_eq_false in Hn.
      rewrite (bool_decide_false (r ∈ x :: N)) by (rewrite elem_of_cons; tauto).
      cbn [negb]. rewrite IH. reflexivity.
Qed.

(** The loop of the tear-down, when nothing fails. *)
Lemma drop_triggers_no_faults (l : list TriggerRecord) (d : Database) (w : World) :
  transaction w = Some d ->
  exists w',
    se_for l (λ t, client_query no_faults
                     (DROP_TRIGGER_IF_EXISTS (name t) (schema t) (table t))) w
    = (w', Returned tt)
    /\ (exists d', transaction w' = Some d'
          /\ catalog d' = catalog d /\ notify_function d' = notify_function d
          /\ installed d'
             = List.filter (λ r, negb (bool_decide (r ∈ l))) (installed d))
    /\ committed w' = committed w
    /\ triggers w' = triggers w
    /\ initialized w' = initialized w
    /\ checked_out w' = checked_out w.
Proof.
  revert d w. induction l as [|x l IH]; intros d w Hd.
  - exists w. split; [reflexivity|]. split; [|repeat split].
    exists d. repeat split; try assumption.
    symmetry. clear. induction (installed d) as [|r l IH]; [reflexivity|].
    cbn [List.filter]. rewrite bool_decide_false by apply not_elem_of_nil.
    cbn [negb]. rewrite IH. reflexivity.
  - cbn [se_for]. unfold se_bind. unfold client_query at 1.
    cbn [statement_fails no_faults run_statement]. unfold update_working. rewrite Hd.
    match goal with |- context [se_for l _ ?y] =>
      destruct (IH (drop_trigger (name x) (schema x) (table x) d) y eq_refl)
        as (w2 & -> & (d2 & Hd2 & Hc2 & Hf2 & Hi2) & Hco2 & Htr2 & Hin2 & Hch2)
    end.
    exists w2. split; [reflexivity|]. split; [|repeat split; assumption].
    exists d2. split; [exact Hd2|]. split; [exact Hc2|]. split; [exact Hf2|].
    rewrite Hi2, installed_drop_trigger. apply filter_out_cons.
Qed.

(** A tear-down on which nothing fails. *)
Lemma teardown_no_faults (w : World) :
  initialized w = true -> transaction w = None ->
  exists w', teardownChangeNotifications no_faults w = (w', Returned tt)
    /\ initialized w' = false
    /\ triggers w' = []
    /\ transaction w' = None
    /\ checked_out w' = checked_out w
    /\ catalog (committed w') = catalog (committed w)
    /\ notify_function (committed w') = notify_function (committed w)
    /\ installed (committed w')
       = List.filter (λ r, negb (bool_decide (r ∈ triggers w))) (installed (committed w)).
Proof.
  intros Hi Ht. unfold teardownChangeNotifications. rewrite Hi. cbn [negb].
  unfold se_bind at 1. cbn [pool_connect no_faults pool_connect_fails].
  unfold se_finally, se_try.
  unfold se_bind at 1. unfold client_query at 1. cbn [statement_fails no_faults].
  cbn [run_statement]. cbn [transaction set_checked_out]. rewrite Ht.
  unfold se_bind at 1.
  match goal with |- context [se_for (triggers w) _ ?x] =>
    destruct (drop_triggers_no_faults (triggers w) (committed w) x eq_refl)
      as (w1 & Hrun & (d1 & Hd1 & Hc1 & Hf1 & Hi1) & Hco1 & Htr1 & Hin1 & Hch1)
  end.
  cbn [no_faults] in Hrun |- *. rewrite Hrun.
  unfold se_bind at 1. unfold client_query at 1. cbn [statement_fails].
  cbn [run_statement]. rewrite Hd1. unfold se_modify, release, se_modify.
  eexists. split; [reflexivity|].
  cbn [initialized triggers transaction checked_out committed set_checked_out set_adapter
       log_statement set_db].
  rewrite Hch1, Hc1, Hf1, Hi1.
  cbn [initialized triggers transaction checked_out committed set_checked_out set_adapter
       log_statement set_db Nat.pred catalog notify_function].
  repeat split.
Qed.

(** ** The pool client *)

Lemma client_query_checked_out (F : Faults) (st : statement) (w : World) :
  checked_out (fst (client_query F st w)) = checked_out w.
Proof.
  unfold client_query. destruct (statement_fails F st).
  - destruct st; reflexivity.
  - destruct st; cbn; unfold update_working; destruct (transaction w); reflexivity.
Qed.

Lemma install_trigger_checked_out (F : Faults) (t : TableRef) (w : World) :
  checked_out (fst (install_trigger F t w)) = checked_out w.
Proof.
  unfold install_trigger. revert w. apply se_bind_frame; [reflexivity|].
  intros st. apply se_bind_frame; [apply client_query_checked_out|reflexivity].
Qed.

Lemma setup_transaction_checked_out (F : Faults) (f : TableFilter) (w : World) :
  checked_out (fst (setup_transaction F f w)) = checked_out w.
Proof.
  unfold setup_transaction. revert w.
  apply se_bind_frame; [apply client_query_checked_out|]. intros _.
  apply se_bind_frame; [apply client_query_checked_out|]. intros _.
  apply se_bind_frame; [reflexivity|]. intros ts.
  apply se_bind_frame; [apply se_for_frame, install_trigger_checked_out|]. intros _.
  apply se_bind_frame; [apply client_query_checked_out|reflexivity].
Qed.

(** A client taken from the pool goes back to it, whatever happens in
    between. *)
Lemma released_after (F : Faults) (body : SE World unit) (w : World) :
  (forall s, checked_out (fst (body s)) = checked_out s) ->
  checked_out (fst (se_bind (pool_connect F) (λ _, se_finally body release) w))
  = checked_out w.
Proof.
  intros Hb. unfold se_bind, pool_connect.
  destruct (pool_connect_fails F); [reflexivity|].
  unfold se_finally, release, se_modify.
  specialize (Hb (set_checked_out (S (checked_out w)) w)).
  destruct (body _) as [s1 r]. cbn [fst] in *. cbn. rewrite Hb. reflexivity.
Qed.

Lemma rollback_handler_checked_out (F : Faults) (msg : string) (e : js_error) (w : World) :
  checked_out (fst (se_bind (client_query F ROLLBACK)
                      (λ _, se_throw (S := World) (A := unit) (DBChangeError msg e)) w))
  = checked_out w.
Proof.
  revert w. apply se_bind_frame; [apply client_query_checked_out|reflexivity].
Qed.

(** X5.  Neither [setupChangeNotifications] nor
    [teardownChangeNotifications] keeps a pool client: whichever statement
    fails, and also when the roll-back itself fails, the client taken from
    the pool has been released when the call settles. *)
Theorem pool_client_always_released (F : Faults) (f : TableFilter) (w : World) :
  checked_out (fst (setupChangeNotifications F f w)) = checked_out w
  /\ checked_out (fst (teardownChangeNotifications F w)) = checked_out w.
Proof.
  split.
  - unfold setupChangeNotifications. destruct (initialized w); [reflexivity|].
    apply released_after. apply se_try_frame.
    + apply setup_transaction_checked_out.
    + intros e. apply rollback_handler_checked_out.
  - unfold teardownChangeNotifications. destruct (initialized w); [|reflexivity].
    cbn [negb]. apply released_after. apply se_try_frame.
    + apply se_bind_frame; [apply client_query_checked_out|]. intros _.
      apply se_bind_frame.
      { apply se_for_frame. intros t. apply client_query_checked_out. }
      intros _. apply se_bind_frame; [apply client_query_checked_out|reflexivity].
    + intros e. apply rollback_handler_checked_out.
Qed.

(** ** A tear-down that fails *)

Lemma client_query_kept (F : Faults) (st : statement) (w0 w : World) :
  st <> COMMIT -> kept w0 w -> is_Some (transaction w) ->
  kept w0 (fst (client_query F st w))
  /\ (st <> ROLLBACK -> is_Some (transaction (fst (client_query F st w)))).
Proof.
  intros Hst (Hc & Hi & Ht) [d Hd]. unfold client_query, kept.
  destruct (statement_fails F st).
  - destruct st; try congruence; cbn; rewrite ?Hd; (split; [tauto|eauto]).
  - destruct st; try congruence; cbn; unfold update_working; rewrite ?Hd; cbn;
      (split; [tauto|intros; eauto; congruence]).
Qed.

Lemma drop_triggers_kept (F : Faults) (l : list TriggerRecord) (w0 w : World) :
  kept w0 w -> is_Some (transaction w) ->
  kept w0 (fst (se_for l (λ t, client_query F
                            (DROP_TRIGGER_IF_EXISTS (name t) (schema t) (table t))) w))
  /\ is_Some (transaction
       (fst (se_for l (λ t, client_query F
                             (DROP_TRIGGER_IF_EXISTS (name t) (schema t) (table t))) w))).
Proof.
  revert w. induction l as [|x l IH]; intros w Hk Ht; [split; assumption|].
  cbn [se_for]. unfold se_bind.
  destruct (client_query_kept F (DROP_TRIGGER_IF_EXISTS (name x) (schema x) (table x))
              w0 w ltac:(discriminate) Hk Ht) as [Hk1 Ht1].
  specialize (Ht1 ltac:(discriminate)).
  destruct (client_query F _ w) as [w1 [[]|e]]; cbn [fst] in *; [|split; assumption].
  apply IH; assumption.
Qed.

Lemma drop_triggers_error (F : Faults) (l : list TriggerRecord) (w : World) (e : js_error) :
  snd (se_for l (λ t, client_query F
                        (DROP_TRIGGER_IF_EXISTS (name t) (schema t) (table t))) w)
  = Threw e ->
  e = PgError "statement failed".
Proof.
  revert w. induction l as [|x l IH]; intros w; [discriminate|].
  cbn [se_for]. rewrite se_bind_eq. unfold client_query at 1.
  destruct (statement_fails F _); cbn [snd]; [congruence|]. apply IH.
Qed.

(** The [try] block of the tear-down, when it throws. *)
Lemma teardown_body_throws (F : Faults) (l : list TriggerRecord) (w0 w : World) :
  kept w0 w ->
  forall e,
    snd ((do! _ := client_query F BEGIN in
          do! _ := se_for l (λ t, client_query F
                     (DROP_TRIGGER_IF_EXISTS (name t) (schema t) (table t))) in
          do! _ := client_query F COMMIT in
          se_modify (λ w, set_adapter false [] w)) w) = Threw e ->
    kept w0 (fst ((do! _ := client_query F BEGIN in
          do! _ := se_for l (λ t, client_query F
                     (DROP_TRIGGER_IF_EXISTS (name t) (schema t) (table t))) in
          do! _ := client_query F COMMIT in
          se_modify (λ w, set_adapter false [] w)) w))
    /\ e = PgError "statement failed".
Proof.
  intros Hk e. rewrite (se_bind_eq (client_query F BEGIN)).
  assert (Hb : kept w0 (fst (client_query F BEGIN w))
               /\ (snd (client_query F BEGIN w) = Returned tt ->
                   is_Some (transaction (fst (client_query F BEGIN w))))
               /\ (forall e, snd (client_query F BEGIN w) = Threw e ->
                             e = PgError "statement failed")).
  { unfold client_query. destruct (statement_fails F BEGIN); cbn.
    - split; [exact Hk|]. split; [discriminate|]. intros e' He. congruence.
    - destruct Hk as (Hc & Hi & Ht). unfold kept.
      destruct (transaction w) eqn:Htx; cbn; rewrite ?Htx;
        (split; [tauto|]); (split; [eauto|discriminate]). }
  destruct Hb as (Hk1 & Ht1 & He1).
  destruct (client_query F BEGIN w) as [w1 [[]|e1]]; cbn [fst snd] in *.
  2:{ intros He. split; [exact Hk1|]. injection He as <-. apply He1. reflexivity. }
  specialize (Ht1 eq_refl). rewrite se_bind_eq.
  destruct (drop_triggers_kept F l w0 w1 Hk1 Ht1) as [Hk2 Ht2].
  pose proof (drop_triggers_error F l w1) as He2.
  destruct (se_for l _ w1) as [w2 [[]|e2]]; cbn [fst snd] in *.
  2:{ intros He. split; [exact Hk2|]. injection He as <-. apply He2. reflexivity. }
  rewrite se_bind_eq. unfold client_query.
  destruct (statement_fails F COMMIT); cbn.
  - intros He. split; [|congruence]. destruct Hk2 as (Hc & Hi & Ht). split; [|split]; assumption.
  - discriminate.
Qed.

(** X6.  A tear-down that fails leaves the committed database, the
    initialized flag and the trigger records as they were, so that it can
    be called again; unless the pool gave no client or the roll-back
    failed as well, the failure is one wrapped error and no transaction
    stays open. *)
Theorem teardown_failure_keeps_records (F : Faults) (w : World) (e : js_error) :
  snd (teardownChangeNotifications F w) = Threw e ->
  committed (fst (teardownChangeNotifications F w)) = committed w
  /\ initialized (fst (teardownChangeNotifications F w)) = initialized w
  /\ triggers (fst (teardownChangeNotifications F w)) = triggers w
  /\ (pool_connect_fails F = false -> statement_fails F ROLLBACK = false ->
      e = DBChangeError "Failed to tear down change notifications"
            (PgError "statement failed")
      /\ transaction (fst (teardownChangeNotifications F w)) = None).
Proof.
  unfold teardownChangeNotifications. destruct (initialized w) eqn:Hi; [|discriminate].
  cbn [negb]. rewrite !(se_bind_eq (pool_connect F)). unfold pool_connect.
  destruct (pool_connect_fails F) eqn:Hp.
  { cbn. intros _. split; [reflexivity|]. split; [exact Hi|]. split; [reflexivity|].
    discriminate. }
  set (w0 := set_checked_out (S (checked_out w)) w).
  assert (Hk0 : kept w w0) by (repeat split).
  unfold se_finally, se_try.
  pose proof (teardown_body_throws F (triggers w) w w0 Hk0) as Hbody.
  destruct ((do! _ := client_query F BEGIN in _) w0) as [w1 [[]|e1]]; cbn [fst snd] in *.
  { unfold release, se_modify. discriminate. }
  destruct (Hbody e1 eq_refl) as [(Hc1 & Hi1 & Ht1) ->].
  rewrite !se_bind_eq. unfold client_query, se_throw, release, se_modify.
  destruct (statement_fails F ROLLBACK) eqn:Hr; cbn.
  - intros _. rewrite Hi in Hi1. split; [exact Hc1|]. split; [exact Hi1|].
    split; [exact Ht1|]. intros _. discriminate.
  - intros He. injection He as <-. rewrite Hi in Hi1. split; [exact Hc1|].
    split; [exact Hi1|]. split; [exact Ht1|]. intros _ _. split; reflexivity.
Qed.

(** X7.  When nothing fails, [setupChangeNotifications] on the tables
    the table query gives returns normally, sets the initialized flag,
    creates the notification function, installs for every table the
    trigger [db_change_notify_<schema>_<table>] and nothing else (the
    triggers installed before are still there), commits, and appends one
    record per table, in the order of the query, to [this.triggers]. *)
Theorem setup_installs_a_trigger_per_table (f : TableFilter) (ts : list TableRef)
    (w : World) :
  initialized w = false -> transaction w = None ->
  getTableList (catalog (committed w)) f = Returned ts ->
  Forall (λ t, named t = true) ts ->
  snd (setupChangeNotifications no_faults f w) = Returned tt
  /\ initialized (fst (setupChangeNotifications no_faults f w)) = true
  /\ triggers (fst (setupChangeNotifications no_faults f w))
     = (triggers w ++ (trigger_for <$> ts))%list
  /\ (forall r, r ∈ installed (committed (fst (setupChangeNotifications no_faults f w)))
                <-> r ∈ installed (committed w) \/ r ∈ trigger_for <$> ts)
  /\ notify_function (committed (fst (setupChangeNotifications no_faults f w))) = true
  /\ transaction (fst (setupChangeNotifications no_faults f w)) = None.
Proof.
  intros Hi Ht Hq Hn.
  destruct (setup_no_faults f ts w Hi Ht Hq Hn)
    as (w' & -> & Hi' & Htr' & Ht' & _ & _ & Hf' & Hin' & _).
  cbn [fst snd]. repeat split; try assumption; apply Hin'.
Qed.

Lemma setup_installs_a_trigger_per_table_witness :
  snd (setupChangeNotifications no_faults Inputs.no_filter
         (new_adapter Inputs.two_tables)) = Returned tt
  /\ triggers (fst (setupChangeNotifications no_faults Inputs.no_filter
                      (new_adapter Inputs.two_tables)))
     = [Inputs.trigger_on_a; Inputs.trigger_on_b].
Proof.
  destruct (setup_installs_a_trigger_per_table Inputs.no_filter
              [ {| ref_schema := "public"; ref_name := "a" |};
                {| ref_schema := "public"; ref_name := "b" |} ]
              (new_adapter Inputs.two_tables))
    as (Hr & _ & Htr & _).
  - reflexivity.
  - reflexivity.
  - vm_compute. reflexivity.
  - repeat constructor.
  - split; [exact Hr|exact Htr].
Defined.

(** X8.  When nothing fails, [teardownChangeNotifications] on an
    initialized adapter drops exactly the triggers recorded in
    [this.triggers]: every other installed trigger stays, in its place.
    It clears the records and the flag, and leaves the notification
    function in the database. *)
Theorem teardown_drops_the_recorded_triggers (w : World) :
  initialized w = true -> transaction w = None ->
  snd (teardownChangeNotifications no_faults w) = Returned tt
  /\ installed (committed (fst (teardownChangeNotifications no_faults w)))
     = List.filter (λ r, negb (bool_decide (r ∈ triggers w))) (installed (committed w))
  /\ notify_function (committed (fst (teardownChangeNotifications no_faults w)))
     = notify_function (committed w)
  /\ initialized (fst (teardownChangeNotifications no_faults w)) = false
  /\ triggers (fst (teardownChangeNotifications no_faults w)) = []
  /\ transaction (fst (teardownChangeNotifications no_faults w)) = None.
Proof.
  intros Hi Ht.
  destruct (teardown_no_faults w Hi Ht)
    as (w' & -> & Hi' & Htr' & Ht' & _ & _ & Hf' & Hin').
  cbn [fst snd]. repeat split; assumption.
Qed.

Lemma teardown_drops_the_recorded_triggers_witness :
  installed (committed (fst (teardownChangeNotifications no_faults
     (fst (setupChangeNotifications no_faults Inputs.include_b
             (new_adapter Inputs.two_tables_watched))))))
  = [Inputs.trigger_on_a].
Proof.
  destruct (teardown_drops_the_recorded_triggers
              (fst (setupChangeNotifications no_faults Inputs.include_b
                      (new_adapter Inputs.two_tables_watched))))
    as (_ & Hin & _).
  - reflexivity.
  - reflexivity.
  - rewrite Hin. vm_compute. reflexivity.
Defined.

(** X9.  A set-up followed by a tear-down, nothing failing, on a fresh
    adapter: when none of the triggers to install was there before, the
    installed triggers are back to what they were; the adapter is back to
    no records and not initialized; the notification function stays. *)
Theorem setup_then_teardown_restores_triggers (f : TableFilter) (ts : list TableRef)
    (w : World) :
  initialized w = false -> transaction w = None -> triggers w = [] ->
  getTableList (catalog (committed w)) f = Returned ts ->
  Forall (λ t, named t = true) ts ->
  (forall t, t ∈ ts -> trigger_for t ∉ installed (committed w)) ->
  snd (setupChangeNotifications no_faults f w) = Returned tt
  /\ snd (teardownChangeNotifications no_faults
            (fst (setupChangeNotifications no_faults f w))) = Returned tt
  /\ installed (committed (fst (teardownChangeNotifications no_faults
                                  (fst (setupChangeNotifications no_faults f w)))))
     = installed (committed w)
  /\ notify_function (committed (fst (teardownChangeNotifications no_faults
                                        (fst (setupChangeNotifications no_faults f w)))))
     = true
  /\ initialized (fst (teardownChangeNotifications no_faults
                         (fst (setupChangeNotifications no_faults f w)))) = false
  /\ triggers (fst (teardownChangeNotifications no_faults
                      (fst (setupChangeNotifications no_faults f w)))) = [].
Proof.
  intros Hi Ht Htr Hq Hn Hfresh.
  destruct (setup_no_faults f ts w Hi Ht Hq Hn)
    as (w1 & -> & Hi1 & Htr1 & Ht1 & _ & _ & Hf1 & _ & Hk1).
  cbn [fst snd].
  destruct (teardown_no_faults w1 Hi1 Ht1)
    as (w2 & -> & Hi2 & Htr2 & Ht2 & _ & _ & Hf2 & Hin2).
  cbn [fst snd]. split; [reflexivity|]. split; [reflexivity|].
  split; [|split; [congruence|split; assumption]].
  rewrite Hin2, Htr1, Htr. cbn [app].
  rewrite Hk1 by (intros t Hin; apply list_elem_of_fmap; exists t; split; [reflexivity|exact Hin]).
  clear - Hfresh. induction (installed (committed w)) as [|r l IH]; [reflexivity|].
  cbn [List.filter]. rewrite bool_decide_false.
  - cbn [negb]. f_equal. apply IH. intros t Hin Hr. apply (Hfresh t Hin). right. exact Hr.
  - intros Hr. apply list_elem_of_fmap in Hr as (t & -> & Hin).
    apply (Hfresh t Hin). left.
Qed.

Lemma setup_then_teardown_restores_triggers_witness :
  installed (committed (fst (teardownChangeNotifications no_faults
     (fst (setupChangeNotifications no_faults Inputs.include_b
             (new_adapter Inputs.two_tables_watched))))))
  = installed (committed (new_adapter Inputs.two_tables_watched))
  /\ notify_function (committed (fst (teardownChangeNotifications no_faults
       (fst (setupChangeNotifications no_faults Inputs.include_b
               (new_adapter Inputs.two_tables_watched))))))
     = true.
Proof.
  destruct (setup_then_teardown_restores_triggers Inputs.include_b
              [ {| ref_schema := "public"; ref_name := "b" |} ]
              (new_adapter Inputs.two_tables_watched))
    as (_ & _ & Hin & Hf & _).
  - reflexivity.
  - reflexivity.
  - reflexivity.
  - vm_compute. reflexivity.
  - repeat constructor.
  - intros t Ht. apply list_elem_of_singleton in Ht. subst t.
    intros Hin. apply list_elem_of_singleton in Hin. discriminate.
  - split; [exact Hin|exact Hf].
Defined.

Lemma teardown_failure_keeps_records_witness :
  committed (fst (teardownChangeNotifications Inputs.drops_fail Inputs.watching_two_tables))
  = committed Inputs.watching_two_tables
  /\ triggers (fst (teardownChangeNotifications Inputs.drops_fail
                      Inputs.watching_two_tables))
     = [Inputs.trigger_on_a; Inputs.trigger_on_b]
  /\ initialized (fst (teardownChangeNotifications Inputs.drops_fail
                         Inputs.watching_two_tables))
     = true.
Proof.
  destruct (teardown_failure_keeps_records Inputs.drops_fail Inputs.watching_two_tables
     (DBChangeError "Failed to tear down change notifications"
        (PgError "statement failed")))
    as (Hc & Hi & Ht & _).
  - vm_compute. reflexivity.
  - split; [exact Hc|]. split; [rewrite Ht|rewrite Hi]; vm_compute; reflexivity.
Defined.


(** ** Listening *)

(** X10.  When the listener cannot connect, [start] rejects with one
    wrapped error and the adapter is not listening; but it keeps the
    listener, whose retry is armed for 1000 ms.  [stop] on that adapter
    returns at once and changes nothing: the retry stays armed, and when
    it fires and the connection is made, the listener is connected on an
    adapter that is not listening. *)
Theorem failed_start_leaves_the_retry_armed (a : Listening)
    (o : Listener.disconnect_outcome) :
  isListening a = false ->
  snd (start Listener.ConnectFails a)
  = Threw (DBChangeError "Failed to start PostgreSQL adapter" (PgError "connection failed"))
  /\ isListening (fst (start Listener.ConnectFails a)) = false
  /\ (exists l,
        notificationListener (fst (start Listener.ConnectFails a)) = Some l
        /\ Listener.connected l = false
        /\ Listener.scheduled_delays l = [1000%Z]
        /\ Listener.connected
             (fst (Listener.connect_settle Listener.ConnectOk (Listener.timer_fires l)))
           = true)
  /\ stop o (fst (start Listener.ConnectFails a))
     = (fst (start Listener.ConnectFails a), Returned tt).
Proof.
  intros Ha. unfold start. rewrite Ha. cbn.
  split; [reflexivity|]. split; [reflexivity|]. split; [|reflexivity].
  eexists. split; [reflexivity|]. repeat split.
Qed.

Lemma failed_start_leaves_the_retry_armed_witness :
  isListening (fst (start Listener.ConnectFails not_listening)) = false
  /\ stop Listener.DisconnectOk (fst (start Listener.ConnectFails not_listening))
     = (fst (start Listener.ConnectFails not_listening), Returned tt)
  /\ exists l,
       notificationListener (fst (start Listener.ConnectFails not_listening)) = Some l
       /\ Listener.scheduled_delays l = [1000%Z].
Proof.
  destruct (failed_start_leaves_the_retry_armed not_listening Listener.DisconnectOk)
    as (_ & Hl & (l & Hn & _ & Hd & _) & Hs).
  - reflexivity.
  - split; [exact Hl|]. split; [exact Hs|]. exists l. split; [exact Hn|exact Hd].
Defined.

(** [stop] is [stop_during] with nothing happening to the listener. *)
Lemma adapter_stop_during_nothing (o : Listener.disconnect_outcome) (a : Listening) :
  stop_during [] o a = stop o a.
Proof.
  unfold stop_during, stop, Listener.disconnect. destruct (negb (isListening a)); [reflexivity|].
  destruct (notificationListener a) as [l|]; [|reflexivity].
  destruct (Listener.disconnect_begin l) as [l1 [|]]; cbn [Listener.run foldl];
    [|reflexivity].
  destruct (Listener.disconnect_settle o l1) as [l' [[]|[]]]; reflexivity.
Qed.

(** A [stop] that rejects leaves a listener that is not connected, and
    whose timers are as the event loop has them. *)
Lemma adapter_stop_during_rejects (mid : list Listener.event) (o : Listener.disconnect_outcome)
    (a : Listening) (l : Listener.State) (e : js_error) :
  isListening a = true -> notificationListener a = Some l -> Listener.timers_ok l ->
  snd (stop_during mid o a) = Threw e ->
  isListening (fst (stop_during mid o a)) = true
  /\ abandoned (fst (stop_during mid o a)) = abandoned a
  /\ exists l',
       notificationListener (fst (stop_during mid o a)) = Some l'
       /\ Listener.connected l' = false /\ Listener.client l' = None
       /\ Listener.timers_ok l'.
Proof.
  intros Hi Hl Hok. unfold stop_during. rewrite Hi, Hl. cbn [negb].
  pose proof (ListenerSpec.step_ok l Listener.CallDisconnect Hok) as Hok1.
  cbn [Listener.step] in Hok1.
  destruct (Listener.disconnect_begin l) as [l1 [|]]; cbn [fst] in Hok1;
    [|cbn; discriminate].
  pose proof (ListenerSpec.run_ok mid l1 Hok1) as Hok2.
  pose proof (ListenerSpec.step_ok (Listener.run mid l1) (Listener.DisconnectSettles o) Hok2)
    as Hok3.
  cbn [Listener.step] in Hok3. revert Hok3. unfold Listener.disconnect_settle.
  destruct (Listener.disconnecting (Listener.run mid l1)); [cbn; discriminate|].
  destruct o; cbn; [discriminate|]. intros Hok3 _.
  split; [reflexivity|]. split; [reflexivity|]. eexists. split; [reflexivity|].
  cbn. split; [reflexivity|]. split; [reflexivity|exact Hok3].
Qed.

(** [stop] on an adapter that counts as listening while its listener is
    not connected: it clears the listener's timer and returns normally. *)
Lemma adapter_stop_during_not_connected (mid : list Listener.event)
    (o : Listener.disconnect_outcome) (a : Listening) (l : Listener.State) :
  isListening a = true -> notificationListener a = Some l -> Listener.timers_ok l ->
  Listener.connected l = false ->
  snd (stop_during mid o a) = Returned tt
  /\ isListening (fst (stop_during mid o a)) = false
  /\ notificationListener (fst (stop_during mid o a)) = None
  /\ exists l',
       abandoned (fst (stop_during mid o a)) = (abandoned a ++ [l'])%list
       /\ Listener.connected l' = false /\ Listener.pending l' = [].
Proof.
  intros Hi Hl Hok Hc. unfold stop_during. rewrite Hi, Hl. cbn [negb].
  destruct (ListenerSpec.disconnect_begin_pending l Hok) as [Hp _].
  assert (Hb : snd (Listener.disconnect_begin l) = false
               /\ Listener.connected (fst (Listener.disconnect_begin l)) = false).
  { unfold Listener.disconnect_begin.
    destruct (Listener.reconnectTimeout l); cbn; rewrite ?Hc; cbn;
      (split; first [reflexivity|exact Hc]). }
  destruct Hb as [Hs Hc1].
  destruct (Listener.disconnect_begin l) as [l1 su]; cbn [fst snd] in *. subst su.
  split; [reflexivity|]. split; [reflexivity|]. split; [reflexivity|].
  exists l1. split; [reflexivity|]. split; [exact Hc1|exact Hp].
Qed.

(** X11.  [stop] after a [start] that succeeded.  When nothing happens to
    the listener while the disconnection is awaited: if it resolves, the
    adapter is not listening and refers to no listener, and the listener
    it let go is not connected and has no timer; if it rejects, [stop]
    rejects with one wrapped error and the adapter still counts as
    listening, although its listener is not connected, without client and
    without timer.  When a transport error is reported during the await,
    the listener is left with a retry armed for 1000 ms, whether [stop]
    then rejects (the adapter keeps the listener) or resolves (the adapter
    lets go of a listener that will connect again).  After a [stop] that
    rejected, whatever happened to the listener during it, a second [stop]
    returns normally without waiting, the adapter is not listening, and
    the listener is not connected and has no timer. *)
Theorem stop_can_be_called_again (a : Listening) (mid mid' : list Listener.event)
    (o o' : Listener.disconnect_outcome) (e : js_error) :
  isListening a = false ->
  isListening (fst (start Listener.ConnectOk a)) = true
  /\ (snd (stop_during [] Listener.DisconnectOk (fst (start Listener.ConnectOk a)))
      = Returned tt
      /\ isListening (fst (stop_during [] Listener.DisconnectOk
                             (fst (start Listener.ConnectOk a)))) = false
      /\ notificationListener (fst (stop_during [] Listener.DisconnectOk
                                      (fst (start Listener.ConnectOk a)))) = None
      /\ exists l,
           last (abandoned (fst (stop_during [] Listener.DisconnectOk
                                   (fst (start Listener.ConnectOk a))))) = Some l
           /\ Listener.connected l = false /\ Listener.pending l = [])
  /\ (snd (stop_during [] Listener.DisconnectFails (fst (start Listener.ConnectOk a)))
      = Threw (DBChangeError "Failed to stop PostgreSQL adapter"
                 (PgError "disconnect failed"))
      /\ isListening (fst (stop_during [] Listener.DisconnectFails
                             (fst (start Listener.ConnectOk a)))) = true
      /\ exists l,
           notificationListener (fst (stop_during [] Listener.DisconnectFails
                                        (fst (start Listener.ConnectOk a)))) = Some l
           /\ Listener.connected l = false /\ Listener.client l = None
           /\ Listener.pending l = [])
  /\ (exists l,
        notificationListener
          (fst (stop_during [Listener.TransportError] Listener.DisconnectFails
                  (fst (start Listener.ConnectOk a)))) = Some l
        /\ Listener.connected l = false
        /\ Listener.scheduled_delays l = [1000%Z])
  /\ (exists l,
        notificationListener
          (fst (stop_during [Listener.TransportError] Listener.DisconnectOk
                  (fst (start Listener.ConnectOk a)))) = None
        /\ last (abandoned (fst (stop_during [Listener.TransportError]
                                   Listener.DisconnectOk
                                   (fst (start Listener.ConnectOk a))))) = Some l
        /\ Listener.connected l = false
        /\ Listener.scheduled_delays l = [1000%Z])
  /\ (snd (stop_during mid o (fst (start Listener.ConnectOk a))) = Threw e ->
      snd (stop_during mid' o' (fst (stop_during mid o (fst (start Listener.ConnectOk a)))))
      = Returned tt
      /\ isListening (fst (stop_during mid' o'
                             (fst (stop_during mid o (fst (start Listener.ConnectOk a))))))
         = false
      /\ notificationListener
           (fst (stop_during mid' o'
                   (fst (stop_during mid o (fst (start Listener.ConnectOk a)))))) = None
      /\ exists l,
           last (abandoned
                   (fst (stop_during mid' o'
                           (fst (stop_during mid o (fst (start Listener.ConnectOk a)))))))
           = Some l
           /\ Listener.connected l = false /\ Listener.pending l = []).
Proof.
  intros Ha.
  assert (Hs : exists l0,
            fst (start Listener.ConnectOk a)
            = {| isListening := true; notificationListener := Some l0;
                 abandoned := (abandoned a ++ option_list (notificationListener a))%list |}
            /\ l0 = fst (Listener.connect Listener.ConnectOk Listener.init)).
  { unfold start. rewrite Ha. cbn. eexists. split; reflexivity. }
  destruct Hs as (l0 & Hs & Hl0). rewrite Hs.
  assert (Hok0 : Listener.timers_ok l0) by (subst l0; reflexivity).
  split; [reflexivity|]. split.
  { subst l0. cbn. split; [reflexivity|]. split; [reflexivity|]. split; [reflexivity|].
    eexists. rewrite last_snoc. split; [reflexivity|]. split; reflexivity. }
  split.
  { subst l0. cbn. split; [reflexivity|]. split; [reflexivity|].
    eexists. split; [reflexivity|]. repeat split. }
  split.
  { subst l0. cbn. eexists. split; [reflexivity|]. split; reflexivity. }
  split.
  { subst l0. cbn. eexists. split; [reflexivity|]. rewrite last_snoc.
    split; [reflexivity|]. split; reflexivity. }
  intros Hthrow.
  set (a1 := {| isListening := true; notificationListener := Some l0;
                abandoned := (abandoned a ++ option_list (notificationListener a))%list |})
    in *.
  destruct (adapter_stop_during_rejects mid o a1 l0 e eq_refl eq_refl Hok0 Hthrow)
    as (Hi & Hab & l' & Hn & Hc & _ & Hok').
  destruct (adapter_stop_during_not_connected mid' o' _ l' Hi Hn Hok' Hc)
    as (Hr & Hi2 & Hn2 & l2 & Hab2 & Hc2 & Hp2).
  split; [exact Hr|]. split; [exact Hi2|]. split; [exact Hn2|].
  exists l2. rewrite Hab2, last_snoc. split; [reflexivity|]. split; assumption.
Qed.

Lemma stop_can_be_called_again_witness :
  snd (stop_during [Listener.TransportError] Listener.DisconnectFails
         (fst (stop_during [Listener.TransportError] Listener.DisconnectFails
                 (fst (start Listener.ConnectOk not_listening)))))
  = Returned tt
  /\ isListening
       (fst (stop_during [Listener.TransportError] Listener.DisconnectFails
               (fst (stop_during [Listener.TransportError] Listener.DisconnectFails
                       (fst (start Listener.ConnectOk not_listening))))))
     = false.
Proof.
  destruct (stop_can_be_called_again not_listening [Listener.TransportError]
              [Listener.TransportError] Listener.DisconnectFails Listener.DisconnectFails
              (DBChangeError "Failed to stop PostgreSQL adapter"
                 (PgError "disconnect failed")))
    as (_ & _ & _ & _ & _ & H2).
  - reflexivity.
  - destruct H2 as (Hr & Hi & _); [reflexivity|]. split; [exact Hr|exact Hi].
Defined.

(** ** Error handlers *)

Lemma error_handler_calls_app (a b : list error_effect) :
  error_handler_calls (a ++ b) = (error_handler_calls a ++ error_handler_calls b)%list.
Proof. apply omap_app. Qed.

Lemma error_handler_failures_app (a b : list error_effect) :
  error_handler_failures (a ++ b)
  = (error_handler_failures a ++ error_handler_failures b)%list.
Proof. apply omap_app. Qed.

(** The loop over the handlers. *)
Lemma call_error_handlers_spec (i : nat) (hs : list ErrorHandler) (err : js_error)
    (tr : list error_effect) :
  snd (call_error_handlers i hs err tr) = Returned tt
  /\ error_handler_calls (fst (call_error_handlers i hs err tr))
     = (error_handler_calls tr ++ ((λ j, (j, err)) <$> seq i (length hs)))%list
  /\ error_handler_failures (fst (call_error_handlers i hs err tr))
     = (error_handler_failures tr
        ++ omap (λ h, match h err with Threw e => Some e | Returned _ => None end) hs)%list.
Proof.
  revert i tr. induction hs as [|h hs IH]; intros i tr.
  - cbn. rewrite !app_nil_r. repeat split.
  - cbn [call_error_handlers]. rewrite se_bind_eq.
    unfold se_try, se_bind, se_modify, se_lift.
    destruct (h err) as [[]|e] eqn:Hh;
      match goal with |- context [call_error_handlers (S i) hs err ?x] =>
        destruct (IH (S i) x) as (Hr & Hc & Hf)
      end;
      (split; [exact Hr|]); rewrite Hc, Hf;
      rewrite ?error_handler_calls_app, ?error_handler_failures_app;
      cbn [error_handler_calls error_handler_failures omap list_omap length seq fmap
           list_fmap app];
      rewrite ?Hh, ?app_nil_r, <- ?app_assoc; cbn [app]; split; reflexivity.
Qed.

(** X12.  [handleError] never throws, and calls every registered
    handler once with the error, in the order of registration, also
    after a handler has thrown; what a handler throws is logged and goes
    no further. *)
Theorem every_error_handler_is_called (hs : list ErrorHandler) (err : js_error)
    (tr : list error_effect) :
  snd (handleError hs err tr) = Returned tt
  /\ error_handler_calls (fst (handleError hs err tr))
     = (error_handler_calls tr ++ ((λ j, (j, err)) <$> seq 0 (length hs)))%list
  /\ error_handler_failures (fst (handleError hs err tr))
     = (error_handler_failures tr
        ++ omap (λ h, match h err with Threw e => Some e | Returned _ => None end) hs)%list.
Proof.
  unfold handleError. rewrite se_bind_eq. unfold se_modify.
  destruct (call_error_handlers_spec 0 hs err
              (tr ++ [ErrorLogged "PostgreSQL adapter error" err])) as (Hr & Hc & Hf).
  split; [exact Hr|]. rewrite Hc, Hf, error_handler_calls_app, error_handler_failures_app.
  cbn. rewrite !app_nil_r. split; reflexivity.
Qed.

(** ** From the trigger to the event *)

Lemma notify_payload_reads (op : TG_OP) (tg_table_schema tg_table_name : string)
    (new old : list (string * value)) (uuid : string) (epoch : Qc) :
  get (notify_payload op tg_table_schema tg_table_name new old uuid epoch) "id"
  = Returned (VString uuid)
  /\ get (notify_payload op tg_table_schema tg_table_name new old uuid epoch) "timestamp"
     = Returned (VNumber epoch)
  /\ get (notify_payload op tg_table_schema tg_table_name new old uuid epoch) "table"
     = Returned (VString tg_table_name)
  /\ get (notify_payload op tg_table_schema tg_table_name new old uuid epoch) "schema"
     = Returned (VString tg_table_schema).
Proof. destruct op; vm_compute; repeat split. Qed.

Section TriggerPayload.
Context `{JsRuntime}.
Variable database : string.
Variable handler : option Handler.
Variables generated now : string.

(** X13.  The event the adapter builds from what the trigger function
    sends stands for the change.  For a payload text that parses to the
    value [notify_db_changes] builds for an operation on a table, with a
    non-empty id and a non-zero epoch that is a date, the event has the id
    and the time of the payload (not generated ones), the operation of the
    trigger ([unknown] for an operation other than insert, update and
    delete), the schema and the table of the trigger, the new row for an
    insert or an update and [null] otherwise, and the old row for an
    update or a delete and [null] otherwise; this event, and no other, is
    handed to the registered handler. *)
Theorem trigger_payload_becomes_its_event (payload : string) (op : TG_OP)
    (tg_table_schema tg_table_name : string) (new old : list (string * value))
    (uuid iso : string) (epoch : Qc) :
  JSON_parse payload
  = Some (notify_payload op tg_table_schema tg_table_name new old uuid epoch) ->
  uuid <> "" -> epoch <> 0%Qc -> epoch_to_iso (VNumber epoch) = Some iso ->
  build_event database generated now payload
  = Returned (change_event database op tg_table_schema tg_table_name new old uuid iso)
  /\ snd (handleNotification database handler generated now payload []) = Returned tt
  /\ handed_over (fst (handleNotification database handler generated now payload []))
     = match handler with
       | Some _ => [change_event database op tg_table_schema tg_table_name new old uuid iso]
       | None => []
       end.
Proof.
  intros Hp Hu He Hiso.
  assert (Hb : build_event database generated now payload
               = Returned (change_event database op tg_table_schema tg_table_name
                             new old uuid iso)).
  { unfold build_event. rewrite Hp.
    destruct (notify_payload_reads op tg_table_schema tg_table_name new old uuid epoch)
      as (-> & -> & -> & ->).
    assert (Htu : truthy (VString uuid) = true)
      by (cbn; rewrite (bool_decide_false _ Hu); reflexivity).
    assert (Hte : truthy (VNumber epoch) = true)
      by (cbn; rewrite (bool_decide_false _ He); reflexivity).
    cbn [rbind]. rewrite Hte, Hiso. cbn [rbind]. unfold js_or at 1. rewrite Htu.
    destruct op; reflexivity. }
  split; [exact Hb|]. rewrite handleNotification_trace, Hb.
  destruct handler as [h|]; [destruct (h _) as [[]|]|]; split; reflexivity.
Qed.

End TriggerPayload.

Lemma trigger_payload_becomes_its_event_witness :
  @build_event Inputs.notification_runtime "demo_db" "generated" "now"
    Inputs.update_notification
  = Returned
      {| ev_id := VString "7f"; ev_timestamp := "2023-11-14T22:13:20.000Z";
         ev_operation := UPDATE; ev_database := "demo_db";
         ev_table := VString "users"; ev_schema := VString "public";
         ev_data_new := Some (VObject [("id", VNumber (Q2Qc 2))]);
         ev_data_old := Some (VObject [("id", VNumber (Q2Qc 1))]) |}.
Proof.
  apply (@trigger_payload_becomes_its_event Inputs.notification_runtime "demo_db"
           (Some Inputs.accepting_handler) "generated" "now" Inputs.update_notification
           TG_UPDATE "public" "users" [("id", VNumber (Q2Qc 2))] [("id", VNumber (Q2Qc 1))]
           "7f" "2023-11-14T22:13:20.000Z" (Q2Qc 1700000000)).
  - vm_compute. reflexivity.
  - discriminate.
  - intros Hq. apply (f_equal this) in Hq. vm_compute in Hq. discriminate.
  - reflexivity.
Defined.

End AdapterSpec.

(* ================================================================== *)
(** * Properties of the core notifier                                  *)
(* ================================================================== *)

Module NotifierSpec.
Import Notifier MonadFacts.

(** ** Fan-out delivery and its counters *)

Lemma all_resolve_spec (resolves : nat -> bool) (s : State) :
  all_resolve resolves s = true
  <-> forall i, i ∈ deliveryMechanisms s -> resolves i = true.
Proof.
  unfold all_resolve. rewrite forallb_forall. split.
  - intros Hall i Hi. apply Hall. apply list_elem_of_In.
    apply list_elem_of_fmap. exists i. split; [reflexivity|exact Hi].
  - intros Hall b Hb. apply list_elem_of_In, list_elem_of_fmap in Hb.
    destruct Hb as (i & -> & Hi). apply Hall, Hi.
Qed.

Lemma try_fan_out (resolves : nat -> bool) (p : payload) (msg : string) (s : State) :
  se_try
    (se_bind (deliver_to_all resolves p) (λ _, count_delivery true))
    (λ err, se_bind (count_delivery false) (λ _, se_modify (record (LoggedError msg)))) s
  = (fan_out resolves p msg s, Returned tt).
Proof.
  unfold se_try, se_bind, deliver_to_all, fan_out, all_resolve.
  destruct (forallb (λ b, b) (resolves <$> deliveryMechanisms s)); reflexivity.
Qed.

Lemma deliverEvent_eq (resolves : nat -> bool) (e : ChangeEvent) (s : State) :
  deliverEvent resolves e s
  = (fan_out resolves (Single e) "Failed to deliver event" s, Returned tt).
Proof. apply try_fan_out. Qed.

Lemma deliverBatch_eq (resolves : nat -> bool) (s : State) :
  deliverBatch resolves s
  = (match eventBuffer s with
     | [] => clear_batch_timer s
     | _ :: _ => fan_out resolves (Batch (eventBuffer s)) "Failed to deliver batch of events"
                         (set_buffer [] (clear_batch_timer s))
     end, Returned tt).
Proof.
  unfold deliverBatch.
  assert (Hb : eventBuffer (clear_batch_timer s) = eventBuffer s).
  { unfold clear_batch_timer. destruct (batchTimeout s); reflexivity. }
  rewrite Hb. destruct (eventBuffer s); [reflexivity|]. apply try_fan_out.
Qed.

Lemma fan_out_stats (resolves : nat -> bool) (p : payload) (msg : string) (s : State) :
  deliveryAttempts (stats (fan_out resolves p msg s)) = deliveryAttempts (stats s) + 1
  /\ deliverySuccesses (stats (fan_out resolves p msg s))
     = deliverySuccesses (stats s) + (if all_resolve resolves s then 1 else 0)
  /\ deliveryFailures (stats (fan_out resolves p msg s))
     = deliveryFailures (stats s) + (if all_resolve resolves s then 0 else 1)
  /\ eventsProcessed (stats (fan_out resolves p msg s)) = eventsProcessed (stats s).
Proof. unfold fan_out. destruct (all_resolve resolves s); repeat split. Qed.

Lemma fan_out_trace (resolves : nat -> bool) (p : payload) (msg : string) (s : State) :
  fanouts (trace (fan_out resolves p msg s))
  = (fanouts (trace s) ++ [(p, resolves <$> deliveryMechanisms s)])%list.
Proof.
  unfold fan_out, fanouts. destruct (all_resolve resolves s); simpl;
    rewrite !omap_app; simpl; rewrite ?app_nil_r; reflexivity.
Qed.

Lemma fan_out_frame (resolves : nat -> bool) (p : payload) (msg : string) (s : State) :
  config (fan_out resolves p msg s) = config s
  /\ eventBuffer (fan_out resolves p msg s) = eventBuffer s
  /\ batchTimeout (fan_out resolves p msg s) = batchTimeout s
  /\ pending (fan_out resolves p msg s) = pending s
  /\ deliveryMechanisms (fan_out resolves p msg s) = deliveryMechanisms s.
Proof. unfold fan_out. destruct (all_resolve resolves s); repeat split. Qed.

Lemma fan_out_counters (resolves : nat -> bool) (p : payload) (msg : string) (s : State) :
  counters_match s -> counters_match (fan_out resolves p msg s).
Proof.
  intros (Ha & Hf & Hs).
  destruct (fan_out_stats resolves p msg s) as (Ha' & Hs' & Hf' & _).
  unfold counters_match. rewrite fan_out_trace, Ha', Hs', Hf'.
  rewrite !List.filter_app, !length_app. cbn [List.filter length].
  unfold failed at 2 4. cbn [snd]. fold (all_resolve resolves s).
  destruct (all_resolve resolves s); cbn; lia.
Qed.

(** ** What each operation leaves alone *)

Lemma clear_batch_timer_frame (s : State) :
  config (clear_batch_timer s) = config s
  /\ eventBuffer (clear_batch_timer s) = eventBuffer s
  /\ stats (clear_batch_timer s) = stats s
  /\ trace (clear_batch_timer s) = trace s
  /\ deliveryMechanisms (clear_batch_timer s) = deliveryMechanisms s
  /\ batchTimeout (clear_batch_timer s) = None.
Proof.
  unfold clear_batch_timer. destruct (batchTimeout s) eqn:Hh; repeat split; assumption.
Qed.

Lemma batch_ok_timer_single (s : State) : batch_ok s -> timer_single s.
Proof.
  intros [(_ & Hh & Hp)|(_ & h & Hh & Hp)]; [left; split; assumption|].
  right. exists h. split; assumption.
Qed.

Lemma timer_single_named (s : State) : timer_single s -> timers_named s.
Proof.
  intros [(Hh & Hp)|(h & Hh & Hp)] t Ht; rewrite Hp in Ht.
  - apply elem_of_nil in Ht. contradiction.
  - apply list_elem_of_singleton in Ht. subst t. exact Hh.
Qed.

(** Clearing the timer leaves none armed. *)
Lemma clear_batch_timer_pending (s : State) :
  timers_named s -> pending (clear_batch_timer s) = [].
Proof.
  unfold clear_batch_timer, timers_named. intros Hn.
  destruct (batchTimeout s) as [h|] eqn:Hh.
  - simpl. destruct (filter (λ t, timer_id t ≠ h) (pending s)) as [|t rest] eqn:Hf;
      [reflexivity|].
    assert (Ht : t ∈ filter (λ t, timer_id t ≠ h) (pending s))
      by (rewrite Hf; apply list_elem_of_here).
    apply list_elem_of_filter in Ht as [Hne Ht].
    specialize (Hn t Ht). injection Hn as ->. exfalso. apply Hne. reflexivity.
  - destruct (pending s) as [|t rest]; [reflexivity|].
    specialize (Hn t (list_elem_of_here _ _)). discriminate.
Qed.

Lemma deliverBatch_idle (resolves : nat -> bool) (s : State) :
  timers_named s -> idle (fst (deliverBatch resolves s)).
Proof.
  intros Hok. rewrite deliverBatch_eq. cbn [fst].
  pose proof (clear_batch_timer_pending s Hok) as Hp.
  destruct (clear_batch_timer_frame s) as (_ & Hb & _ & _ & _ & Hh).
  destruct (eventBuffer s) eqn:Hbuf.
  - repeat split; assumption.
  - destruct (fan_out_frame resolves (Batch (c :: l)) "Failed to deliver batch of events"
                (set_buffer [] (clear_batch_timer s))) as (_ & Hb' & Hh' & Hp' & _).
    repeat split; [rewrite Hb' | rewrite Hh' | rewrite Hp']; simpl;
      first [reflexivity | assumption].
Qed.

Lemma deliverBatch_counters (resolves : nat -> bool) (s : State) :
  counters_match s -> counters_match (fst (deliverBatch resolves s)).
Proof.
  intros Hc. rewrite deliverBatch_eq. cbn [fst].
  destruct (clear_batch_timer_frame s) as (_ & _ & Hs & Ht & _).
  assert (Hc' : counters_match (clear_batch_timer s)).
  { unfold counters_match. rewrite Hs, Ht. exact Hc. }
  destruct (eventBuffer s); [exact Hc'|].
  apply fan_out_counters. exact Hc'.
Qed.

Lemma deliverBatch_config (resolves : nat -> bool) (s : State) :
  config (fst (deliverBatch resolves s)) = config s
  /\ deliveryMechanisms (fst (deliverBatch resolves s)) = deliveryMechanisms s.
Proof.
  rewrite deliverBatch_eq. cbn [fst].
  destruct (clear_batch_timer_frame s) as (Hc & _ & _ & _ & Hd & _).
  destruct (eventBuffer s); [split; assumption|].
  destruct (fan_out_frame resolves (Batch (c :: l)) "Failed to deliver batch of events"
              (set_buffer [] (clear_batch_timer s))) as (Hc' & _ & _ & _ & Hd').
  rewrite Hc', Hd'. split; assumption.
Qed.

(** [bufferEvent] below the batch size: the event joins the buffer, and
    the timer is armed unless one is armed already. *)
Lemma bufferEvent_below (resolves : nat -> bool) (e : ChangeEvent) (s : State) :
  (Z.of_nat (length (eventBuffer s) + 1) < batch_size s)%Z ->
  bufferEvent resolves e s
  = (match batchTimeout s with
     | Some _ => set_buffer (eventBuffer s ++ [e]) s
     | None =>
         set_timers (Some (next_timer s))
           (pending s ++ [ {| timer_id := next_timer s; timer_delay := batch_window s |} ])
           (S (next_timer s)) (set_buffer (eventBuffer s ++ [e]) s)
     end, Returned tt).
Proof.
  intros Hlt. unfold bufferEvent. cbn [config set_buffer eventBuffer batchTimeout].
  rewrite length_app. cbn [length].
  rewrite bool_decide_false by (unfold batch_size in Hlt; lia).
  destruct (batchTimeout s); [reflexivity|].
  destruct (eventBuffer s); reflexivity.
Qed.

(** [bufferEvent] reaching the batch size: the buffer, with the new event,
    is flushed. *)
Lemma bufferEvent_reach (resolves : nat -> bool) (e : ChangeEvent) (s : State) :
  (batch_size s <= Z.of_nat (length (eventBuffer s) + 1))%Z ->
  bufferEvent resolves e s = deliverBatch resolves (set_buffer (eventBuffer s ++ [e]) s).
Proof.
  intros Hle. unfold bufferEvent. cbn [config set_buffer eventBuffer batchTimeout].
  rewrite length_app. cbn [length].
  rewrite bool_decide_true by (unfold batch_size in Hle; lia). reflexivity.
Qed.

Lemma bufferEvent_ok (resolves : nat -> bool) (e : ChangeEvent) (s : State) :
  batch_ok s -> batch_ok (fst (bufferEvent resolves e s)).
Proof.
  intros Hok.
  destruct (Z_lt_le_dec (Z.of_nat (length (eventBuffer s) + 1)) (batch_size s)) as [Hlt|Hle].
  - rewrite (bufferEvent_below resolves e s Hlt). cbn [fst]. right.
    destruct Hok as [(Hb & Hh & Hp)|(Hb & h & Hh & Hp)]; rewrite Hh.
    + split; [simpl; rewrite Hb; discriminate|].
      exists (next_timer s). split; [reflexivity|]. simpl. rewrite Hp. reflexivity.
    + split; [simpl; intros Hnil; apply app_eq_nil in Hnil as [_ Hnil]; discriminate|].
      exists h. split; assumption.
  - rewrite (bufferEvent_reach resolves e s Hle). left. apply deliverBatch_idle.
    apply batch_ok_timer_single, timer_single_named in Hok. exact Hok.
Qed.

Lemma batch_ok_ext (s s' : State) :
  eventBuffer s' = eventBuffer s -> batchTimeout s' = batchTimeout s ->
  pending s' = pending s -> batch_window s' = batch_window s ->
  batch_ok s -> batch_ok s'.
Proof.
  intros Hb Hh Hp Hw. unfold batch_ok, idle, armed. rewrite Hb, Hh, Hp, Hw. exact id.
Qed.

Lemma counters_match_ext (s s' : State) :
  trace s' = trace s ->
  deliveryAttempts (stats s') = deliveryAttempts (stats s) ->
  deliverySuccesses (stats s') = deliverySuccesses (stats s) ->
  deliveryFailures (stats s') = deliveryFailures (stats s) ->
  counters_match s -> counters_match s'.
Proof.
  intros Ht Ha Hs Hf. unfold counters_match. rewrite Ht, Ha, Hs, Hf. exact id.
Qed.

Lemma bufferEvent_counters (resolves : nat -> bool) (e : ChangeEvent) (s : State) :
  counters_match s -> counters_match (fst (bufferEvent resolves e s)).
Proof.
  intros Hc.
  destruct (Z_lt_le_dec (Z.of_nat (length (eventBuffer s) + 1)) (batch_size s)) as [Hlt|Hle].
  - rewrite (bufferEvent_below resolves e s Hlt). cbn [fst].
    destruct (batchTimeout s); exact Hc.
  - rewrite (bufferEvent_reach resolves e s Hle). apply deliverBatch_counters. exact Hc.
Qed.

Lemma deliverEvent_ok (resolves : nat -> bool) (e : ChangeEvent) (s : State) :
  batch_ok s -> batch_ok (fst (deliverEvent resolves e s)).
Proof.
  rewrite deliverEvent_eq. cbn [fst].
  destruct (fan_out_frame resolves (Single e) "Failed to deliver event" s)
    as (Hc & Hb & Hh & Hp & _).
  apply batch_ok_ext; try assumption. unfold batch_window. rewrite Hc. reflexivity.
Qed.

Lemma batch_timer_fires_ok (resolves : nat -> bool) (s : State) :
  batch_ok s -> batch_ok (fst (batch_timer_fires resolves s)).
Proof.
  intros Hok. unfold batch_timer_fires.
  destruct (pending s) as [|t rest] eqn:Hp; [exact Hok|].
  left. apply deliverBatch_idle.
  destruct Hok as [(_ & _ & Hp')|(_ & h & Hh & Hp')]; [congruence|].
  rewrite Hp in Hp'. injection Hp' as _ ->.
  intros u Hu. simpl in Hu. apply elem_of_nil in Hu. contradiction.
Qed.

Lemma batch_timer_fires_counters (resolves : nat -> bool) (s : State) :
  counters_match s -> counters_match (fst (batch_timer_fires resolves s)).
Proof.
  intros Hc. unfold batch_timer_fires. destruct (pending s); [exact Hc|].
  apply deliverBatch_counters. exact Hc.
Qed.

Section Runs.
Context `{JsRuntime}.

Lemma updateEventStats_frame (e : ChangeEvent) (s : State) :
  snd (updateEventStats e s) = Returned tt
  /\ config (fst (updateEventStats e s)) = config s
  /\ eventBuffer (fst (updateEventStats e s)) = eventBuffer s
  /\ batchTimeout (fst (updateEventStats e s)) = batchTimeout s
  /\ pending (fst (updateEventStats e s)) = pending s
  /\ trace (fst (updateEventStats e s)) = trace s
  /\ deliveryMechanisms (fst (updateEventStats e s)) = deliveryMechanisms s
  /\ deliveryAttempts (stats (fst (updateEventStats e s))) = deliveryAttempts (stats s)
  /\ deliverySuccesses (stats (fst (updateEventStats e s))) = deliverySuccesses (stats s)
  /\ deliveryFailures (stats (fst (updateEventStats e s))) = deliveryFailures (stats s)
  /\ eventsProcessed (stats (fst (updateEventStats e s))) = eventsProcessed (stats s) + 1.
Proof. repeat split. Qed.

Lemma applyTransformations_frame (e : ChangeEvent) (s : State) :
  batchingEnabled (config (fst (applyTransformations e s))) = batchingEnabled (config s)
  /\ batchSize (config (fst (applyTransformations e s))) = batchSize (config s)
  /\ batchTimeWindowMs (config (fst (applyTransformations e s)))
     = batchTimeWindowMs (config s)
  /\ eventBuffer (fst (applyTransformations e s)) = eventBuffer s
  /\ batchTimeout (fst (applyTransformations e s)) = batchTimeout s
  /\ pending (fst (applyTransformations e s)) = pending s
  /\ trace (fst (applyTransformations e s)) = trace s
  /\ stats (fst (applyTransformations e s)) = stats s
  /\ deliveryMechanisms (fst (applyTransformations e s)) = deliveryMechanisms s.
Proof.
  unfold applyTransformations.
  destruct (transformations (config s)) as [[|t ts]|]; try (repeat split; fail).
  destruct (apply_loop (t :: ts) (ToString (ev_table e)) e). repeat split.
Qed.

(** [processEvent] in one piece. *)
Lemma processEvent_eq (resolves : nat -> bool) (e : ChangeEvent) (s : State) :
  processEvent resolves e s
  = match applyTransformations e (fst (updateEventStats e s)) with
    | (s2, Threw err) => (s2, Threw err)
    | (s2, Returned None) => (s2, Returned tt)
    | (s2, Returned (Some e')) =>
        if batchingEnabled (config s2)
        then bufferEvent resolves e' s2
        else deliverEvent resolves e' s2
    end.
Proof.
  unfold processEvent, se_bind. cbn [updateEventStats se_modify fst].
  destruct (applyTransformations e _) as [s2 [[e'|]|err]]; reflexivity.
Qed.

Lemma processEvent_ok (resolves : nat -> bool) (e : ChangeEvent) (s : State) :
  batch_ok s -> batch_ok (fst (processEvent resolves e s)).
Proof.
  intros Hok. rewrite processEvent_eq.
  destruct (updateEventStats_frame e s) as (_ & Hc1 & Hb1 & Hh1 & Hp1 & _).
  set (s1 := fst (updateEventStats e s)) in *.
  destruct (applyTransformations_frame e s1) as (_ & _ & Hw2 & Hb2 & Hh2 & Hp2 & _).
  assert (Hok2 : batch_ok (fst (applyTransformations e s1))).
  { apply (batch_ok_ext s); try congruence.
    unfold batch_window. rewrite Hw2, Hc1. reflexivity. }
  destruct (applyTransformations e s1) as [s2 [[e'|]|err]]; cbn [fst] in *;
    try exact Hok2.
  destruct (batchingEnabled (config s2)).
  - apply bufferEvent_ok, Hok2.
  - apply deliverEvent_ok, Hok2.
Qed.

Lemma processEvent_counters (resolves : nat -> bool) (e : ChangeEvent) (s : State) :
  counters_match s -> counters_match (fst (processEvent resolves e s)).
Proof.
  intros Hc. rewrite processEvent_eq.
  destruct (updateEventStats_frame e s) as (_ & _ & _ & _ & _ & Ht1 & _ & Ha1 & Hs1 & Hf1 & _).
  set (s1 := fst (updateEventStats e s)) in *.
  destruct (applyTransformations_frame e s1) as (_ & _ & _ & _ & _ & _ & Ht2 & Hst2 & _).
  assert (Hc2 : counters_match (fst (applyTransformations e s1))).
  { apply (counters_match_ext s); rewrite ?Hst2; congruence. }
  destruct (applyTransformations e s1) as [s2 [[e'|]|err]]; cbn [fst] in *;
    try exact Hc2.
  destruct (batchingEnabled (config s2)).
  - apply bufferEvent_counters, Hc2.
  - rewrite deliverEvent_eq. apply fan_out_counters, Hc2.
Qed.

(** Every state of a run is idle or armed, and its counters match its
    trace. *)
Lemma run_invariant (evs : list event) (s : State) :
  batch_ok s -> counters_match s ->
  batch_ok (run evs s) /\ counters_match (run evs s).
Proof.
  revert s. induction evs as [|ev evs IH]; intros s Hok Hc; [split; assumption|].
  simpl. apply IH; destruct ev; simpl.
  - apply processEvent_ok, Hok.
  - apply batch_timer_fires_ok, Hok.
  - apply processEvent_counters, Hc.
  - apply batch_timer_fires_counters, Hc.
Qed.

Lemma running_invariant (c : NotifierConfig) (sinks : list nat) :
  batch_ok (running c sinks) /\ counters_match (running c sinks).
Proof. split; [left|]; repeat split. Qed.

Lemma bufferEvent_config (resolves : nat -> bool) (e : ChangeEvent) (s : State) :
  config (fst (bufferEvent resolves e s)) = config s.
Proof.
  destruct (Z_lt_le_dec (Z.of_nat (length (eventBuffer s) + 1)) (batch_size s)) as [Hlt|Hle].
  - rewrite (bufferEvent_below resolves e s Hlt). destruct (batchTimeout s); reflexivity.
  - rewrite (bufferEvent_reach resolves e s Hle).
    apply (deliverBatch_config resolves (set_buffer (eventBuffer s ++ [e]) s)).
Qed.



End Runs.

(** ** Batching *)


Section Pipeline.
Context `{JsRuntime}.

(** C3. A fan-out delivery call, of one event or of a batch, returns
    normally and counts one attempt; it counts one success exactly when
    every configured sink resolves and one failure otherwise, however
    many sinks there are and however many of them resolved.  Over a whole
    run the three counters are the numbers of fan-out calls, of calls
    with a rejecting sink, and of calls without. *)
Theorem delivery_counted_once (c : NotifierConfig) (sinks : list nat) (evs : list event)
    (resolves : nat -> bool) (e : ChangeEvent) :
  (forall s,
     snd (deliverEvent resolves e s) = Returned tt
     /\ deliveryAttempts (stats (fst (deliverEvent resolves e s)))
        = deliveryAttempts (stats s) + 1
     /\ deliverySuccesses (stats (fst (deliverEvent resolves e s)))
        = deliverySuccesses (stats s) + (if all_resolve resolves s then 1 else 0)
     /\ deliveryFailures (stats (fst (deliverEvent resolves e s)))
        = deliveryFailures (stats s) + (if all_resolve resolves s then 0 else 1))
  /\ (forall s, eventBuffer s <> [] ->
     snd (deliverBatch resolves s) = Returned tt
     /\ deliveryAttempts (stats (fst (deliverBatch resolves s)))
        = deliveryAttempts (stats s) + 1
     /\ deliverySuccesses (stats (fst (deliverBatch resolves s)))
        = deliverySuccesses (stats s) + (if all_resolve resolves s then 1 else 0)
     /\ deliveryFailures (stats (fst (deliverBatch resolves s)))
        = deliveryFailures (stats s) + (if all_resolve resolves s then 0 else 1))
  /\ (forall s, all_resolve resolves s = true
                <-> forall i, i ∈ deliveryMechanisms s -> resolves i = true)
  /\ counters_match (run evs (running c sinks)).
Proof.
  split; [|split; [|split]].
  - intros s. rewrite deliverEvent_eq. cbn [fst snd].
    destruct (fan_out_stats resolves (Single e) "Failed to deliver event" s)
      as (Ha & Hs & Hf & _).
    repeat split; assumption.
  - intros s Hb. rewrite deliverBatch_eq. cbn [fst snd].
    destruct (eventBuffer s) as [|x l] eqn:Hbuf; [contradiction|].
    destruct (clear_batch_timer_frame s) as (_ & _ & Hst & _ & Hd & _).
    destruct (fan_out_stats resolves (Batch (x :: l)) "Failed to deliver batch of events"
                (set_buffer [] (clear_batch_timer s))) as (Ha & Hs & Hf & _).
    assert (Hall : all_resolve resolves (set_buffer [] (clear_batch_timer s))
                   = all_resolve resolves s).
    { unfold all_resolve. cbn [deliveryMechanisms set_buffer]. rewrite Hd. reflexivity. }
    rewrite Hall in Hs, Hf. cbn [stats set_buffer] in Ha, Hs, Hf.
    rewrite Hst in Ha, Hs, Hf. repeat split; assumption.
  - intros s. apply all_resolve_spec.
  - destruct (running_invariant c sinks) as [Hok Hc].
    apply (run_invariant evs _ Hok Hc).
Qed.


(** ** The transform pipeline *)

Lemma test_pattern_stateless (t : TransformationConfig) (subject : string) :
  stateless t = true -> test_pattern t subject = Returned (matches t subject, t).
Proof.
  unfold stateless, test_pattern, matches, RegExp_test.
  destruct t as [[src|r] f]; cbn [tablePattern transform pattern_source].
  - intros ->. reflexivity.
  - intros Hg. apply negb_true_iff in Hg. rewrite Hg. destruct r; reflexivity.
Qed.

(** With patterns that keep no state the loop applies, in the declared
    order, the transforms whose pattern matches the table of the incoming
    event, and leaves the transformations as they were. *)
Lemma apply_loop_stateless (ts : list TransformationConfig) (subject : string)
    (current : ChangeEvent) :
  Forall (λ t, stateless t = true) ts ->
  apply_loop ts subject current
  = (ts, Returned (pipeline (transform <$> List.filter (λ t, matches t subject) ts)
                            current)).
Proof.
  intros Hall. revert current. induction Hall as [|t ts Ht Hall IH]; intros current.
  - reflexivity.
  - cbn [apply_loop List.filter]. rewrite (test_pattern_stateless t subject Ht).
    destruct (matches t subject); cbn [fmap list_fmap pipeline].
    + destruct (transform t current) as [result|]; [|reflexivity].
      rewrite IH. reflexivity.
    + rewrite IH. reflexivity.
Qed.

Lemma applyTransformations_stateless (ts : list TransformationConfig) (e : ChangeEvent)
    (s : State) :
  transformations (config s) = Some ts ->
  Forall (λ t, stateless t = true) ts ->
  applyTransformations e s = (s, Returned (expected_pipeline ts e)).
Proof.
  intros Hts Hall. unfold applyTransformations, expected_pipeline. rewrite Hts.
  destruct ts as [|t ts]; [reflexivity|].
  rewrite (apply_loop_stateless (t :: ts) _ e Hall).
  f_equal. destruct s as [[be bs bw tr] ad dm ir st eb bt pe nt trc].
  cbn in Hts. subst tr. reflexivity.
Qed.

(** The part of C6 that holds.  While every pattern is a string the
    [RegExp] constructor accepts or a [RegExp] without the [g] flag, an
    event goes through the transforms whose pattern matches its table, in
    order; a [null] result means no delivery call at all, otherwise the
    final event is delivered once to the sinks; an event whose table no
    pattern matches is delivered as it came. *)
Lemma pipeline_with_stateless_patterns (ts : list TransformationConfig)
    (resolves : nat -> bool) (e : ChangeEvent) (s : State) :
  transformations (config s) = Some ts ->
  Forall (λ t, stateless t = true) ts ->
  batchingEnabled (config s) = false ->
  snd (processEvent resolves e s) = Returned tt
  /\ delivered (trace (fst (processEvent resolves e s)))
     = (delivered (trace s)
        ++ match expected_pipeline ts e with
           | Some e' => [Single e']
           | None => []
           end)%list
  /\ (Forall (λ t, matches t (ToString (ev_table e)) = false) ts ->
      expected_pipeline ts e = Some e).
Proof.
  intros Hts Hall Hbatch. rewrite processEvent_eq.
  destruct (updateEventStats_frame e s) as (_ & Hc1 & _ & _ & _ & Ht1 & _).
  set (s1 := fst (updateEventStats e s)) in *.
  rewrite (applyTransformations_stateless ts e s1) by (rewrite ?Hc1; assumption).
  rewrite Hc1, Hbatch.
  split; [|split].
  - destruct (expected_pipeline ts e); rewrite ?deliverEvent_eq; reflexivity.
  - destruct (expected_pipeline ts e) as [e'|]; rewrite ?deliverEvent_eq; cbn [fst].
    + unfold delivered. rewrite fan_out_trace, fmap_app, Ht1. reflexivity.
    + rewrite Ht1, app_nil_r. reflexivity.
  - intros Hnone. unfold expected_pipeline.
    replace (List.filter (λ t, matches t (ToString (ev_table e))) ts) with
      (@nil TransformationConfig); [reflexivity|].
    clear Hts Hall. induction Hnone as [|t ts' Ht Hn IH]; [reflexivity|].
    cbn [List.filter]. rewrite Ht. exact IH.
Qed.

End Pipeline.

(** C6 (the code departs from it).  The configuration holds one
    transformation, [redact] on the pattern [/users/g], and two inserts
    into [users] arrive.  The pattern matches the table name and the
    pipeline of the specification redacts both events; the code redacts
    the first and delivers the second with its password, because [test]
    left [lastIndex] at 5 and the next [test] starts there.  With the
    pattern given as the string ['users'] both events are redacted. *)
Theorem global_pattern_skips_second_event :
  @matches Inputs.literal_runtime Inputs.redact_users_g "users" = true
  /\ @expected_pipeline Inputs.literal_runtime [Inputs.redact_users_g]
       (Inputs.user_inserted "2")
     = Some (Inputs.user_redacted "2")
  /\ delivered (trace (@run Inputs.literal_runtime
       [EventArrives (Inputs.user_inserted "1") Inputs.all_sinks_ok;
        EventArrives (Inputs.user_inserted "2") Inputs.all_sinks_ok]
       (running (Inputs.unbatched [Inputs.redact_users_g]) [0])))
     = [Single (Inputs.user_redacted "1"); Single (Inputs.user_inserted "2")]
  /\ Inputs.user_inserted "2" <> Inputs.user_redacted "2"
  /\ delivered (trace (@run Inputs.literal_runtime
       [EventArrives (Inputs.user_inserted "1") Inputs.all_sinks_ok;
        EventArrives (Inputs.user_inserted "2") Inputs.all_sinks_ok]
       (running (Inputs.unbatched [Inputs.redact_users]) [0])))
     = [Single (Inputs.user_redacted "1"); Single (Inputs.user_redacted "2")].
Proof.
  split; [vm_compute; reflexivity|].
  split; [vm_compute; reflexivity|].
  split; [vm_compute; reflexivity|].
  split; [discriminate|].
  vm_compute. reflexivity.
Qed.

(** ** Cleanup *)

Lemma calls_app (a b : list action) : calls (a ++ b) = (calls a ++ calls b)%list.
Proof. apply List.filter_app. Qed.

Lemma fan_out_trace_full (resolves : nat -> bool) (p : payload) (msg : string) (s : State) :
  exists X, trace (fan_out resolves p msg s) = (trace s ++ X)%list
            /\ calls X = [Fanout p (resolves <$> deliveryMechanisms s)].
Proof.
  unfold fan_out. destruct (all_resolve resolves s); cbn [trace record count_delivery
    se_modify fst set_stats].
  - eexists. split; reflexivity.
  - eexists. rewrite <- app_assoc. split; reflexivity.
Qed.

Section CleanupFacts.
Variable co : CleanupOutcomes.

(** The flush at the start of [cleanup]. *)
Lemma cleanup_flush (s : State) :
  snd (flush_remaining co s) = Returned tt
  /\ exists s1 X,
       fst (flush_remaining co s) = s1
       /\ adapter s1 = adapter s /\ deliveryMechanisms s1 = deliveryMechanisms s
       /\ isRunning s1 = isRunning s
       /\ trace s1 = (trace s ++ X)%list
       /\ calls X = match eventBuffer s with
                    | [] => []
                    | _ :: _ => [Fanout (Batch (eventBuffer s))
                                        (flush_resolves co <$> deliveryMechanisms s)]
                    end.
Proof.
  unfold flush_remaining.
  destruct (eventBuffer s) as [|x l] eqn:Hb.
  - split; [reflexivity|]. exists s, []. rewrite app_nil_r. repeat split.
  - rewrite deliverBatch_eq, Hb. split; [reflexivity|]. cbn [fst].
    set (s0 := set_buffer [] (clear_batch_timer s)).
    destruct (fan_out_trace_full (flush_resolves co) (Batch (x :: l))
                "Failed to deliver batch of events" s0) as (X & Ht & Hc).
    destruct (clear_batch_timer_frame s) as (_ & _ & _ & Htr & Hd & _).
    assert (Ha : adapter (clear_batch_timer s) = adapter s
                 /\ isRunning (clear_batch_timer s) = isRunning s)
      by (unfold clear_batch_timer; destruct (batchTimeout s); split; reflexivity).
    destruct Ha as [Ha Hr].
    eexists _, X. split; [reflexivity|].
    unfold fan_out. destruct (all_resolve (flush_resolves co) s0) eqn:Hall;
      cbn [adapter deliveryMechanisms isRunning record count_delivery se_modify fst
           set_stats]; subst s0; cbn [adapter deliveryMechanisms isRunning set_buffer];
      (repeat split; try assumption);
      try (unfold fan_out in Ht; rewrite Hall in Ht; cbn [trace set_buffer] in Ht;
           rewrite <- Htr; exact Ht);
      cbn [deliveryMechanisms set_buffer] in Hc; rewrite Hd in Hc; exact Hc.
Qed.

(** The adapter part: [stop] is always called; the tear-down is called
    only when [stop] resolved. *)
Lemma cleanup_adapter_calls (s : State) :
  adapter s = true ->
  snd (cleanup_adapter co s) = Returned tt
  /\ exists s2 X,
       fst (cleanup_adapter co s) = s2
       /\ deliveryMechanisms s2 = deliveryMechanisms s
       /\ isRunning s2 = isRunning s
       /\ trace s2 = (trace s ++ X)%list
       /\ calls X = (AdapterStop :: if adapter_stop_ok co then [AdapterTeardown] else []).
Proof.
  intros Ha. unfold cleanup_adapter. rewrite Ha.
  unfold se_bind, se_try, adapter_stop, adapter_teardown, se_modify.
  destruct (adapter_stop_ok co); [destruct (adapter_teardown_ok co)|];
    (split; [reflexivity|]); eexists _, _; (split; [reflexivity|]);
    cbn [fst deliveryMechanisms isRunning trace set_lifecycle record];
    rewrite <- ?app_assoc; (split; [reflexivity|]); (split; [reflexivity|]);
    (split; [reflexivity|]); reflexivity.
Qed.

(** The closing of the sinks: every sink is closed, in order, whatever
    the others answer. *)
Lemma cleanup_sinks (sinks : list nat) (s : State) :
  snd (se_for sinks (close_logged co) s) = Returned tt
  /\ exists s3 X,
       fst (se_for sinks (close_logged co) s) = s3
       /\ adapter s3 = adapter s /\ isRunning s3 = isRunning s
       /\ trace s3 = (trace s ++ X)%list
       /\ calls X = SinkClose <$> sinks.
Proof.
  revert s. induction sinks as [|i sinks IH]; intros s.
  - split; [reflexivity|]. exists s, []. rewrite app_nil_r. repeat split.
  - cbn [se_for]. unfold se_bind.
    assert (Hone : close_logged co i s
                   = (if sink_close_ok co i then record (SinkClose i) s
                      else record (LoggedError "Error during delivery mechanism cleanup")
                             (record (SinkClose i) s), Returned tt)).
    { unfold close_logged, se_try, sink_close, se_modify.
      destruct (sink_close_ok co i); reflexivity. }
    rewrite Hone.
    match goal with |- context [se_for sinks (close_logged co) ?x] =>
      destruct (IH x) as (Hr & s3 & X & Hs & Ha & Hi & Ht & Hc)
    end.
    split; [exact Hr|]. rewrite Hs.
    destruct (sink_close_ok co i).
    + exists s3, (SinkClose i :: X). repeat split; try assumption.
      * rewrite Ht. cbn [trace record]. rewrite <- app_assoc. reflexivity.
      * cbn. unfold calls in Hc. rewrite Hc. reflexivity.
    + exists s3, (SinkClose i :: LoggedError "Error during delivery mechanism cleanup" :: X).
      repeat split; try assumption.
      * rewrite Ht. cbn [trace record]. rewrite <- !app_assoc. reflexivity.
      * cbn. unfold calls in Hc. rewrite Hc. reflexivity.
Qed.

(** What [stop] calls, in order, on a running notifier. *)
Lemma stop_calls (s : State) :
  isRunning s = true -> adapter s = true ->
  exists s4 X,
    stop co s = (s4, Returned tt)
    /\ isRunning s4 = false
    /\ trace s4 = (trace s ++ X)%list
    /\ calls X
       = (match eventBuffer s with
          | [] => []
          | _ :: _ => [Fanout (Batch (eventBuffer s))
                              (flush_resolves co <$> deliveryMechanisms s)]
          end
          ++ (AdapterStop :: if adapter_stop_ok co then [AdapterTeardown] else [])
          ++ (SinkClose <$> deliveryMechanisms s))%list.
Proof.
  intros Hrun Had. unfold stop. rewrite Hrun. cbn [negb].
  unfold cleanup, se_bind.
  destruct (cleanup_flush s) as (Hr1 & s1 & X1 & Hs1 & Ha1 & Hd1 & Hi1 & Ht1 & Hc1).
  destruct (flush_remaining co s) as [s1' [[]|e1]]; cbn [fst snd] in *; [|discriminate].
  subst s1'.
  destruct (cleanup_adapter_calls s1) as (Hr2 & s2 & X2 & Hs2 & Hd2 & Hi2 & Ht2 & Hc2);
    [congruence|].
  destruct (cleanup_adapter co s1) as [s2' [[]|e2]]; cbn [fst snd] in *; [|discriminate].
  subst s2'.
  destruct (cleanup_sinks (deliveryMechanisms s2) s2)
    as (Hr3 & s3 & X3 & Hs3 & Ha3 & Hi3 & Ht3 & Hc3).
  destruct (se_for (deliveryMechanisms s2) (close_logged co) s2) as [s3' [[]|e3]];
    cbn [fst snd] in *; [|discriminate].
  subst s3'. unfold se_modify.
  eexists _, (X1 ++ X2 ++ X3)%list. split; [reflexivity|].
  split; [reflexivity|]. split.
  - cbn [trace set_lifecycle].
    destruct (clear_batch_timer_frame (set_lifecycle (adapter s3) [] (isRunning s3) s3))
      as (_ & _ & _ & -> & _).
    cbn [trace set_lifecycle]. rewrite Ht3, Ht2, Ht1, <- !app_assoc. reflexivity.
  - rewrite !calls_app, Hc1, Hc2, Hc3, Hd2, Hd1. reflexivity.
Qed.

(** [stop] never rejects. *)
Lemma stop_never_rejects (s : State) : snd (stop co s) = Returned tt.
Proof.
  unfold stop. destruct (isRunning s); [|reflexivity]. cbn [negb].
  unfold cleanup, se_bind.
  destruct (cleanup_flush s) as (Hr1 & _).
  destruct (flush_remaining co s) as [s1 [[]|e1]]; cbn [fst snd] in *; [|discriminate].
  assert (Hr2 : snd (cleanup_adapter co s1) = Returned tt).
  { destruct (adapter s1) eqn:Ha; [apply cleanup_adapter_calls, Ha|].
    unfold cleanup_adapter. rewrite Ha. reflexivity. }
  destruct (cleanup_adapter co s1) as [s2 [[]|e2]]; cbn [fst snd] in *; [|discriminate].
  destruct (cleanup_sinks (deliveryMechanisms s2) s2) as (Hr3 & _).
  destruct (se_for (deliveryMechanisms s2) (close_logged co) s2) as [s3 [[]|e3]];
    cbn [fst snd] in *; [|discriminate].
  reflexivity.
Qed.

(** C9 (the code departs from it).  On a running notifier whose
    [adapter.stop()] rejects, [stop] returns normally and flushes the
    buffer, calls [adapter.stop()] and closes every sink, in this order,
    but never calls the tear-down of the adapter: the failure of one step
    has aborted another. *)
Theorem adapter_stop_failure_skips_teardown (s : State) :
  isRunning s = true -> adapter s = true -> adapter_stop_ok co = false ->
  snd (stop co s) = Returned tt
  /\ exists X,
       trace (fst (stop co s)) = (trace s ++ X)%list
       /\ calls X
          = (match eventBuffer s with
             | [] => []
             | _ :: _ => [Fanout (Batch (eventBuffer s))
                                 (flush_resolves co <$> deliveryMechanisms s)]
             end
             ++ [AdapterStop] ++ (SinkClose <$> deliveryMechanisms s))%list
       /\ AdapterTeardown ∉ X.
Proof.
  intros Hrun Had Hstop.
  destruct (stop_calls s Hrun Had) as (s4 & X & Heq & _ & Ht & Hc).
  rewrite Hstop in Hc. rewrite Heq. cbn [fst snd].
  split; [reflexivity|]. exists X. split; [exact Ht|]. split; [exact Hc|].
  intros Hin.
  assert (Hin' : AdapterTeardown ∈ calls X).
  { unfold calls. apply list_elem_of_In, List.filter_In. split; [|reflexivity].
    apply list_elem_of_In, Hin. }
  rewrite Hc in Hin'.
  rewrite !elem_of_app in Hin'. destruct Hin' as [Hf|[Hs|Hk]].
  - destruct (eventBuffer s); [apply elem_of_nil in Hf; contradiction|].
    apply list_elem_of_singleton in Hf. discriminate.
  - apply list_elem_of_singleton in Hs. discriminate.
  - apply list_elem_of_fmap in Hk as (i & Hi & _). discriminate.
Qed.

End CleanupFacts.

(** ** Instances on concrete inputs *)

Lemma delivery_counted_once_witness :
  snd (deliverBatch Inputs.sink_1_rejects Inputs.one_buffered) = Returned tt
  /\ deliveryAttempts (stats (fst (deliverBatch Inputs.sink_1_rejects
                                     Inputs.one_buffered)))
     = deliveryAttempts (stats Inputs.one_buffered) + 1
  /\ deliverySuccesses (stats (fst (deliverBatch Inputs.sink_1_rejects
                                      Inputs.one_buffered)))
     = deliverySuccesses (stats Inputs.one_buffered)
       + (if all_resolve Inputs.sink_1_rejects Inputs.one_buffered then 1 else 0)
  /\ deliveryFailures (stats (fst (deliverBatch Inputs.sink_1_rejects
                                     Inputs.one_buffered)))
     = deliveryFailures (stats Inputs.one_buffered)
       + (if all_resolve Inputs.sink_1_rejects Inputs.one_buffered then 0 else 1).
Proof.
  apply (@delivery_counted_once Inputs.literal_runtime Inputs.batches_of_two [0; 1] []
           Inputs.sink_1_rejects Inputs.order_inserted).
  discriminate.
Defined.


Lemma adapter_stop_failure_skips_teardown_witness :
  snd (stop Inputs.adapter_stop_rejects Inputs.one_buffered) = Returned tt
  /\ exists X,
       trace (fst (stop Inputs.adapter_stop_rejects Inputs.one_buffered))
       = (trace Inputs.one_buffered ++ X)%list
       /\ calls X
          = [Fanout (Batch [Inputs.order_inserted]) [true; true];
             AdapterStop; SinkClose 0; SinkClose 1]
       /\ AdapterTeardown ∉ X.
Proof.
  apply (adapter_stop_failure_skips_teardown Inputs.adapter_stop_rejects
           Inputs.one_buffered); reflexivity.
Defined.

(** ** Event statistics *)

Lemma bump_lookup (k k' : string) (m : gmap string nat) :
  default 0 (bump k m !! k')
  = default 0 (m !! k') + (if bool_decide (k = k') then 1 else 0).
Proof.
  unfold bump. case_bool_decide as Hk.
  - subst k'. rewrite lookup_insert_eq. reflexivity.
  - rewrite lookup_insert_ne by exact Hk. cbn. lia.
Qed.

Lemma bump_is_Some (k k' : string) (m : gmap string nat) :
  is_Some (m !! k') -> is_Some (bump k m !! k').
Proof.
  intros Hs. unfold bump. destruct (decide (k = k')) as [->|Hk].
  - rewrite lookup_insert_eq. eauto.
  - rewrite lookup_insert_ne by exact Hk. exact Hs.
Qed.

Lemma fan_out_event_stats (resolves : nat -> bool) (p : payload) (msg : string) (s : State) :
  eventsProcessed (stats (fan_out resolves p msg s)) = eventsProcessed (stats s)
  /\ eventsByOperation (stats (fan_out resolves p msg s)) = eventsByOperation (stats s)
  /\ eventsByTable (stats (fan_out resolves p msg s)) = eventsByTable (stats s).
Proof. unfold fan_out. destruct (all_resolve resolves s); repeat split. Qed.

Lemma deliverBatch_event_stats (resolves : nat -> bool) (s : State) :
  eventsProcessed (stats (fst (deliverBatch resolves s))) = eventsProcessed (stats s)
  /\ eventsByOperation (stats (fst (deliverBatch resolves s))) = eventsByOperation (stats s)
  /\ eventsByTable (stats (fst (deliverBatch resolves s))) = eventsByTable (stats s).
Proof.
  rewrite deliverBatch_eq. cbn [fst].
  destruct (clear_batch_timer_frame s) as (_ & _ & Hst & _).
  destruct (eventBuffer s); [rewrite Hst; repeat split|].
  destruct (fan_out_event_stats resolves (Batch (c :: l)) "Failed to deliver batch of events"
              (set_buffer [] (clear_batch_timer s))) as (-> & -> & ->).
  cbn [stats set_buffer]. rewrite Hst. repeat split.
Qed.

Lemma bufferEvent_event_stats (resolves : nat -> bool) (e : ChangeEvent) (s : State) :
  eventsProcessed (stats (fst (bufferEvent resolves e s))) = eventsProcessed (stats s)
  /\ eventsByOperation (stats (fst (bufferEvent resolves e s))) = eventsByOperation (stats s)
  /\ eventsByTable (stats (fst (bufferEvent resolves e s))) = eventsByTable (stats s).
Proof.
  destruct (Z_lt_le_dec (Z.of_nat (length (eventBuffer s) + 1)) (batch_size s)) as [Hlt|Hle].
  - rewrite (bufferEvent_below resolves e s Hlt). destruct (batchTimeout s); repeat split.
  - rewrite (bufferEvent_reach resolves e s Hle).
    apply (deliverBatch_event_stats resolves (set_buffer (eventBuffer s ++ [e]) s)).
Qed.

Section EventStats.
Context `{JsRuntime}.

(** What one step of a run does to the event counters. *)
Lemma step_event_stats (s : State) (ev : event) :
  eventsProcessed (stats (step s ev))
  = eventsProcessed (stats s) + length (arrivals [ev])
  /\ eventsByOperation (stats (step s ev))
     = match ev with
       | EventArrives e _ => bump (op_key (ev_operation e)) (eventsByOperation (stats s))
       | BatchTimerFires _ => eventsByOperation (stats s)
       end
  /\ eventsByTable (stats (step s ev))
     = match ev with
       | EventArrives e _ => bump (tableKey e) (eventsByTable (stats s))
       | BatchTimerFires _ => eventsByTable (stats s)
       end.
Proof.
  destruct ev as [e resolves|resolves]; cbn [step arrivals omap list_omap length].
  - rewrite processEvent_eq.
    set (s1 := fst (updateEventStats e s)).
    assert (H1 : eventsProcessed (stats s1) = eventsProcessed (stats s) + 1
                 /\ eventsByOperation (stats s1)
                    = bump (op_key (ev_operation e)) (eventsByOperation (stats s))
                 /\ eventsByTable (stats s1) = bump (tableKey e) (eventsByTable (stats s)))
      by (repeat split).
    destruct (applyTransformations_frame e s1) as (_ & _ & _ & _ & _ & _ & _ & Hst & _).
    destruct (applyTransformations e s1) as [s2 [[e'|]|err]]; cbn [fst] in *;
      try (rewrite Hst; exact H1).
    destruct (batchingEnabled (config s2)).
    + destruct (bufferEvent_event_stats resolves e' s2) as (-> & -> & ->).
      rewrite Hst. exact H1.
    + rewrite deliverEvent_eq. cbn [fst].
      destruct (fan_out_event_stats resolves (Single e') "Failed to deliver event" s2)
        as (-> & -> & ->).
      rewrite Hst. exact H1.
  - unfold batch_timer_fires. destruct (pending s); [repeat split; cbn; lia|].
    destruct (deliverBatch_event_stats resolves
                (set_timers (batchTimeout s) l (next_timer s) s)) as (-> & -> & ->).
    repeat split. cbn. lia.
Qed.

Lemma arrivals_cons (ev : event) (evs : list event) :
  arrivals (ev :: evs) = (arrivals [ev] ++ arrivals evs)%list.
Proof. unfold arrivals. destruct ev; reflexivity. Qed.

Lemma run_event_stats (evs : list event) (s : State) :
  eventsProcessed (stats (run evs s)) = eventsProcessed (stats s) + length (arrivals evs)
  /\ (forall k,
        default 0 (eventsByOperation (stats (run evs s)) !! k)
        = default 0 (eventsByOperation (stats s) !! k)
          + length (List.filter (λ e, bool_decide (op_key (ev_operation e) = k))
                                (arrivals evs)))
  /\ (forall k, is_Some (eventsByOperation (stats s) !! k) ->
                is_Some (eventsByOperation (stats (run evs s)) !! k))
  /\ (forall k,
        default 0 (eventsByTable (stats (run evs s)) !! k)
        = default 0 (eventsByTable (stats s) !! k)
          + length (List.filter (λ e, bool_decide (tableKey e = k)) (arrivals evs))).
Proof.
  revert s. induction evs as [|ev evs IH]; intros s.
  - cbn. repeat split; try lia. intros k Hk. exact Hk.
  - cbn [run foldl]. fold (run evs (step s ev)).
    destruct (IH (step s ev)) as (Hn & Ho & Hs & Ht).
    destruct (step_event_stats s ev) as (Hn1 & Ho1 & Ht1).
    rewrite (arrivals_cons ev evs).
    split; [rewrite Hn, Hn1, length_app; lia|]. split; [|split].
    + intros k. rewrite Ho, Ho1, List.filter_app, length_app.
      destruct ev as [e r|r]; cbn [arrivals omap list_omap List.filter app length].
      * rewrite bump_lookup. case_bool_decide; cbn [length]; lia.
      * lia.
    + intros k Hk. apply Hs. rewrite Ho1. destruct ev; [apply bump_is_Some|]; exact Hk.
    + intros k. rewrite Ht, Ht1, List.filter_app, length_app.
      destruct ev as [e r|r]; cbn [arrivals omap list_omap List.filter app length].
      * rewrite bump_lookup. case_bool_decide; cbn [length]; lia.
      * lia.
Qed.

(** X14.  Every event handed to [processEvent] is counted once, whatever
    becomes of it afterwards (dropped by a transform, buffered, delivered,
    rejected by a sink, or stopped by a pattern that does not compile):
    [eventsProcessed] is the number of events received, the counter of
    each operation is the number of events received with that operation,
    with all seven operations present from the start, and the counter of
    a table key is the number of events received with that key. *)
Theorem every_received_event_is_counted (c : NotifierConfig) (sinks : list nat)
    (evs : list event) :
  eventsProcessed (stats (run evs (running c sinks))) = length (arrivals evs)
  /\ (forall o,
        eventsByOperation (stats (run evs (running c sinks))) !! op_key o
        = Some (length (List.filter (λ e, bool_decide (ev_operation e = o))
                                    (arrivals evs))))
  /\ (forall k,
        default 0 (eventsByTable (stats (run evs (running c sinks))) !! k)
        = length (List.filter (λ e, bool_decide (tableKey e = k)) (arrivals evs))).
Proof.
  destruct (run_event_stats evs (running c sinks)) as (Hn & Ho & Hs & Ht).
  split; [exact Hn|]. split.
  - intros o. specialize (Ho (op_key o)).
    destruct (Hs (op_key o)) as [n Hn']; [destruct o; vm_compute; eauto|].
    rewrite Hn' in Ho |- *. f_equal.
    replace (default 0 (eventsByOperation (stats (running c sinks)) !! op_key o)) with 0
      in Ho by (destruct o; vm_compute; reflexivity).
    change (default 0 (Some n)) with n in Ho. rewrite Ho. cbn [Nat.add].
    f_equal. apply List.filter_ext. intros e.
    destruct (ev_operation e), o; reflexivity.
  - intros k. rewrite Ht. reflexivity.
Qed.

End EventStats.

(** ** From arrival to the sinks *)

Lemma delivered_events_app (a b : list action) :
  delivered_events (a ++ b) = (delivered_events a ++ delivered_events b)%list.
Proof.
  unfold delivered_events, delivered, fanouts.
  rewrite omap_app, !fmap_app, List.concat_app. reflexivity.
Qed.

Lemma fan_out_delivered_events (resolves : nat -> bool) (p : payload) (msg : string)
    (s : State) :
  delivered_events (trace (fan_out resolves p msg s))
  = (delivered_events (trace s) ++ payload_events p)%list.
Proof.
  unfold delivered_events, delivered. rewrite fan_out_trace, !fmap_app, List.concat_app.
  cbn. rewrite app_nil_r. reflexivity.
Qed.

(** A flush moves the buffer, as it is, to the sinks. *)
Lemma deliverBatch_conserves (resolves : nat -> bool) (s : State) :
  (delivered_events (trace (fst (deliverBatch resolves s)))
   ++ eventBuffer (fst (deliverBatch resolves s)))%list
  = (delivered_events (trace s) ++ eventBuffer s)%list.
Proof.
  rewrite deliverBatch_eq. cbn [fst].
  destruct (clear_batch_timer_frame s) as (_ & Hb & _ & Htr & _).
  destruct (eventBuffer s) as [|x l] eqn:Hbuf.
  - rewrite Hb, Htr. reflexivity.
  - rewrite fan_out_delivered_events.
    destruct (fan_out_frame resolves (Batch (x :: l)) "Failed to deliver batch of events"
                (set_buffer [] (clear_batch_timer s))) as (_ & -> & _).
    cbn [eventBuffer trace set_buffer payload_events]. rewrite Htr, app_nil_r. reflexivity.
Qed.

Lemma bufferEvent_conserves (resolves : nat -> bool) (e : ChangeEvent) (s : State) :
  (delivered_events (trace (fst (bufferEvent resolves e s)))
   ++ eventBuffer (fst (bufferEvent resolves e s)))%list
  = (delivered_events (trace s) ++ eventBuffer s ++ [e])%list.
Proof.
  destruct (Z_lt_le_dec (Z.of_nat (length (eventBuffer s) + 1)) (batch_size s)) as [Hlt|Hle].
  - rewrite (bufferEvent_below resolves e s Hlt). destruct (batchTimeout s); reflexivity.
  - rewrite (bufferEvent_reach resolves e s Hle).
    apply (deliverBatch_conserves resolves (set_buffer (eventBuffer s ++ [e]) s)).
Qed.

Lemma batch_timer_fires_conserves (resolves : nat -> bool) (s : State) :
  (delivered_events (trace (fst (batch_timer_fires resolves s)))
   ++ eventBuffer (fst (batch_timer_fires resolves s)))%list
  = (delivered_events (trace s) ++ eventBuffer s)%list.
Proof.
  unfold batch_timer_fires. destruct (pending s); [reflexivity|].
  apply (deliverBatch_conserves resolves (set_timers (batchTimeout s) l (next_timer s) s)).
Qed.

Lemma batch_timer_fires_config (resolves : nat -> bool) (s : State) :
  config (fst (batch_timer_fires resolves s)) = config s.
Proof.
  unfold batch_timer_fires. destruct (pending s); [reflexivity|].
  apply (deliverBatch_config resolves (set_timers (batchTimeout s) l (next_timer s) s)).
Qed.

Section Conservation.
Context `{JsRuntime}.

Lemma applyTransformations_accepted (e : ChangeEvent) (s : State) :
  stateless_patterns (config s) ->
  applyTransformations e s = (s, Returned (accepted (config s) e)).
Proof.
  unfold stateless_patterns, accepted. intros Hst.
  destruct (transformations (config s)) as [ts|] eqn:Hts.
  - apply applyTransformations_stateless; assumption.
  - unfold applyTransformations. rewrite Hts. reflexivity.
Qed.

(** One step of a run, while the patterns keep no state: the
    configuration stays, an unbatched notifier buffers nothing, and what
    the step accepts goes behind what was delivered or buffered before. *)
Lemma step_conserves (c : NotifierConfig) (s : State) (ev : event) :
  stateless_patterns c -> config s = c ->
  (batchingEnabled c = false -> eventBuffer s = []) ->
  config (step s ev) = c
  /\ (batchingEnabled c = false -> eventBuffer (step s ev) = [])
  /\ (delivered_events (trace (step s ev)) ++ eventBuffer (step s ev))%list
     = ((delivered_events (trace s) ++ eventBuffer s)
        ++ omap (accepted c) (arrivals [ev]))%list.
Proof.
  intros Hst Hc Hnb. destruct ev as [e resolves|resolves]; cbn [step].
  - rewrite processEvent_eq.
    rewrite (applyTransformations_accepted e (fst (updateEventStats e s)))
      by (cbn; rewrite Hc; exact Hst).
    cbn [updateEventStats se_modify fst config set_stats]. rewrite Hc.
    cbn [arrivals omap list_omap].
    destruct (accepted c e) as [e'|]; cbn [fst].
    2:{ rewrite app_nil_r. repeat split; assumption. }
    destruct (batchingEnabled c) eqn:Hb.
    + rewrite bufferEvent_config, bufferEvent_conserves. cbn [config set_stats].
      split; [exact Hc|]. split; [discriminate|].
      cbn [trace eventBuffer set_stats]. rewrite <- app_assoc. reflexivity.
    + rewrite deliverEvent_eq. cbn [fst].
      match goal with |- context [fan_out resolves ?p ?m ?x] =>
        destruct (fan_out_frame resolves p m x) as (-> & -> & _);
        rewrite (fan_out_delivered_events resolves p m x)
      end.
      cbn [config eventBuffer trace set_stats payload_events].
      rewrite (Hnb eq_refl), !app_nil_r. repeat split; assumption.
  - rewrite batch_timer_fires_config, batch_timer_fires_conserves.
    cbn [arrivals omap list_omap]. rewrite app_nil_r.
    split; [exact Hc|]. split; [|reflexivity].
    intros Hb. specialize (Hnb Hb).
    unfold batch_timer_fires. destruct (pending s); [exact Hnb|].
    rewrite deliverBatch_eq. cbn [fst eventBuffer set_timers]. rewrite Hnb.
    destruct (clear_batch_timer_frame (set_timers (batchTimeout s) l (next_timer s) s))
      as (_ & -> & _).
    exact Hnb.
Qed.




End Conservation.



(** ** After [stop] *)

Lemma fan_out_lifecycle (resolves : nat -> bool) (p : payload) (msg : string) (s : State) :
  adapter (fan_out resolves p msg s) = adapter s
  /\ isRunning (fan_out resolves p msg s) = isRunning s.
Proof. unfold fan_out. destruct (all_resolve resolves s); split; reflexivity. Qed.

Lemma deliverBatch_lifecycle (resolves : nat -> bool) (s : State) :
  adapter (fst (deliverBatch resolves s)) = adapter s
  /\ isRunning (fst (deliverBatch resolves s)) = isRunning s.
Proof.
  rewrite deliverBatch_eq. cbn [fst].
  assert (Hc : adapter (clear_batch_timer s) = adapter s
               /\ isRunning (clear_batch_timer s) = isRunning s)
    by (unfold clear_batch_timer; destruct (batchTimeout s); split; reflexivity).
  destruct (eventBuffer s); [exact Hc|].
  destruct (fan_out_lifecycle resolves (Batch (c :: l)) "Failed to deliver batch of events"
              (set_buffer [] (clear_batch_timer s))) as [-> ->].
  exact Hc.
Qed.

Lemma bufferEvent_lifecycle (resolves : nat -> bool) (e : ChangeEvent) (s : State) :
  adapter (fst (bufferEvent resolves e s)) = adapter s
  /\ isRunning (fst (bufferEvent resolves e s)) = isRunning s
  /\ deliveryMechanisms (fst (bufferEvent resolves e s)) = deliveryMechanisms s.
Proof.
  destruct (Z_lt_le_dec (Z.of_nat (length (eventBuffer s) + 1)) (batch_size s)) as [Hlt|Hle].
  - rewrite (bufferEvent_below resolves e s Hlt). destruct (batchTimeout s); repeat split.
  - rewrite (bufferEvent_reach resolves e s Hle).
    destruct (deliverBatch_lifecycle resolves (set_buffer (eventBuffer s ++ [e]) s))
      as [-> ->].
    destruct (deliverBatch_config resolves (set_buffer (eventBuffer s ++ [e]) s))
      as [_ ->].
    repeat split.
Qed.

Section AfterStop.
Context `{JsRuntime}.

Lemma step_lifecycle (s : State) (ev : event) :
  adapter (step s ev) = adapter s
  /\ isRunning (step s ev) = isRunning s
  /\ deliveryMechanisms (step s ev) = deliveryMechanisms s.
Proof.
  destruct ev as [e resolves|resolves]; cbn [step].
  - rewrite processEvent_eq.
    set (s1 := fst (updateEventStats e s)).
    assert (H2 : adapter (fst (applyTransformations e s1)) = adapter s
                 /\ isRunning (fst (applyTransformations e s1)) = isRunning s
                 /\ deliveryMechanisms (fst (applyTransformations e s1))
                    = deliveryMechanisms s).
    { unfold applyTransformations.
      destruct (transformations (config s1)) as [[|t ts]|]; try (repeat split; fail).
      destruct (apply_loop (t :: ts) (ToString (ev_table e)) e). repeat split. }
    destruct (applyTransformations e s1) as [s2 [[e'|]|err]]; cbn [fst] in *;
      try exact H2.
    destruct H2 as (Ha & Hr & Hd). destruct (batchingEnabled (config s2)).
    + destruct (bufferEvent_lifecycle resolves e' s2) as (-> & -> & ->).
      repeat split; assumption.
    + rewrite deliverEvent_eq. cbn [fst].
      destruct (fan_out_lifecycle resolves (Single e') "Failed to deliver event" s2)
        as [-> ->].
      destruct (fan_out_frame resolves (Single e') "Failed to deliver event" s2)
        as (_ & _ & _ & _ & ->).
      repeat split; assumption.
  - unfold batch_timer_fires. destruct (pending s); [repeat split|].
    destruct (deliverBatch_lifecycle resolves
                (set_timers (batchTimeout s) l (next_timer s) s)) as [-> ->].
    destruct (deliverBatch_config resolves
                (set_timers (batchTimeout s) l (next_timer s) s)) as [_ ->].
    repeat split.
Qed.

Lemma run_lifecycle (evs : list event) (s : State) :
  adapter (run evs s) = adapter s
  /\ isRunning (run evs s) = isRunning s
  /\ deliveryMechanisms (run evs s) = deliveryMechanisms s.
Proof.
  revert s. induction evs as [|ev evs IH]; intros s; [repeat split|].
  cbn [run foldl]. fold (run evs (step s ev)).
  destruct (IH (step s ev)) as (-> & -> & ->). apply step_lifecycle.
Qed.

End AfterStop.

(** The buffer and the timers through the parts of [cleanup] that do not
    concern them. *)
Lemma cleanup_adapter_batch (co : CleanupOutcomes) (s : State) :
  (eventBuffer (fst (cleanup_adapter co s)), batchTimeout (fst (cleanup_adapter co s)),
   pending (fst (cleanup_adapter co s)))
  = (eventBuffer s, batchTimeout s, pending s)
  /\ adapter (fst (cleanup_adapter co s)) = false.
Proof.
  unfold cleanup_adapter. destruct (adapter s) eqn:Ha; [|split; [reflexivity|exact Ha]].
  unfold se_bind, se_try, adapter_stop, adapter_teardown, se_modify.
  destruct (adapter_stop_ok co); [destruct (adapter_teardown_ok co)|]; split; reflexivity.
Qed.

Lemma close_sinks_batch (co : CleanupOutcomes) (sinks : list nat) (s : State) :
  (eventBuffer (fst (se_for sinks (close_logged co) s)),
   batchTimeout (fst (se_for sinks (close_logged co) s)),
   pending (fst (se_for sinks (close_logged co) s)))
  = (eventBuffer s, batchTimeout s, pending s).
Proof.
  revert s. apply (se_for_frame (λ s, (eventBuffer s, batchTimeout s, pending s))).
  intros i s. unfold close_logged, se_try, sink_close, se_modify.
  destruct (sink_close_ok co i); reflexivity.
Qed.

Lemma fanouts_calls (X : list action) : fanouts X = fanouts (calls X).
Proof.
  induction X as [|a X IH]; [reflexivity|].
  destruct a; cbn; unfold fanouts, calls in IH; rewrite ?IH; reflexivity.
Qed.

Lemma fanouts_closes (l : list nat) : fanouts (SinkClose <$> l) = [].
Proof. induction l as [|i l IH]; [reflexivity|exact IH]. Qed.

Section StopFacts.
Context `{JsRuntime}.

(** [stop] during which the event loop runs nothing else, on a notifier
    in any state of a run: the notifier is not running, holds no adapter
    and no sink, its buffer is empty and no timer is armed.  The events
    that were in the buffer have been handed to the sinks as one last
    batch.  A second [stop] changes nothing and returns normally. *)
Lemma stop_undisturbed (c : NotifierConfig) (sinks : list nat)
    (evs : list event) (co co' : CleanupOutcomes) :
  isRunning (fst (stop co (run evs (running c sinks)))) = false
  /\ adapter (fst (stop co (run evs (running c sinks)))) = false
  /\ deliveryMechanisms (fst (stop co (run evs (running c sinks)))) = []
  /\ eventBuffer (fst (stop co (run evs (running c sinks)))) = []
  /\ batchTimeout (fst (stop co (run evs (running c sinks)))) = None
  /\ pending (fst (stop co (run evs (running c sinks)))) = []
  /\ delivered (trace (fst (stop co (run evs (running c sinks)))))
     = (delivered (trace (run evs (running c sinks)))
        ++ match eventBuffer (run evs (running c sinks)) with
           | [] => []
           | _ :: _ => [Batch (eventBuffer (run evs (running c sinks)))]
           end)%list
  /\ stop co' (fst (stop co (run evs (running c sinks))))
     = (fst (stop co (run evs (running c sinks))), Returned tt).
Proof.
  destruct (running_invariant c sinks) as [Hok0 Hc0].
  destruct (run_invariant evs _ Hok0 Hc0) as [Hok _].
  destruct (run_lifecycle evs (running c sinks)) as (Ha & Hr & _).
  cbn [adapter isRunning running] in Ha, Hr.
  generalize dependent (run evs (running c sinks)). intros s Hok Ha Hr.
  destruct (stop_calls co s Hr Ha) as (s4 & X & Heq & Hr4 & Ht4 & Hc4).
  assert (Hrest : adapter (fst (stop co s)) = false
                  /\ deliveryMechanisms (fst (stop co s)) = []
                  /\ idle (fst (stop co s))).
  { unfold stop. rewrite Hr. cbn [negb]. unfold cleanup, se_bind.
    assert (Hf : idle (fst (flush_remaining co s))).
    { unfold flush_remaining. destruct Hok as [Hidle|(Hne & h & Hh & Hp)].
      - destruct Hidle as (Hb & Hh & Hp). rewrite Hb. repeat split; assumption.
      - destruct (eventBuffer s) eqn:Hb; [contradiction|].
        apply deliverBatch_idle. intros t Ht. rewrite Hp in Ht.
        apply list_elem_of_singleton in Ht. subst t. exact Hh. }
    pose proof (cleanup_flush co s) as (Hr1 & _).
    destruct (flush_remaining co s) as [s1 [[]|e1]]; cbn [fst snd] in *; [|discriminate].
    destruct (cleanup_adapter_batch co s1) as (Hb2 & Ha2).
    assert (Hr2 : snd (cleanup_adapter co s1) = Returned tt).
    { destruct (adapter s1) eqn:Ha1; [apply cleanup_adapter_calls, Ha1|].
      unfold cleanup_adapter. rewrite Ha1. reflexivity. }
    destruct (cleanup_adapter co s1) as [s2 [[]|e2]]; cbn [fst snd] in *; [|discriminate].
    pose proof (close_sinks_batch co (deliveryMechanisms s2) s2) as Hb3.
    destruct (cleanup_sinks co (deliveryMechanisms s2) s2)
      as (Hr3 & s3' & X3 & Hs3 & Ha3 & _).
    destruct (se_for (deliveryMechanisms s2) (close_logged co) s2) as [s3 [[]|e3]];
      cbn [fst snd] in *; [|discriminate].
    subst s3'. unfold se_modify. cbn [fst].
    injection Hb2 as Hb2 Hh2 Hp2. injection Hb3 as Hb3 Hh3 Hp3.
    destruct Hf as (Hfb & Hfh & Hfp).
    unfold clear_batch_timer. cbn [batchTimeout set_lifecycle]. rewrite Hh3, Hh2, Hfh.
    cbn [adapter deliveryMechanisms set_lifecycle].
    split; [congruence|]. split; [reflexivity|].
    unfold idle. cbn [eventBuffer batchTimeout pending set_lifecycle].
    repeat split; congruence. }
  destruct Hrest as (Ha' & Hd' & Hb' & Hh' & Hp').
  rewrite Heq in *. cbn [fst] in *.
  split; [exact Hr4|]. split; [exact Ha'|]. split; [exact Hd'|]. split; [exact Hb'|].
  split; [exact Hh'|]. split; [exact Hp'|]. split.
  - unfold delivered. rewrite Ht4. unfold fanouts at 1. rewrite omap_app, fmap_app.
    fold (fanouts (trace s)). fold (fanouts X). f_equal.
    rewrite (fanouts_calls X), Hc4. unfold fanouts. rewrite !omap_app.
    fold (fanouts (SinkClose <$> deliveryMechanisms s)). rewrite fanouts_closes.
    destruct (adapter_stop_ok co), (eventBuffer s); reflexivity.
  - unfold stop. rewrite Hr4. reflexivity.
Qed.

End StopFacts.

(** ** [stop] and the event loop *)

(** [deliverBatch] is its two halves, when nothing happens in between. *)
Lemma deliverBatch_split (resolves : nat -> bool) (s : State) :
  deliverBatch resolves s
  = match deliverBatch_begin resolves s with
    | (s1, Some ok) => (deliverBatch_settle ok s1, Returned tt)
    | (s1, None) => (s1, Returned tt)
    end.
Proof.
  unfold deliverBatch, deliverBatch_begin, deliverBatch_settle.
  destruct (eventBuffer (clear_batch_timer s)); [reflexivity|].
  unfold se_try, se_bind, deliver_to_all.
  destruct (forallb _ _); reflexivity.
Qed.

Section DuringStop.
Context `{JsRuntime}.

Lemma run_nil (s : State) : run [] s = s.
Proof. reflexivity. Qed.

Lemma run_app (a b : list event) (s : State) : run (a ++ b) s = run b (run a s).
Proof. unfold run. apply foldl_app. Qed.

Lemma run_batch_ok (evs : list event) (s : State) : batch_ok s -> batch_ok (run evs s).
Proof.
  revert s. induction evs as [|ev evs IH]; intros s Hs; [exact Hs|].
  apply IH. destruct ev; cbn [step].
  - apply processEvent_ok, Hs.
  - apply batch_timer_fires_ok, Hs.
Qed.

(** The books along a run: the configuration stays, and what was handed
    to the sinks followed by the buffer grows by the accepted arrivals. *)
Lemma run_books (c : NotifierConfig) (evs : list event) (s : State) :
  stateless_patterns c -> config s = c ->
  (batchingEnabled c = false -> eventBuffer s = []) ->
  config (run evs s) = c
  /\ (batchingEnabled c = false -> eventBuffer (run evs s) = [])
  /\ (delivered_events (trace (run evs s)) ++ eventBuffer (run evs s))%list
     = ((delivered_events (trace s) ++ eventBuffer s)
        ++ omap (accepted c) (arrivals evs))%list.
Proof.
  intros Hst. revert s. induction evs as [|ev evs IH]; intros s Hc Hb.
  - cbn. rewrite app_nil_r. repeat split; assumption.
  - destruct (step_conserves c s ev Hst Hc Hb) as (Hc1 & Hb1 & Hsum).
    destruct (IH (step s ev) Hc1 Hb1) as (Hc2 & Hb2 & Hsum2).
    change (run (ev :: evs) s) with (run evs (step s ev)).
    split; [exact Hc2|]. split; [exact Hb2|].
    rewrite Hsum2, Hsum, (arrivals_cons ev evs), omap_app, <- !app_assoc. reflexivity.
Qed.

Lemma delivered_snoc (a : action) (tr : list action) :
  match a with Fanout _ _ => False | _ => True end ->
  delivered (tr ++ [a]) = delivered tr.
Proof.
  intros Ha. unfold delivered, fanouts. rewrite omap_app.
  destruct a; try contradiction; cbn; rewrite app_nil_r; reflexivity.
Qed.

Lemma bookkeeping_record (a : action) (s : State) :
  match a with Fanout _ _ => False | _ => True end -> bookkeeping s (record a s).
Proof.
  intros Ha. unfold bookkeeping. cbn [config eventBuffer batchTimeout pending trace record].
  rewrite (delivered_snoc a _ Ha). repeat split.
Qed.

Lemma bookkeeping_lifecycle (a : bool) (l : list nat) (r : bool) (s : State) :
  bookkeeping s (set_lifecycle a l r s).
Proof. repeat split. Qed.

Lemma bookkeeping_count (ok : bool) (s : State) : bookkeeping s (fst (count_delivery ok s)).
Proof. repeat split. Qed.

Lemma interleaved_app (s s1 s2 : State) (m1 m2 : list event) :
  interleaved s m1 s1 -> interleaved s1 m2 s2 -> interleaved s (m1 ++ m2) s2.
Proof.
  intros H1 H2. induction H2 as [s1|s1 mids t1 t2 H2 IH Hw|s1 mids t1 mid H2 IH].
  - rewrite app_nil_r. exact H1.
  - eapply interleaved_write; [apply IH, H1|exact Hw].
  - rewrite app_assoc. apply interleaved_run. apply IH, H1.
Qed.

Lemma interleaved_one (s : State) (mid : list event) : interleaved s mid (run mid s).
Proof. apply (interleaved_run s [] s mid), interleaved_refl. Qed.

Lemma interleaved_batch_ok (s s' : State) (mids : list event) :
  interleaved s mids s' -> batch_ok s -> batch_ok s'.
Proof.
  intros Hi Hs. induction Hi as [s|s mids s1 s2 Hi IH (Hc & Hb & Hh & Hp & _)|s mids s1 mid Hi IH].
  - exact Hs.
  - apply (batch_ok_ext s1 s2 Hb Hh Hp); [unfold batch_window; rewrite Hc; reflexivity|].
    apply IH, Hs.
  - apply run_batch_ok, IH, Hs.
Qed.

Lemma interleaved_books (c : NotifierConfig) (s s' : State) (mids : list event) :
  stateless_patterns c ->
  interleaved s mids s' ->
  config s = c -> (batchingEnabled c = false -> eventBuffer s = []) ->
  config s' = c
  /\ (batchingEnabled c = false -> eventBuffer s' = [])
  /\ (delivered_events (trace s') ++ eventBuffer s')%list
     = ((delivered_events (trace s) ++ eventBuffer s)
        ++ omap (accepted c) (arrivals mids))%list.
Proof.
  intros Hst Hi Hc Hb.
  induction Hi as [s|s mids s1 s2 Hi IH (Hc2 & Hb2 & _ & _ & Hd2)|s mids s1 mid Hi IH].
  - cbn. rewrite app_nil_r. repeat split; assumption.
  - destruct (IH Hc Hb) as (Hc1 & Hb1 & Hsum).
    split; [congruence|]. split; [intros Hn; rewrite Hb2; apply Hb1, Hn|].
    unfold delivered_events in *. rewrite Hd2, Hb2. exact Hsum.
  - destruct (IH Hc Hb) as (Hc1 & Hb1 & Hsum).
    destruct (run_books c mid s1 Hst Hc1 Hb1) as (Hc2 & Hb2 & Hsum2).
    split; [exact Hc2|]. split; [exact Hb2|].
    rewrite Hsum2, Hsum. unfold arrivals. rewrite omap_app, omap_app, <- !app_assoc.
    reflexivity.
Qed.

Variable co : CleanupOutcomes.
Variable mw : Meanwhile.

(** The adapter part of [cleanup]. *)
Lemma cleanup_adapter_during_spec (s : State) :
  snd (cleanup_adapter_during co mw s) = Returned tt
  /\ adapter (fst (cleanup_adapter_during co mw s)) = false
  /\ deliveryMechanisms (fst (cleanup_adapter_during co mw s)) = deliveryMechanisms s
  /\ isRunning (fst (cleanup_adapter_during co mw s)) = isRunning s
  /\ interleaved s
       (if adapter s
        then during_adapter_stop mw
             ++ (if adapter_stop_ok co then during_adapter_teardown mw else [])
        else [])%list
       (fst (cleanup_adapter_during co mw s)).
Proof.
  unfold cleanup_adapter_during. destruct (adapter s) eqn:Ha.
  2:{ cbn. repeat split; try assumption. apply interleaved_refl. }
  unfold se_bind, se_try, awaited, adapter_stop, adapter_teardown, se_modify.
  set (s1 := run (during_adapter_stop mw) (record AdapterStop s)).
  assert (H1 : interleaved s (during_adapter_stop mw) s1).
  { apply (interleaved_app s (record AdapterStop s) s1 []).
    - eapply interleaved_write; [apply interleaved_refl|]. apply bookkeeping_record. exact I.
    - apply interleaved_one. }
  destruct (run_lifecycle (during_adapter_stop mw) (record AdapterStop s)) as (_ & Hr1 & Hd1).
  fold s1 in Hr1, Hd1. cbn [isRunning deliveryMechanisms record] in Hr1, Hd1.
  destruct (adapter_stop_ok co).
  - set (s2 := run (during_adapter_teardown mw) (record AdapterTeardown s1)).
    assert (H2 : interleaved s (during_adapter_stop mw ++ during_adapter_teardown mw) s2).
    { apply (interleaved_app s s1 s2 _ _ H1).
      apply (interleaved_app s1 (record AdapterTeardown s1) s2 []).
      - eapply interleaved_write; [apply interleaved_refl|]. apply bookkeeping_record.
        exact I.
      - apply interleaved_one. }
    destruct (run_lifecycle (during_adapter_teardown mw) (record AdapterTeardown s1))
      as (_ & Hr2 & Hd2).
    fold s2 in Hr2, Hd2. cbn [isRunning deliveryMechanisms record] in Hr2, Hd2.
    destruct (adapter_teardown_ok co); cbn [fst snd];
      (split; [reflexivity|]); (split; [reflexivity|]);
      cbn [deliveryMechanisms isRunning set_lifecycle record];
      (split; [congruence|]); (split; [congruence|]).
    + eapply interleaved_write; [exact H2|]. apply bookkeeping_lifecycle.
    + eapply interleaved_write; [|apply bookkeeping_lifecycle].
      eapply interleaved_write; [exact H2|]. apply bookkeeping_record. exact I.
  - cbn [fst snd]. split; [reflexivity|]. split; [reflexivity|].
    cbn [deliveryMechanisms isRunning set_lifecycle record].
    split; [congruence|]. split; [congruence|]. rewrite app_nil_r.
    eapply interleaved_write; [|apply bookkeeping_lifecycle].
    eapply interleaved_write; [exact H1|]. apply bookkeeping_record. exact I.
Qed.

(** The closing of the sinks. *)
Lemma close_sinks_during_spec (sinks : list nat) (s : State) :
  snd (se_for sinks (close_logged_during co mw) s) = Returned tt
  /\ adapter (fst (se_for sinks (close_logged_during co mw) s)) = adapter s
  /\ deliveryMechanisms (fst (se_for sinks (close_logged_during co mw) s))
     = deliveryMechanisms s
  /\ isRunning (fst (se_for sinks (close_logged_during co mw) s)) = isRunning s
  /\ interleaved s (List.concat (during_close mw <$> sinks))
       (fst (se_for sinks (close_logged_during co mw) s)).
Proof.
  revert s. induction sinks as [|i sinks IH]; intros s.
  - cbn. repeat split. apply interleaved_refl.
  - cbn [se_for fmap list_fmap List.concat]. rewrite se_bind_eq.
    set (s1 := run (during_close mw i) (record (SinkClose i) s)).
    destruct (run_lifecycle (during_close mw i) (record (SinkClose i) s)) as (Ha1 & Hr1 & Hd1).
    fold s1 in Ha1, Hr1, Hd1. cbn [adapter isRunning deliveryMechanisms record] in Ha1, Hr1, Hd1.
    assert (H1 : interleaved s (during_close mw i) s1).
    { apply (interleaved_app s (record (SinkClose i) s) s1 []).
      - eapply interleaved_write; [apply interleaved_refl|]. apply bookkeeping_record.
        exact I.
      - apply interleaved_one. }
    assert (Hone : exists s2,
              close_logged_during co mw i s = (s2, Returned tt)
              /\ adapter s2 = adapter s /\ deliveryMechanisms s2 = deliveryMechanisms s
              /\ isRunning s2 = isRunning s
              /\ interleaved s (during_close mw i) s2).
    { unfold close_logged_during, se_try, awaited, sink_close, se_modify. fold s1.
      destruct (sink_close_ok co i).
      - exists s1. repeat split; assumption.
      - eexists. split; [reflexivity|]. cbn [adapter deliveryMechanisms isRunning record].
        repeat split; try assumption.
        eapply interleaved_write; [exact H1|]. apply bookkeeping_record. exact I. }
    destruct Hone as (s2 & -> & Ha2 & Hd2 & Hr2 & Hi2).
    destruct (IH s2) as (Hr & Ha & Hd & Hrun & Hi).
    split; [exact Hr|]. split; [congruence|]. split; [congruence|]. split; [congruence|].
    apply (interleaved_app s s2 _ _ _ Hi2 Hi).
Qed.

(** The last batch. *)
Lemma flush_remaining_during_spec (s : State) :
  batch_ok s ->
  snd (flush_remaining_during co mw s) = Returned tt
  /\ adapter (fst (flush_remaining_during co mw s)) = adapter s
  /\ deliveryMechanisms (fst (flush_remaining_during co mw s)) = deliveryMechanisms s
  /\ isRunning (fst (flush_remaining_during co mw s)) = isRunning s
  /\ exists s0,
       batch_ok s0 /\ config s0 = config s /\ eventBuffer s0 = []
       /\ delivered (trace s0)
          = (delivered (trace s)
             ++ match eventBuffer s with
                | [] => []
                | _ :: _ => [Batch (eventBuffer s)]
                end)%list
       /\ interleaved s0
            (match eventBuffer s with [] => [] | _ :: _ => during_flush mw end)
            (fst (flush_remaining_during co mw s)).
Proof.
  intros Hok. unfold flush_remaining_during.
  destruct (eventBuffer s) as [|e0 es] eqn:Hb.
  - cbn [fst snd]. repeat split. exists s. rewrite app_nil_r.
    repeat split; try assumption. apply interleaved_refl.
  - pose proof (deliverBatch_idle (flush_resolves co) s
                  (timer_single_named s (batch_ok_timer_single s Hok))) as Hidle.
    rewrite deliverBatch_split in Hidle.
    assert (Hbegin : exists s0 ok,
              deliverBatch_begin (flush_resolves co) s = (s0, Some ok)
              /\ s0 = record (Fanout (Batch (e0 :: es))
                                     (flush_resolves co <$> deliveryMechanisms s))
                             (set_buffer [] (clear_batch_timer s))).
    { unfold deliverBatch_begin.
      destruct (clear_batch_timer_frame s) as (_ & Hb1 & _ & _ & Hd1 & _).
      rewrite Hb1, Hb. unfold deliver_to_all.
      cbn [deliveryMechanisms set_buffer]. rewrite Hd1.
      destruct (forallb _ _); eexists _, _; split; reflexivity. }
    destruct Hbegin as (s0 & ok & Hbeg & Hs0). rewrite Hbeg in Hidle |- *.
    cbn [fst snd] in *.
    assert (Hset : bookkeeping s0 (deliverBatch_settle ok s0)
                   /\ adapter (deliverBatch_settle ok s0) = adapter s0
                   /\ deliveryMechanisms (deliverBatch_settle ok s0) = deliveryMechanisms s0
                   /\ isRunning (deliverBatch_settle ok s0) = isRunning s0).
    { unfold deliverBatch_settle. destruct ok; repeat split. unfold bookkeeping.
      cbn [config eventBuffer batchTimeout pending trace record].
      rewrite delivered_snoc; [|exact I]. repeat split. }
    assert (Hidle0 : idle s0).
    { destruct Hset as ((_ & Hb' & Hh' & Hp' & _) & _).
      destruct Hidle as (Hi1 & Hi2 & Hi3). unfold idle. rewrite <- Hb', <- Hh', <- Hp'.
      repeat split; assumption. }
    assert (Hsettle : forall t,
              bookkeeping t (deliverBatch_settle ok t)
              /\ adapter (deliverBatch_settle ok t) = adapter t
              /\ deliveryMechanisms (deliverBatch_settle ok t) = deliveryMechanisms t
              /\ isRunning (deliverBatch_settle ok t) = isRunning t).
    { intros t. unfold deliverBatch_settle. destruct ok; repeat split. unfold bookkeeping.
      cbn [config eventBuffer batchTimeout pending trace record].
      rewrite delivered_snoc; [|exact I]. repeat split. }
    destruct (run_lifecycle (during_flush mw) s0) as (Ha1 & Hr1 & Hd1).
    destruct (Hsettle (run (during_flush mw) s0)) as (Hbk & Ha2 & Hd2 & Hr2).
    assert (Hl0 : adapter s0 = adapter s /\ isRunning s0 = isRunning s
                  /\ deliveryMechanisms s0 = deliveryMechanisms s)
      by (subst s0; unfold clear_batch_timer; destruct (batchTimeout s); repeat split).
    destruct Hl0 as (Ha3 & Hr3 & Hd3).
    split; [reflexivity|]. split; [congruence|]. split; [congruence|]. split; [congruence|].
    exists s0. split; [left; exact Hidle0|].
    destruct (clear_batch_timer_frame s) as (Hc1 & _ & _ & Ht1 & _).
    split; [subst s0; cbn; exact Hc1|]. split; [apply Hidle0|]. split.
    + subst s0. cbn [trace record set_buffer]. unfold delivered, fanouts.
      rewrite omap_app, fmap_app, Ht1. reflexivity.
    + eapply interleaved_write; [apply interleaved_one|exact Hbk].
Qed.

(** [cleanup], whatever the event loop runs during its awaits. *)
Lemma cleanup_during_spec (s : State) :
  batch_ok s ->
  snd (cleanup_during co mw s) = Returned tt
  /\ adapter (fst (cleanup_during co mw s)) = false
  /\ deliveryMechanisms (fst (cleanup_during co mw s)) = []
  /\ isRunning (fst (cleanup_during co mw s)) = isRunning s
  /\ batchTimeout (fst (cleanup_during co mw s)) = None
  /\ pending (fst (cleanup_during co mw s)) = []
  /\ exists s0 s3,
       config s0 = config s /\ eventBuffer s0 = []
       /\ delivered (trace s0)
          = (delivered (trace s)
             ++ match eventBuffer s with
                | [] => []
                | _ :: _ => [Batch (eventBuffer s)]
                end)%list
       /\ interleaved s0 (meanwhile_events co mw s) s3
       /\ config (fst (cleanup_during co mw s)) = config s3
       /\ eventBuffer (fst (cleanup_during co mw s)) = eventBuffer s3
       /\ trace (fst (cleanup_during co mw s)) = trace s3.
Proof.
  intros Hok. unfold cleanup_during.
  rewrite (se_bind_eq (flush_remaining_during co mw)).
  destruct (flush_remaining_during_spec s Hok)
    as (Hr1 & Ha1 & Hd1 & Hi1 & s0 & Hok0 & Hc0 & Hb0 & Hdel0 & Hint1).
  destruct (flush_remaining_during co mw s) as [s1 [[]|e1]]; cbn [fst snd] in *;
    [|discriminate].
  rewrite (se_bind_eq (cleanup_adapter_during co mw)).
  destruct (cleanup_adapter_during_spec s1) as (Hr2 & Ha2 & Hd2 & Hi2 & Hint2).
  destruct (cleanup_adapter_during co mw s1) as [s2 [[]|e2]]; cbn [fst snd] in *;
    [|discriminate].
  rewrite se_bind_eq. cbn [fst snd]. rewrite se_bind_eq.
  destruct (close_sinks_during_spec (deliveryMechanisms s2) s2)
    as (Hr3 & Ha3 & Hd3 & Hi3 & Hint3).
  destruct (se_for (deliveryMechanisms s2) (close_logged_during co mw) s2)
    as [s3 [[]|e3]]; cbn [fst snd] in *; [|discriminate].
  rewrite se_bind_eq. unfold se_modify. cbn [fst snd].
  assert (Hint : interleaved s0 (meanwhile_events co mw s) s3).
  { unfold meanwhile_events. rewrite <- Ha1, <- Hd1, <- Hd2.
    apply (interleaved_app s0 s1 s3 _ _ Hint1).
    apply (interleaved_app s1 s2 s3 _ _ Hint2 Hint3). }
  pose proof (interleaved_batch_ok s0 s3 _ Hint Hok0) as Hok3.
  set (s4 := set_lifecycle (adapter s3) [] (isRunning s3) s3).
  assert (Hok4 : batch_ok s4) by (apply (batch_ok_ext s3 s4); try reflexivity; exact Hok3).
  destruct (clear_batch_timer_frame s4) as (Hc5 & Hb5 & _ & Ht5 & Hd5 & Hh5).
  assert (Hl5 : adapter (clear_batch_timer s4) = adapter s4
                /\ isRunning (clear_batch_timer s4) = isRunning s4)
    by (unfold clear_batch_timer; destruct (batchTimeout s4); split; reflexivity).
  destruct Hl5 as [Ha5 Hi5].
  split; [reflexivity|]. split; [rewrite Ha5; cbn; congruence|].
  split; [rewrite Hd5; reflexivity|]. split; [rewrite Hi5; cbn; congruence|].
  split; [exact Hh5|].
  split; [apply clear_batch_timer_pending, timer_single_named, batch_ok_timer_single, Hok4|].
  exists s0, s3. split; [exact Hc0|]. split; [exact Hb0|]. split; [exact Hdel0|].
  split; [exact Hint|]. split; [exact Hc5|]. split; [exact Hb5|exact Ht5].
Qed.

End DuringStop.

Section StopDuring.
Context `{JsRuntime}.

(** With nothing happening during its awaits, [stop_during] is [stop]. *)
Lemma flush_remaining_during_nothing (co : CleanupOutcomes) (mw : Meanwhile) (s : State) :
  during_flush mw = [] -> flush_remaining_during co mw s = flush_remaining co s.
Proof.
  intros Hm. unfold flush_remaining_during, flush_remaining. rewrite Hm.
  destruct (eventBuffer s); [reflexivity|]. rewrite deliverBatch_split.
  destruct (deliverBatch_begin (flush_resolves co) s) as [s1 [ok|]]; reflexivity.
Qed.

Lemma close_sinks_during_nothing (co : CleanupOutcomes) (mw : Meanwhile) (sinks : list nat)
    (s : State) :
  (forall i, during_close mw i = []) ->
  se_for sinks (close_logged_during co mw) s = se_for sinks (close_logged co) s.
Proof.
  intros Hm. revert s. induction sinks as [|i sinks IH]; intros s; [reflexivity|].
  cbn [se_for]. rewrite !se_bind_eq.
  assert (Hone : close_logged_during co mw i s = close_logged co i s).
  { unfold close_logged_during, close_logged, se_try, awaited. rewrite (Hm i).
    destruct (sink_close co i s) as [s1 [[]|e]]; reflexivity. }
  rewrite Hone. destruct (close_logged co i s) as [s1 [[]|e]]; [apply IH|reflexivity].
Qed.

Lemma cleanup_during_nothing (co : CleanupOutcomes) (s : State) :
  cleanup_during co nothing_meanwhile s = cleanup co s.
Proof.
  unfold cleanup_during, cleanup, se_bind.
  rewrite flush_remaining_during_nothing by reflexivity.
  destruct (flush_remaining co s) as [s1 [[]|e1]]; [|reflexivity].
  assert (Ha : cleanup_adapter_during co nothing_meanwhile s1 = cleanup_adapter co s1).
  { unfold cleanup_adapter_during, cleanup_adapter. destruct (adapter s1); [|reflexivity].
    unfold se_bind, se_try, awaited, nothing_meanwhile, during_adapter_stop,
      during_adapter_teardown.
    destruct (adapter_stop co s1) as [s2 [[]|e2]]; cbn [run foldl]; [|reflexivity].
    destruct (adapter_teardown co s2) as [s3 [[]|e3]]; reflexivity. }
  rewrite Ha. destruct (cleanup_adapter co s1) as [s2 [[]|e2]]; [|reflexivity].
  rewrite close_sinks_during_nothing by reflexivity. reflexivity.
Qed.

Lemma stop_during_nothing (co : CleanupOutcomes) (s : State) :
  stop_during co nothing_meanwhile s = stop co s.
Proof.
  unfold stop_during, stop. destruct (negb (isRunning s)); [reflexivity|].
  unfold se_bind. rewrite cleanup_during_nothing. reflexivity.
Qed.

Lemma bookkeeping_refl (s : State) : bookkeeping s s.
Proof. repeat split. Qed.

Lemma bookkeeping_trans (s1 s2 s3 : State) :
  bookkeeping s1 s2 -> bookkeeping s2 s3 -> bookkeeping s1 s3.
Proof.
  intros (H1 & H2 & H3 & H4 & H5) (G1 & G2 & G3 & G4 & G5).
  unfold bookkeeping. repeat split; congruence.
Qed.

Lemma interleaved_nil (s s' : State) (mids : list event) :
  interleaved s mids s' -> mids = [] -> bookkeeping s s'.
Proof.
  intros Hi. induction Hi as [s|s mids s1 s2 Hi IH Hw|s mids s1 mid Hi IH]; intros Hm.
  - apply bookkeeping_refl.
  - apply (bookkeeping_trans s s1 s2); [apply IH, Hm|exact Hw].
  - apply app_eq_nil in Hm as [-> ->]. apply IH. reflexivity.
Qed.

Lemma concat_nils {A B} (l : list A) : List.concat ((λ _ : A, @nil B) <$> l) = [].
Proof. induction l as [|x l IH]; [reflexivity|exact IH]. Qed.

(** An event that arrives while [adapter.stop()] is awaited, on a
    notifier that batches: it is buffered, and it is still in the buffer
    when [stop] has returned. *)
Lemma arrival_while_adapter_stops (co : CleanupOutcomes) (c : NotifierConfig) (s : State)
    (e e' : ChangeEvent) (resolves : nat -> bool) :
  batch_ok s -> isRunning s = true -> adapter s = true -> config s = c ->
  batchingEnabled c = true -> stateless_patterns c -> accepted c e = Some e' ->
  (1 < or_default (batchSize c) 100)%Z ->
  eventBuffer (fst (stop_during co (while_adapter_stops [EventArrives e resolves]) s))
  = [e'].
Proof.
  intros Hok Hrun Had Hc Hbatch Hst Hacc Hsize.
  set (mw := while_adapter_stops [EventArrives e resolves]).
  unfold stop_during. rewrite Hrun. cbn [negb]. unfold se_bind at 1.
  assert (Hcl : exists s3,
            cleanup_during co mw s
            = (clear_batch_timer (set_lifecycle (adapter s3) [] (isRunning s3) s3),
               Returned tt)
            /\ eventBuffer s3 = [e']).
  { unfold cleanup_during, se_bind.
    rewrite flush_remaining_during_nothing by reflexivity.
    destruct (cleanup_flush co s) as (Hr1 & s1' & X1 & Hs1 & Ha1 & _).
    assert (Hf : idle (fst (flush_remaining co s))
                 /\ config (fst (flush_remaining co s)) = c).
    { unfold flush_remaining. destruct Hok as [Hidle|(Hne & h & Hh & Hp)].
      - destruct Hidle as (Hb & Hh & Hp). rewrite Hb. repeat split; assumption.
      - destruct (eventBuffer s) eqn:Hb; [contradiction|]. split.
        + apply deliverBatch_idle. intros t Ht. rewrite Hp in Ht.
          apply list_elem_of_singleton in Ht. subst t. exact Hh.
        + destruct (deliverBatch_config (flush_resolves co) s) as [-> _]. exact Hc. }
    destruct (flush_remaining co s) as [s1 [[]|e1]]; cbn [fst snd] in *; [|discriminate].
    subst s1'. destruct Hf as ((Hb1 & Hh1 & Hp1) & Hc1).
    (* the event arrives while the adapter stops *)
    set (sA := record AdapterStop s1).
    assert (HB : eventBuffer (run [EventArrives e resolves] sA) = [e']).
    { cbn [run foldl step]. rewrite processEvent_eq.
      rewrite applyTransformations_accepted by (cbn; rewrite Hc1; exact Hst).
      cbn [config fst updateEventStats se_modify set_stats record sA]. rewrite Hc1, Hacc, Hbatch.
      rewrite bufferEvent_below.
      - unfold sA. cbn [batchTimeout set_stats record]. rewrite Hh1. cbn. rewrite Hb1.
        reflexivity.
      - unfold batch_size, sA. cbn. rewrite Hb1, Hc1. cbn. lia. }
    assert (Hadapter : exists s2,
              cleanup_adapter_during co mw s1 = (s2, Returned tt)
              /\ bookkeeping (run [EventArrives e resolves] sA) s2).
    { unfold cleanup_adapter_during. rewrite Ha1, Had.
      unfold se_bind, se_try, awaited, adapter_stop, adapter_teardown, se_modify.
      cbn [during_adapter_stop during_adapter_teardown mw while_adapter_stops].
      fold sA. destruct (adapter_stop_ok co).
      - destruct (adapter_teardown_ok co); eexists; (split; [reflexivity|]).
        + eapply bookkeeping_trans; [|apply bookkeeping_lifecycle].
          apply bookkeeping_record. exact I.
        + eapply bookkeeping_trans; [|apply bookkeeping_lifecycle].
          eapply bookkeeping_trans; apply bookkeeping_record; exact I.
      - eexists. split; [reflexivity|].
        eapply bookkeeping_trans; [|apply bookkeeping_lifecycle].
        apply bookkeeping_record. exact I. }
    destruct Hadapter as (s2 & -> & Hbk2).
    destruct (close_sinks_during_spec co mw (deliveryMechanisms s2) s2)
      as (Hr3 & _ & _ & _ & Hint3).
    destruct (se_for (deliveryMechanisms s2) (close_logged_during co mw) s2)
      as [s3 [[]|e3]]; cbn [fst snd] in *; [|discriminate].
    unfold se_modify. exists s3. split; [reflexivity|].
    apply interleaved_nil in Hint3; [|apply concat_nils].
    destruct Hbk2 as (_ & Hb2 & _). destruct Hint3 as (_ & Hb3 & _).
    rewrite Hb3, Hb2. exact HB. }
  destruct Hcl as (s3 & -> & Hb3). unfold se_modify. cbn [fst eventBuffer set_lifecycle].
  destruct (clear_batch_timer_frame (set_lifecycle (adapter s3) [] (isRunning s3) s3))
    as (_ & -> & _). exact Hb3.
Qed.

(** X17.  [stop] on a notifier in any state of a run, whatever change
    events arrive and batch timers fire while it waits for the last
    batch, for the adapter and for the sinks: it returns normally, and the
    notifier is then not running, holds no adapter and no sink, and no
    timer is armed; a second [stop] changes nothing.  No event leaves the
    books: while the patterns keep no state, the events handed to the
    sinks followed by the events still in the buffer are the accepted
    events received, those received during the [stop] included.  When
    nothing happens during the [stop], the events that were in the buffer
    have been handed to the sinks as one last batch and the buffer is
    empty.  But an event that arrives while [adapter.stop()] is awaited,
    on a notifier that batches more than one event, is put in the buffer
    and is still there when [stop] has returned: with no timer armed, it
    is never handed to a sink. *)
Theorem stop_strands_the_events_that_arrive_during_it (c : NotifierConfig)
    (sinks : list nat) (evs : list event) (co co' : CleanupOutcomes) (mw mw' : Meanwhile)
    (e e' : ChangeEvent) (resolves : nat -> bool) (S F : State) :
  S = run evs (running c sinks) ->
  F = fst (stop_during co mw S) ->
  snd (stop_during co mw S) = Returned tt
  /\ isRunning F = false /\ adapter F = false /\ deliveryMechanisms F = []
  /\ batchTimeout F = None /\ pending F = []
  /\ stop_during co' mw' F = (F, Returned tt)
  /\ (stateless_patterns c ->
      (delivered_events (trace F) ++ eventBuffer F)%list
      = omap (accepted c) (arrivals (evs ++ meanwhile_events co mw S)))
  /\ stop_during co nothing_meanwhile S = stop co S
  /\ eventBuffer (fst (stop co S)) = []
  /\ delivered (trace (fst (stop co S)))
     = (delivered (trace S)
        ++ match eventBuffer S with
           | [] => []
           | _ :: _ => [Batch (eventBuffer S)]
           end)%list
  /\ (batchingEnabled c = true -> stateless_patterns c -> accepted c e = Some e' ->
      (1 < or_default (batchSize c) 100)%Z ->
      eventBuffer (fst (stop_during co (while_adapter_stops [EventArrives e resolves]) S))
      = [e']).
Proof.
  intros HS HF.
  destruct (running_invariant c sinks) as [Hok0 Hc0].
  destruct (run_invariant evs _ Hok0 Hc0) as [Hok _].
  destruct (run_lifecycle evs (running c sinks)) as (Ha & Hr & _).
  cbn [adapter isRunning running] in Ha, Hr. rewrite <- HS in Hok, Ha, Hr.
  destruct (stop_undisturbed c sinks evs co co') as (_ & _ & _ & Hb & _ & _ & Hdel & _).
  rewrite <- HS in Hb, Hdel.
  destruct (cleanup_during_spec co mw S Hok)
    as (Hr1 & Ha1 & Hd1 & Hi1 & Hh1 & Hp1 & s0 & s3 & Hc0' & Hb0 & Hdel0 & Hint & Hc3 & Hb3 & Ht3).
  assert (Heq : stop_during co mw S
                = (set_lifecycle (adapter (fst (cleanup_during co mw S)))
                     (deliveryMechanisms (fst (cleanup_during co mw S))) false
                     (fst (cleanup_during co mw S)), Returned tt)).
  { unfold stop_during. rewrite Hr. cbn [negb]. unfold se_bind, se_modify.
    destruct (cleanup_during co mw S) as [s4 [[]|e4]]; cbn [fst snd] in *;
      [reflexivity|discriminate]. }
  rewrite Heq in HF |- *. cbn [fst snd] in HF. subst F.
  cbn [isRunning adapter deliveryMechanisms batchTimeout pending trace eventBuffer
       set_lifecycle].
  split; [reflexivity|]. split; [reflexivity|]. split; [exact Ha1|]. split; [exact Hd1|].
  split; [exact Hh1|]. split; [exact Hp1|]. split; [reflexivity|]. split.
  { intros Hst.
    destruct (run_books c evs (running c sinks) Hst eq_refl) as (HcS & HbS & HsumS);
      [reflexivity|].
    rewrite <- HS in HcS, HbS, HsumS. cbn in HsumS.
    destruct (interleaved_books c s0 s3 _ Hst Hint) as (_ & _ & Hsum3);
      [congruence|intros _; exact Hb0|].
    rewrite Ht3, Hb3, Hsum3, Hb0, app_nil_r.
    assert (Happ : arrivals (evs ++ meanwhile_events co mw S)
                   = (arrivals evs ++ arrivals (meanwhile_events co mw S))%list)
      by apply omap_app.
    rewrite Happ, omap_app. f_equal. rewrite <- HsumS.
    unfold delivered_events. rewrite Hdel0, fmap_app, concat_app.
    destruct (eventBuffer S); cbn; rewrite ?app_nil_r; reflexivity. }
  split; [apply stop_during_nothing|]. split; [exact Hb|]. split; [exact Hdel|].
  intros Hbatch Hst Hacc Hsize.
  apply (arrival_while_adapter_stops co c S e e' resolves Hok Hr Ha); try assumption.
  destruct (run_books c evs (running c sinks) Hst eq_refl) as (HcS & _); [reflexivity|].
  rewrite HS. exact HcS.
Qed.

End StopDuring.

Lemma stop_strands_the_events_that_arrive_during_it_witness :
  eventBuffer
    (fst (@stop_during Inputs.literal_runtime Inputs.cleanup_works
            (while_adapter_stops [EventArrives Inputs.order_inserted Inputs.all_sinks_ok])
            (@run Inputs.literal_runtime
               [EventArrives (Inputs.user_inserted "1") Inputs.all_sinks_ok]
               (running Inputs.batches_of_two [0; 1]))))
  = [Inputs.order_inserted]
  /\ pending
       (fst (@stop_during Inputs.literal_runtime Inputs.cleanup_works
               (while_adapter_stops [EventArrives Inputs.order_inserted Inputs.all_sinks_ok])
               (@run Inputs.literal_runtime
                  [EventArrives (Inputs.user_inserted "1") Inputs.all_sinks_ok]
                  (running Inputs.batches_of_two [0; 1]))))
     = []
  /\ isRunning
       (fst (@stop_during Inputs.literal_runtime Inputs.cleanup_works
               (while_adapter_stops [EventArrives Inputs.order_inserted Inputs.all_sinks_ok])
               (@run Inputs.literal_runtime
                  [EventArrives (Inputs.user_inserted "1") Inputs.all_sinks_ok]
                  (running Inputs.batches_of_two [0; 1]))))
     = false.
Proof.
  destruct (@stop_strands_the_events_that_arrive_during_it Inputs.literal_runtime
              Inputs.batches_of_two [0; 1]
              [EventArrives (Inputs.user_inserted "1") Inputs.all_sinks_ok]
              Inputs.cleanup_works Inputs.cleanup_works
              (while_adapter_stops [EventArrives Inputs.order_inserted Inputs.all_sinks_ok])
              nothing_meanwhile Inputs.order_inserted Inputs.order_inserted
              Inputs.all_sinks_ok _ _ eq_refl eq_refl)
    as (_ & Hr & _ & _ & _ & Hp & _ & _ & _ & _ & _ & Hstuck).
  split; [|split; [exact Hp|exact Hr]].
  apply Hstuck.
  - reflexivity.
  - exact I.
  - reflexivity.
  - reflexivity.
Defined.

(** ** A pattern that does not compile *)

Section BadPattern.
Context `{JsRuntime}.

Lemma apply_loop_app_stateless (pre rest : list TransformationConfig) (subject : string)
    (current : ChangeEvent) :
  Forall (λ t, stateless t = true) pre ->
  apply_loop (pre ++ rest) subject current
  = match pipeline (transform <$> List.filter (λ t, matches t subject) pre) current with
    | None => ((pre ++ rest)%list, Returned None)
    | Some e' => ((pre ++ fst (apply_loop rest subject e'))%list,
                  snd (apply_loop rest subject e'))
    end.
Proof.
  intros Hall. revert current. induction Hall as [|t ts Ht Hall IH]; intros current.
  - cbn. destruct (apply_loop rest subject current). reflexivity.
  - cbn [app apply_loop List.filter]. rewrite (test_pattern_stateless t subject Ht).
    destruct (matches t subject); cbn [fmap list_fmap pipeline].
    + destruct (transform t current) as [result|]; [|reflexivity].
      rewrite IH. destruct (pipeline _ result); reflexivity.
    + rewrite IH. destruct (pipeline _ current); reflexivity.
Qed.

(** X18.  A table pattern given as a string that [new RegExp] rejects
    stops every event that reaches it, whatever the table of the event:
    when the transformations before it keep no state and do not drop the
    event, [processEvent] rejects with the syntax error; the event has
    been counted as processed, but is neither buffered nor handed to any
    sink, and the transformations are as before, so that the next event
    fares the same. *)
Theorem pattern_that_does_not_compile_stops_every_event (resolves : nat -> bool)
    (e : ChangeEvent) (s : State) (pre post : list TransformationConfig)
    (t : TransformationConfig) (src : string) :
  transformations (config s) = Some (pre ++ t :: post)%list ->
  Forall (λ t, stateless t = true) pre ->
  expected_pipeline pre e <> None ->
  tablePattern t = PatternString src -> regexp_valid src = false ->
  snd (processEvent resolves e s) = Threw (SyntaxError "Invalid regular expression")
  /\ trace (fst (processEvent resolves e s)) = trace s
  /\ eventBuffer (fst (processEvent resolves e s)) = eventBuffer s
  /\ eventsProcessed (stats (fst (processEvent resolves e s)))
     = eventsProcessed (stats s) + 1
  /\ transformations (config (fst (processEvent resolves e s)))
     = Some (pre ++ t :: post)%list.
Proof.
  intros Hts Hpre Hkeep Hpat Hbad. rewrite processEvent_eq.
  set (s1 := fst (updateEventStats e s)).
  assert (Happ : applyTransformations e s1
                 = (set_config {| batchingEnabled := batchingEnabled (config s1);
                                  batchSize := batchSize (config s1);
                                  batchTimeWindowMs := batchTimeWindowMs (config s1);
                                  transformations := Some (pre ++ t :: post)%list |} s1,
                    Threw (SyntaxError "Invalid regular expression"))).
  { unfold applyTransformations.
    change (transformations (config s1)) with (transformations (config s)). rewrite Hts.
    assert (Hloop : apply_loop (pre ++ t :: post) (ToString (ev_table e)) e
                    = ((pre ++ t :: post)%list,
                       Threw (SyntaxError "Invalid regular expression"))).
    { rewrite (apply_loop_app_stateless pre (t :: post) _ e Hpre).
      unfold expected_pipeline in Hkeep.
      destruct (pipeline _ e) as [e'|]; [|contradiction].
      cbn [apply_loop]. unfold test_pattern. rewrite Hpat, Hbad. reflexivity. }
    destruct (pre ++ t :: post)%list as [|t0 ts0] eqn:Hl.
    - apply app_eq_nil in Hl as [_ Hl]. discriminate.
    - rewrite Hloop. reflexivity. }
  rewrite Happ. cbn [fst snd]. repeat split.
Qed.

End BadPattern.

Lemma pattern_that_does_not_compile_stops_every_event_witness :
  snd (@processEvent Inputs.unbalanced_runtime Inputs.all_sinks_ok Inputs.order_inserted
         (running (Inputs.unbatched [Inputs.redact_users; Inputs.redact_unbalanced]) [0]))
  = Threw (SyntaxError "Invalid regular expression")
  /\ trace (fst (@processEvent Inputs.unbalanced_runtime Inputs.all_sinks_ok
                   Inputs.order_inserted
                   (running (Inputs.unbatched [Inputs.redact_users;
                                               Inputs.redact_unbalanced]) [0])))
     = [].
Proof.
  destruct (@pattern_that_does_not_compile_stops_every_event Inputs.unbalanced_runtime
              Inputs.all_sinks_ok Inputs.order_inserted
              (running (Inputs.unbatched [Inputs.redact_users; Inputs.redact_unbalanced])
                       [0])
              [Inputs.redact_users] [] Inputs.redact_unbalanced "(")
    as (Hr & Ht & _).
  - reflexivity.
  - repeat constructor.
  - vm_compute. discriminate.
  - reflexivity.
  - reflexivity.
  - split; [exact Hr|exact Ht].
Defined.


(** ** The error list *)

Lemma touch_None (now : Z) (m : string) (l : list ErrorEntry) :
  touch now m l = None <-> m ∉ message <$> l.
Proof.
  induction l as [|e l IH]; cbn [touch].
  - split; [intros _; apply not_elem_of_nil|reflexivity].
  - rewrite fmap_cons, not_elem_of_cons. case_bool_decide as Hm.
    + split; [discriminate|]. intros [Hne _]. congruence.
    + destruct (touch now m l); cbn.
      * split; [discriminate|]. intros [_ Hn]. apply IH in Hn. discriminate.
      * split; [|reflexivity]. intros _. split; [congruence|]. apply IH. reflexivity.
Qed.

Lemma touch_Some (now : Z) (m : string) (l l' : list ErrorEntry) :
  touch now m l = Some l' ->
  message <$> l' = message <$> l
  /\ length l' = length l
  /\ m ∈ message <$> l
  /\ (Forall (λ e, 1 <= count e) l -> Forall (λ e, 1 <= count e) l')
  /\ error_count m l' = error_count m l + 1
  /\ error_time m l' = Some now
  /\ (forall m', m' <> m -> error_count m' l' = error_count m' l
                           /\ error_time m' l' = error_time m' l).
Proof.
  revert l'. induction l as [|e l IH]; intros l'; cbn [touch]; [discriminate|].
  case_bool_decide as Hm.
  - intros Hl. injection Hl as <-. cbn. split; [reflexivity|]. split; [reflexivity|].
    split; [apply elem_of_cons; left; symmetry; exact Hm|]. split.
    { intros Hall. inversion Hall; subst. constructor; [cbn; lia|assumption]. }
    unfold error_count, error_time. cbn [List.find message].
    rewrite !bool_decide_true by exact Hm. cbn. split; [reflexivity|].
    split; [reflexivity|]. intros m' Hne.
    rewrite !bool_decide_false by congruence. split; reflexivity.
  - destruct (touch now m l) as [l1|] eqn:Ht; [|discriminate].
    cbn. intros Hl. injection Hl as <-.
    destruct (IH l1 eq_refl) as (Hms & Hlen & Hin & Hall & Hc & Htm & Hother).
    cbn. split; [rewrite Hms; reflexivity|]. split; [rewrite Hlen; reflexivity|].
    split; [apply elem_of_cons; right; exact Hin|]. split.
    { intros Hf. inversion Hf; subst. constructor; [assumption|apply Hall; assumption]. }
    unfold error_count, error_time in *. cbn [List.find].
    rewrite !bool_decide_false by exact Hm. split; [exact Hc|]. split; [exact Htm|].
    intros m' Hne. case_bool_decide; [split; reflexivity|]. apply Hother, Hne.
Qed.

Lemma insert_by_time_perm (x : ErrorEntry) (l : list ErrorEntry) :
  insert_by_time x l ≡ₚ x :: l.
Proof.
  induction l as [|y l IH]; cbn; [reflexivity|].
  destruct (time x <? time y)%Z; [|reflexivity].
  rewrite IH. apply Permutation_swap.
Qed.

Lemma sort_recent_first_perm (l : list ErrorEntry) : sort_recent_first l ≡ₚ l.
Proof.
  induction l as [|x l IH]; cbn; [reflexivity|].
  rewrite insert_by_time_perm, IH. reflexivity.
Qed.

(** What one call keeps. *)
Lemma recordError_keeps (now : Z) (m : string) (l : list ErrorEntry) :
  NoDup (message <$> l) -> Forall (λ e, 1 <= count e) l ->
  length (recordError now m l) <= 100
  /\ NoDup (message <$> recordError now m l)
  /\ Forall (λ e, 1 <= count e) (recordError now m l).
Proof.
  intros Hnd Hc. unfold recordError.
  set (l1 := match touch now m l with
             | Some updated => updated
             | None => (l ++ [ {| time := now; message := m; count := 1 |} ])%list
             end).
  assert (H1 : NoDup (message <$> l1) /\ Forall (λ e, 1 <= count e) l1).
  { subst l1. destruct (touch now m l) as [l'|] eqn:Ht.
    - destruct (touch_Some now m l l' Ht) as (Hms & _ & _ & Hall & _).
      rewrite Hms. split; [exact Hnd|apply Hall, Hc].
    - apply touch_None in Ht. split.
      + rewrite fmap_app. apply NoDup_app. split; [exact Hnd|]. split.
        * intros x Hx Hx'. cbn in Hx'. apply list_elem_of_singleton in Hx'. subst x.
          contradiction.
        * cbn. apply NoDup_singleton.
      + apply Forall_app. split; [exact Hc|]. repeat constructor. }
  destruct H1 as [Hnd1 Hc1].
  destruct (Nat.ltb 100 (length l1)) eqn:Hlt.
  - split; [rewrite length_take; lia|]. split.
    + rewrite fmap_take. eapply sublist_NoDup; [|apply sublist_take].
      rewrite (sort_recent_first_perm l1). exact Hnd1.
    + apply Forall_take. rewrite (sort_recent_first_perm l1). exact Hc1.
  - apply Nat.ltb_ge in Hlt. split; [exact Hlt|]. split; assumption.
Qed.

(** X19.  However many errors the adapter reports, with whatever
    messages and clock readings, the error list of the statistics never
    holds more than 100 entries, never holds two entries with the same
    message, and every entry has a count of at least 1. *)
Theorem error_list_is_bounded_and_distinct (calls : list (Z * string)) :
  length (record_all calls []) <= 100
  /\ NoDup (message <$> record_all calls [])
  /\ Forall (λ e, 1 <= count e) (record_all calls []).
Proof.
  assert (Hgen : forall l,
            length l <= 100 -> NoDup (message <$> l) -> Forall (λ e, 1 <= count e) l ->
            length (record_all calls l) <= 100
            /\ NoDup (message <$> record_all calls l)
            /\ Forall (λ e, 1 <= count e) (record_all calls l)).
  { induction calls as [|[now m] calls IH]; intros l Hlen Hnd Hc.
    - repeat split; assumption.
    - cbn [record_all foldl fst snd]. fold (record_all calls (recordError now m l)).
      destruct (recordError_keeps now m l Hnd Hc) as (Hlen1 & Hnd1 & Hc1).
      apply IH; assumption. }
  apply Hgen; [cbn; lia|constructor|constructor].
Qed.

Lemma error_find_app (m : string) (l : list ErrorEntry) (x : ErrorEntry) :
  List.find (λ e, bool_decide (message e = m)) (l ++ [x])
  = match List.find (λ e, bool_decide (message e = m)) l with
    | Some e => Some e
    | None => if bool_decide (message x = m) then Some x else None
    end.
Proof.
  induction l as [|y l IH]; cbn [app List.find]; [reflexivity|].
  destruct (bool_decide (message y = m)); [reflexivity|exact IH].
Qed.

Lemma error_find_None (m : string) (l : list ErrorEntry) :
  m ∉ message <$> l -> List.find (λ e, bool_decide (message e = m)) l = None.
Proof.
  induction l as [|y l IH]; [reflexivity|].
  rewrite fmap_cons, not_elem_of_cons. intros [Hne Hn]. cbn [List.find].
  rewrite bool_decide_false by congruence. apply IH, Hn.
Qed.

Lemma remove_dups_length_app (a b : list string) :
  length (remove_dups a) <= length (remove_dups (a ++ b)).
Proof.
  apply submseteq_length, NoDup_submseteq; [apply NoDup_remove_dups|].
  intros x Hx. rewrite elem_of_remove_dups in Hx |- *.
  apply elem_of_app. left. exact Hx.
Qed.

(** The list after a sequence of calls that brings at most 100 distinct
    messages. *)
Lemma record_all_exact (calls : list (Z * string)) :
  length (remove_dups (snd <$> calls)) <= 100 ->
  NoDup (message <$> record_all calls [])
  /\ (forall m, m ∈ message <$> record_all calls [] <-> m ∈ snd <$> calls)
  /\ (forall m, error_count m (record_all calls [])
                = length (List.filter (λ c, bool_decide (snd c = m)) calls))
  /\ (forall m, error_time m (record_all calls [])
                = last (fst <$> List.filter (λ c, bool_decide (snd c = m)) calls)).
Proof.
  induction calls as [|[now m] calls IH] using rev_ind; intros Hd.
  - cbn. split; [constructor|]. split; [reflexivity|]. split; reflexivity.
  - rewrite fmap_app in Hd. cbn [fmap list_fmap snd] in Hd.
    destruct IH as (Hnd & Hin & Hcount & Htime).
    { etransitivity; [apply (remove_dups_length_app _ [m])|exact Hd]. }
    unfold record_all. rewrite foldl_app. cbn [foldl fst snd].
    fold (record_all calls []). set (l := record_all calls []) in *.
    assert (Hlen : length l = length (remove_dups (snd <$> calls))).
    { rewrite <- (length_fmap message). apply Permutation_length, NoDup_Permutation.
      - exact Hnd.
      - apply NoDup_remove_dups.
      - intros x. rewrite elem_of_remove_dups. apply Hin. }
    assert (Hfilter : forall m',
              List.filter (λ c : Z * string, bool_decide (snd c = m')) (calls ++ [(now, m)])
              = (List.filter (λ c, bool_decide (snd c = m')) calls
                 ++ if bool_decide (m = m') then [(now, m)] else [])%list).
    { intros m'. rewrite List.filter_app. cbn [List.filter snd].
      destruct (bool_decide (m = m')); reflexivity. }
    unfold recordError. destruct (touch now m l) as [l'|] eqn:Ht.
    + destruct (touch_Some now m l l' Ht) as (Hms & Hlen' & Hm & _ & Hc & Htm & Hother).
      rewrite (proj2 (Nat.ltb_ge 100 (length l'))).
      2:{ rewrite Hlen', Hlen.
          etransitivity; [apply (remove_dups_length_app _ [m])|exact Hd]. }
      split; [rewrite Hms; exact Hnd|]. split; [|split].
      * intros m'. rewrite Hms, fmap_app, elem_of_app, Hin. cbn.
        rewrite list_elem_of_singleton. split; [tauto|].
        intros [Hl| ->]; [exact Hl|]. apply Hin, Hm.
      * intros m'. rewrite Hfilter, length_app. case_bool_decide as Hmm.
        -- subst m'. rewrite Hc, Hcount. reflexivity.
        -- destruct (Hother m' ltac:(congruence)) as [-> _].
           rewrite Hcount. cbn. lia.
      * intros m'. rewrite Hfilter, fmap_app. case_bool_decide as Hmm.
        -- subst m'. rewrite Htm. cbn. rewrite last_snoc. reflexivity.
        -- destruct (Hother m' ltac:(congruence)) as [_ ->].
           rewrite Htime, app_nil_r. reflexivity.
    + apply touch_None in Ht.
      assert (Hfresh : m ∉ snd <$> calls) by (intros Hm; apply Ht, Hin, Hm).
      assert (Hnd1 : NoDup (message <$> (l ++ [ {| time := now; message := m;
                                                  count := 1 |} ])%list)).
      { rewrite fmap_app. apply NoDup_app. split; [exact Hnd|]. split.
        - intros x Hx Hx'. cbn in Hx'. apply list_elem_of_singleton in Hx'. subst x.
          contradiction.
        - cbn. apply NoDup_singleton. }
      assert (Hin1 : forall m', m' ∈ message <$> (l ++ [ {| time := now; message := m;
                                                                count := 1 |} ])%list
                                <-> m' ∈ snd <$> (calls ++ [(now, m)])%list).
      { intros m'. rewrite !fmap_app, !elem_of_app, Hin. reflexivity. }
      rewrite (proj2 (Nat.ltb_ge 100 _)).
      2:{ rewrite <- (length_fmap message).
          rewrite (Permutation_length (NoDup_Permutation _ (remove_dups (snd <$> (calls ++ [(now, m)])%list))
                     Hnd1 (NoDup_remove_dups _)
                     (λ x, iff_trans (Hin1 x) (iff_sym (elem_of_remove_dups _ x))))).
          rewrite fmap_app. exact Hd. }
      split; [exact Hnd1|]. split; [exact Hin1|]. split.
      * intros m'. unfold error_count. rewrite error_find_app, Hfilter, length_app.
        specialize (Hcount m'). unfold error_count in Hcount. cbn [message].
        destruct (List.find _ l) as [e|] eqn:Hf.
        -- rewrite Hcount. rewrite bool_decide_false; [cbn; lia|].
           intros <-. apply Ht. apply List.find_some in Hf as [He Hme].
           apply bool_decide_eq_true in Hme. rewrite <- Hme.
           apply list_elem_of_fmap. exists e. split; [reflexivity|].
           apply list_elem_of_In, He.
        -- rewrite <- Hcount. destruct (bool_decide (m = m')); reflexivity.
      * intros m'. unfold error_time. rewrite error_find_app, Hfilter, fmap_app.
        specialize (Htime m'). unfold error_time in Htime. cbn [message].
        destruct (List.find _ l) as [e|] eqn:Hf.
        -- rewrite bool_decide_false; [rewrite app_nil_r; exact Htime|].
           intros <-. apply Ht. apply List.find_some in Hf as [He Hme].
           apply bool_decide_eq_true in Hme. rewrite <- Hme.
           apply list_elem_of_fmap. exists e. split; [reflexivity|].
           apply list_elem_of_In, He.
        -- destruct (bool_decide (m = m')); cbn.
           ++ rewrite last_snoc. reflexivity.
           ++ rewrite app_nil_r. exact Htime.
Qed.

(** X20.  While no more than 100 distinct messages have been reported,
    the error list is exact: it has one entry for each message reported,
    no other entry, the count of an entry is the number of times its
    message was reported, and its time is the time of the latest
    report. *)
Theorem error_counts_are_exact (calls : list (Z * string)) (m : string) :
  length (remove_dups (snd <$> calls)) <= 100 ->
  (m ∈ message <$> record_all calls [] <-> m ∈ snd <$> calls)
  /\ error_count m (record_all calls [])
     = length (List.filter (λ c, bool_decide (snd c = m)) calls)
  /\ error_time m (record_all calls [])
     = last (fst <$> List.filter (λ c, bool_decide (snd c = m)) calls).
Proof.
  intros Hd. destruct (record_all_exact calls Hd) as (_ & Hin & Hc & Ht).
  split; [apply Hin|]. split; [apply Hc|apply Ht].
Qed.

Lemma error_counts_are_exact_witness :
  error_count "connection lost"
    (record_all [(1%Z, "connection lost"); (2%Z, "timeout"); (5%Z, "connection lost")] [])
  = 2
  /\ error_time "connection lost"
       (record_all [(1%Z, "connection lost"); (2%Z, "timeout"); (5%Z, "connection lost")] [])
     = Some 5%Z.
Proof.
  destruct (error_counts_are_exact
              [(1%Z, "connection lost"); (2%Z, "timeout"); (5%Z, "connection lost")]
              "connection lost")
    as (_ & Hc & Ht).
  - vm_compute. lia.
  - split; [rewrite Hc|rewrite Ht]; reflexivity.
Defined.

Lemma sort_snoc_latest (x : ErrorEntry) (l : list ErrorEntry) :
  Forall (λ e, (time e < time x)%Z) l ->
  sort_recent_first (l ++ [x]) = x :: sort_recent_first l.
Proof.
  induction 1 as [|y l Hy Hall IH]; [reflexivity|].
  cbn [app sort_recent_first foldr]. fold (sort_recent_first (l ++ [x])).
  fold (sort_recent_first l). rewrite IH. cbn [insert_by_time].
  rewrite (proj2 (Z.ltb_lt _ _) Hy). reflexivity.
Qed.

Lemma insert_by_time_snoc (y x : ErrorEntry) (k : list ErrorEntry) :
  (time x <= time y)%Z ->
  insert_by_time y (k ++ [x]) = (insert_by_time y k ++ [x])%list.
Proof.
  intros Hxy. induction k as [|z k IH]; cbn [app insert_by_time].
  - rewrite (proj2 (Z.ltb_ge _ _) Hxy). reflexivity.
  - destruct (time y <? time z)%Z; [rewrite IH|]; reflexivity.
Qed.

Lemma sort_snoc_oldest (x : ErrorEntry) (l : list ErrorEntry) :
  Forall (λ e, (time x <= time e)%Z) l ->
  sort_recent_first (l ++ [x]) = (sort_recent_first l ++ [x])%list.
Proof.
  induction 1 as [|y l Hy Hall IH]; [reflexivity|].
  cbn [app sort_recent_first foldr]. fold (sort_recent_first (l ++ [x])).
  fold (sort_recent_first l). rewrite IH. apply insert_by_time_snoc, Hy.
Qed.

(** X21.  What a full list does with a message it does not hold.  The
    list stays at 100 entries.  When the clock has moved past the times
    of all entries, the new error is kept, at the head of the list, which
    is then ordered most recent first, and one of the other entries is
    dropped.  When the clock has not moved past any of them (the report
    comes within the same millisecond as all the entries), the new error
    is the one that is dropped. *)
Theorem full_error_list_keeps_the_most_recent (now : Z) (m : string)
    (l : list ErrorEntry) :
  length l = 100 -> m ∉ message <$> l ->
  length (recordError now m l) = 100
  /\ (Forall (λ e, (time e < now)%Z) l ->
      recordError now m l
      = {| time := now; message := m; count := 1 |} :: take 99 (sort_recent_first l))
  /\ (Forall (λ e, (now <= time e)%Z) l ->
      recordError now m l = sort_recent_first l
      /\ m ∉ message <$> recordError now m l).
Proof.
  intros Hlen Hm. unfold recordError.
  rewrite (proj2 (touch_None now m l) Hm).
  rewrite length_app, Hlen. cbn [length Nat.add Nat.ltb Nat.leb].
  split; [|split].
  - rewrite length_take, (Permutation_length (sort_recent_first_perm _)), length_app, Hlen.
    reflexivity.
  - intros Hlate.
    rewrite (sort_snoc_latest {| time := now; message := m; count := 1 |} l Hlate).
    reflexivity.
  - intros Hearly.
    rewrite (sort_snoc_oldest {| time := now; message := m; count := 1 |} l Hearly).
    assert (Hs : length (sort_recent_first l) = 100)
      by (rewrite (Permutation_length (sort_recent_first_perm l)); exact Hlen).
    rewrite take_app_length' by (symmetry; exact Hs). split; [reflexivity|].
    rewrite (sort_recent_first_perm l). exact Hm.
Qed.

Lemma full_error_list_keeps_the_most_recent_witness :
  length (recordError 100 "pool exhausted" Inputs.hundred_errors) = 100
  /\ head (recordError 100 "pool exhausted" Inputs.hundred_errors)
     = Some {| time := 100; message := "pool exhausted"; count := 1 |}
  /\ "pool exhausted" ∉ message <$> recordError 99 "pool exhausted"
                                     ((λ e, {| time := 99; message := message e;
                                               count := count e |})
                                        <$> Inputs.hundred_errors).
Proof.
  destruct (full_error_list_keeps_the_most_recent 100 "pool exhausted"
              Inputs.hundred_errors) as (Hl & Hlate & _).
  { reflexivity. }
  { apply (bool_decide_unpack _). vm_compute. exact I. }
  split; [exact Hl|]. split.
  - rewrite Hlate; [reflexivity|]. apply (bool_decide_unpack _). vm_compute. exact I.
  - destruct (full_error_list_keeps_the_most_recent 99 "pool exhausted"
                ((λ e, {| time := 99; message := message e; count := count e |})
                   <$> Inputs.hundred_errors)) as (_ & _ & Hearly).
    { reflexivity. }
    { apply (bool_decide_unpack _). vm_compute. exact I. }
    apply Hearly. apply (bool_decide_unpack _). vm_compute. exact I.
Defined.

End NotifierSpec.

(* ================================================================== *)
(** * Properties of the delivery mechanisms                            *)
(* ================================================================== *)

Module DeliverySpec.
Import Delivery MonadFacts.



Section Base.
Context {X : Type}.
Variable impl : Implementation X.







End Base.

Section Custom.
Context {H : Type}.
Variable handler : ChangeEvent -> SE H unit.

(** An array handed to the handler: the handler is called with the
    events in order, up to the first call that rejects. *)
Lemma custom_batch (es : list ChangeEvent) (st : H * list ChangeEvent) :
  exists n,
    n <= length es
    /\ snd (fst (se_for es (call_handler handler) st)) = (snd st ++ take n es)%list
    /\ (snd (se_for es (call_handler handler) st) = Returned tt -> n = length es)
    /\ (forall err, snd (se_for es (call_handler handler) st) = Threw err ->
          exists x h, es !! (n - 1) = Some x /\ 1 <= n
                      /\ snd (handler x h) = Threw err).
Proof.
  revert st. induction es as [|x es IH]; intros st.
  - exists 0. cbn. rewrite app_nil_r. repeat split; [lia|]. discriminate.
  - cbn [se_for]. rewrite se_bind_eq.
    change (call_handler handler x st)
      with (match handler x (fst st) with
            | (h, r) => ((h, (snd st ++ [x])%list), r)
            end).
    destruct (handler x (fst st)) as [h [[]|e]] eqn:Hx.
    + destruct (IH (h, (snd st ++ [x])%list)) as (n & Hn & Hs & Hr & Ht).
      exists (S n). split; [cbn; lia|]. split.
      { rewrite Hs. cbn [snd take]. rewrite <- app_assoc. reflexivity. }
      split; [intros Hret; cbn; f_equal; apply Hr, Hret|].
      intros err Herr. destruct (Ht err Herr) as (y & h' & Hy & H1 & Hthrow).
      exists y, h'. split; [|split; [lia|exact Hthrow]].
      destruct n; [lia|]. cbn [Nat.sub] in Hy |- *. rewrite Nat.sub_0_r in Hy.
      destruct n; exact Hy.
    + exists 1. cbn [fst snd length take]. split; [lia|]. split; [reflexivity|].
      split; [discriminate|]. intros err Herr. injection Herr as <-.
      exists x, (fst st). split; [reflexivity|]. split; [lia|]. rewrite Hx. reflexivity.
Qed.

(** X23.  The custom mechanism hands an array of events to the handler
    one event at a time, in order, awaiting each call.  When every call
    resolves, the handler has been called with every event and [deliver]
    resolves.  When a call rejects, the events after it are not handed to
    the handler, and [deliver] rejects with the delivery error that wraps
    the failure.  A single event is one call of the handler. *)
Theorem custom_handler_gets_events_one_by_one (es : list ChangeEvent) (e : ChangeEvent)
    (d : Instance (H * list ChangeEvent)) :
  initialized d = true ->
  (exists n,
     n <= length es
     /\ snd (own (fst (deliver (custom handler) (Notifier.Batch es) d)))
        = (snd (own d) ++ take n es)%list
     /\ (snd (deliver (custom handler) (Notifier.Batch es) d) = Returned tt
         /\ n = length es
         \/ snd (deliver (custom handler) (Notifier.Batch es) d)
            = Threw (DeliveryError "Failed to deliver event(s)")
            /\ exists x h err, es !! (n - 1) = Some x /\ 1 <= n
                               /\ snd (handler x h) = Threw err))
  /\ snd (own (fst (deliver (custom handler) (Notifier.Single e) d)))
     = (snd (own d) ++ [e])%list.
Proof.
  intros Hi. split.
  - destruct (custom_batch es (own d)) as (n & Hn & Hs & Hr & Ht).
    exists n. split; [exact Hn|].
    unfold deliver. rewrite Hi. cbn [negb]. unfold se_try, call_impl.
    cbn [deliverEvent custom].
    destruct (se_for es (call_handler handler) (own d)) as [st [[]|err]];
      cbn [fst snd own] in *.
    + split; [exact Hs|]. left. split; [reflexivity|apply Hr; reflexivity].
    + split; [exact Hs|]. right. split; [reflexivity|].
      destruct (Ht err eq_refl) as (x & h & Hx & H1 & Hthrow). eauto 10.
  - unfold deliver. rewrite Hi. cbn [negb]. unfold se_try, call_impl.
    cbn [deliverEvent custom]. unfold call_handler.
    destruct (handler e (fst (own d))) as [h [[]|err]]; reflexivity.
Qed.

End Custom.


Lemma custom_handler_gets_events_one_by_one_witness :
  exists n,
    n <= 3
    /\ snd (own (fst (deliver (custom Inputs.rejects_second_call)
         (Notifier.Batch [Inputs.user_inserted "1"; Inputs.order_inserted;
                          Inputs.user_inserted "2"])
         {| initialized := true; own := (0, []); impl_calls := [] |})))
       = take n [Inputs.user_inserted "1"; Inputs.order_inserted; Inputs.user_inserted "2"].
Proof.
  destruct (custom_handler_gets_events_one_by_one Inputs.rejects_second_call
     [Inputs.user_inserted "1"; Inputs.order_inserted; Inputs.user_inserted "2"]
     Inputs.order_inserted
     {| initialized := true; own := (0, []); impl_calls := [] |})
    as ((n & Hn & Hs & _) & _).
  - reflexivity.
  - exists n. split; [exact Hn|exact Hs].
Defined.

End DeliverySpec.

(* ================================================================== *)
(** * Properties of the server-sent-events mechanism                   *)
(* ================================================================== *)


Module SSESpec.
Import SSE MonadFacts.

Section Mechanism.
Variable write_throws : string -> Response -> chunk -> bool.
Variable end_throws : string -> Response -> bool.
Variable heartbeat_option : option Z.

Lemma write_spec (c : chunk) (cl : SSEClientConnection) :
  write write_throws c cl
  = if write_throws (id cl) (res cl) c
    then (cl, Threw (UserError "write failed"))
    else ({| id := id cl;
             res := {| head_sent := head_sent (res cl);
                       written := (written (res cl) ++ [c])%list;
                       ended := ended (res cl) |};
             lastEventId := lastEventId cl |}, Returned tt).
Proof. reflexivity. Qed.

(** One event written to one client. *)
Lemma sendEventToClient_spec (ev : ChangeEvent) (cl : SSEClientConnection) :
  (takes write_throws (id cl) (res cl) (event_chunks ev) = true ->
   sendEventToClient write_throws ev cl
   = ({| id := id cl;
         res := {| head_sent := head_sent (res cl);
                   written := (written (res cl) ++ event_chunks ev)%list;
                   ended := ended (res cl) |};
         lastEventId := Some (ev_id ev) |}, Returned tt))
  /\ (takes write_throws (id cl) (res cl) (event_chunks ev) = false ->
      exists cl' e, sendEventToClient write_throws ev cl = (cl', Threw e)
                    /\ id cl' = id cl).
Proof.
  unfold sendEventToClient, se_bind, write, se_modify, event_chunks.
  cbn [takes id res written head_sent ended].
  repeat match goal with
         | |- context [write_throws ?a ?b ?c] =>
             destruct (write_throws a b c) eqn:?; cbn [negb andb id res written head_sent ended]
         end;
    (split; [try discriminate|try discriminate; intros _; eauto]).
  intros _. rewrite <- !app_assoc. reflexivity.
Qed.

Lemma takes_app (clientId : string) (r : Response) (a b : list chunk) :
  takes write_throws clientId r (a ++ b)
  = takes write_throws clientId r a
    && takes write_throws clientId
         {| head_sent := head_sent r; written := (written r ++ a)%list; ended := ended r |} b.
Proof.
  revert r. induction a as [|c a IH]; intros r.
  - cbn. rewrite app_nil_r. destruct r; reflexivity.
  - cbn [app takes]. rewrite IH. cbn [head_sent written ended].
    rewrite <- app_assoc, andb_assoc. reflexivity.
Qed.

(** The events written to one client, until a write throws. *)
Lemma send_all_spec (events : list ChangeEvent) (cl : SSEClientConnection) :
  (keeps write_throws events cl = true ->
   se_for events (sendEventToClient write_throws) cl = (served events cl, Returned tt))
  /\ (keeps write_throws events cl = false ->
      exists cl' e, se_for events (sendEventToClient write_throws) cl = (cl', Threw e)
                    /\ id cl' = id cl).
Proof.
  revert cl. induction events as [|ev events IH]; intros cl.
  - split; [|discriminate]. intros _. cbn. unfold served. cbn. rewrite app_nil_r.
    destruct cl as [i [h w e] l]. reflexivity.
  - unfold keeps. cbn [fmap list_fmap List.concat]. rewrite takes_app.
    cbn [se_for]. rewrite se_bind_eq.
    destruct (sendEventToClient_spec ev cl) as [H1 H0].
    destruct (takes write_throws (id cl) (res cl) (event_chunks ev)); cbn [andb].
    + rewrite (H1 eq_refl).
      match goal with |- context [se_for events _ ?c] => specialize (IH c) end.
      unfold keeps in IH. cbn [id res written head_sent ended lastEventId] in IH.
      destruct IH as [IHk IHd]. split.
      * intros Hk. rewrite (IHk Hk). unfold served.
        cbn [id res written head_sent ended lastEventId].
        rewrite <- !app_assoc. f_equal. f_equal.
        destruct events as [|e2 events]; [reflexivity|].
        change (last (ev :: e2 :: events)) with (last (e2 :: events)).
        destruct (last (e2 :: events)) eqn:Hl; [reflexivity|].
        apply last_None in Hl. discriminate.
      * intros Hk. destruct (IHd Hk) as (cl' & e & -> & Hid). eauto.
    + split; [discriminate|]. intros _.
      destruct (H0 eq_refl) as (cl' & e & -> & Hid). eauto.
Qed.

Lemma for_each_client_spec (body : SSEClientConnection -> SSEClientConnection + SSEClientConnection)
    (todo kept gone : list SSEClientConnection) :
  for_each_client body todo kept gone
  = ((kept ++ omap (λ cl, match body cl with inl c => Some c | inr _ => None end) todo)%list,
     (gone ++ omap (λ cl, match body cl with inr c => Some c | inl _ => None end) todo)%list).
Proof.
  revert kept gone. induction todo as [|cl todo IH]; intros kept gone.
  - cbn. rewrite !app_nil_r. reflexivity.
  - cbn [for_each_client omap list_omap]. destruct (body cl) as [c|c]; rewrite IH;
      rewrite <- ?app_assoc; reflexivity.
Qed.

(** X24.  A delivery through the server-sent-events mechanism never
    rejects on an initialized instance, and serves each client on its
    own.  The clients whose response takes every chunk stay in the map,
    in their order, each with the three chunks of every event written in
    the order of the events and its last event id set to the id of the
    last event; the clients for which a write throws leave the map, every
    one of them, and only they; the other clients are served whatever
    happened to the ones before them. *)
Theorem sse_delivery_serves_each_client_on_its_own (events : list ChangeEvent)
    (d : Delivery.Instance State) :
  Delivery.initialized d = true ->
  snd (Delivery.deliver (mechanism write_throws end_throws heartbeat_option)
         (Notifier.Batch events) d) = Returned tt
  /\ clients (Delivery.own (fst (Delivery.deliver
                (mechanism write_throws end_throws heartbeat_option)
                (Notifier.Batch events) d)))
     = served events <$> List.filter (keeps write_throws events) (clients (Delivery.own d))
  /\ length (removed (Delivery.own (fst (Delivery.deliver
                (mechanism write_throws end_throws heartbeat_option)
                (Notifier.Batch events) d))))
     = length (removed (Delivery.own d))
       + length (List.filter (λ cl, negb (keeps write_throws events cl))
                             (clients (Delivery.own d)))
  /\ emitted (Delivery.own (fst (Delivery.deliver
                (mechanism write_throws end_throws heartbeat_option)
                (Notifier.Batch events) d)))
     = (emitted (Delivery.own d) ++ events)%list.
Proof.
  intros Hi. unfold Delivery.deliver. rewrite Hi. cbn [negb].
  unfold se_try, Delivery.call_impl. cbn [Delivery.deliverEvent mechanism].
  unfold deliverEvent, se_modify. rewrite for_each_client_spec.
  cbn [fst snd Delivery.own clients removed emitted app].
  split; [reflexivity|]. split; [|split; [|reflexivity]].
  - induction (clients (Delivery.own d)) as [|cl cls IH]; [reflexivity|].
    cbn [omap list_omap List.filter]. unfold serve at 1.
    destruct (send_all_spec events cl) as [Hk Hd].
    destruct (keeps write_throws events cl) eqn:Hkeep.
    + rewrite (Hk eq_refl). cbn [fmap list_fmap]. f_equal. exact IH.
    + destruct (Hd eq_refl) as (cl' & e & -> & _). exact IH.
  - rewrite length_app. f_equal.
    induction (clients (Delivery.own d)) as [|cl cls IH]; [reflexivity|].
    cbn [omap list_omap List.filter]. unfold serve at 1.
    destruct (send_all_spec events cl) as [Hk Hd].
    destruct (keeps write_throws events cl) eqn:Hkeep; cbn [negb].
    + rewrite (Hk eq_refl). exact IH.
    + destruct (Hd eq_refl) as (cl' & e & -> & _). cbn [length]. f_equal. exact IH.
Qed.

End Mechanism.

Lemma sse_delivery_serves_each_client_on_its_own_witness :
  snd (Delivery.deliver
         (mechanism Inputs.gone_refuses_writes Inputs.end_works (Some 30000%Z))
         (Notifier.Batch [Inputs.user_inserted "1"; Inputs.order_inserted])
         {| Delivery.initialized := true; Delivery.own := Inputs.two_sse_clients;
            Delivery.impl_calls := [] |}) = Returned tt
  /\ clients (Delivery.own (fst (Delivery.deliver
         (mechanism Inputs.gone_refuses_writes Inputs.end_works (Some 30000%Z))
         (Notifier.Batch [Inputs.user_inserted "1"; Inputs.order_inserted])
         {| Delivery.initialized := true; Delivery.own := Inputs.two_sse_clients;
            Delivery.impl_calls := [] |})))
     = [served [Inputs.user_inserted "1"; Inputs.order_inserted]
          (Inputs.sse_client "sse-client-1")]
  /\ length (removed (Delivery.own (fst (Delivery.deliver
         (mechanism Inputs.gone_refuses_writes Inputs.end_works (Some 30000%Z))
         (Notifier.Batch [Inputs.user_inserted "1"; Inputs.order_inserted])
         {| Delivery.initialized := true; Delivery.own := Inputs.two_sse_clients;
            Delivery.impl_calls := [] |})))) = 1.
Proof.
  destruct (sse_delivery_serves_each_client_on_its_own
              Inputs.gone_refuses_writes Inputs.end_works (Some 30000%Z)
              [Inputs.user_inserted "1"; Inputs.order_inserted]
              {| Delivery.initialized := true; Delivery.own := Inputs.two_sse_clients;
                 Delivery.impl_calls := [] |}) as (Hr & Hc & Hl & _).
  - reflexivity.
  - split; [exact Hr|]. split; [rewrite Hc; reflexivity|rewrite Hl; reflexivity].
Defined.

End SSESpec.

(* ================================================================== *)
(** * Properties of the start of the notifier                          *)
(* ================================================================== *)

Module StartupSpec.
Import Notifier Startup MonadFacts.

(** What [cleanup] calls and leaves, on a notifier with nothing
    buffered. *)
Lemma cleanup_calls (co : CleanupOutcomes) (s : State) :
  eventBuffer s = [] ->
  exists s',
    cleanup co s = (s', Returned tt)
    /\ adapter s' = false /\ deliveryMechanisms s' = [] /\ isRunning s' = isRunning s
    /\ exists X, trace s' = (trace s ++ X)%list
       /\ calls X
          = ((if adapter s
              then AdapterStop :: (if adapter_stop_ok co then [AdapterTeardown] else [])
              else [])
             ++ (SinkClose <$> deliveryMechanisms s))%list.
Proof.
  intros Hb. unfold cleanup, se_bind. unfold flush_remaining at 1. rewrite Hb.
  assert (H2 : exists s2 X2,
            cleanup_adapter co s = (s2, Returned tt)
            /\ adapter s2 = false /\ deliveryMechanisms s2 = deliveryMechanisms s
            /\ isRunning s2 = isRunning s
            /\ trace s2 = (trace s ++ X2)%list
            /\ calls X2 = (if adapter s
                           then AdapterStop :: (if adapter_stop_ok co
                                                then [AdapterTeardown] else [])
                           else [])).
  { destruct (adapter s) eqn:Ha.
    - destruct (NotifierSpec.cleanup_adapter_calls co s Ha)
        as (Hr & s2 & X2 & Hs & Hd & Hi & Ht & Hc).
      destruct (NotifierSpec.cleanup_adapter_batch co s) as (_ & Ha2).
      destruct (cleanup_adapter co s) as [s2' [[]|e]]; cbn [fst snd] in *; [|discriminate].
      subst s2'. exists s2, X2. repeat split; assumption.
    - unfold cleanup_adapter. rewrite Ha. exists s, []. rewrite app_nil_r.
      repeat split. exact Ha. }
  destruct H2 as (s2 & X2 & -> & Ha2 & Hd2 & Hi2 & Ht2 & Hc2).
  destruct (NotifierSpec.cleanup_sinks co (deliveryMechanisms s2) s2)
    as (Hr3 & s3' & X3 & Hs3 & Ha3 & Hi3 & Ht3 & Hc3).
  destruct (se_for (deliveryMechanisms s2) (close_logged co) s2) as [s3 [[]|e3]];
    cbn [fst snd] in *; [|discriminate].
  subst s3'. unfold se_modify. eexists. split; [reflexivity|].
  destruct (NotifierSpec.clear_batch_timer_frame
              (set_lifecycle (adapter s3) [] (isRunning s3) s3))
    as (_ & _ & _ & Htr & Hdm & _).
  assert (Hal : adapter (clear_batch_timer (set_lifecycle (adapter s3) [] (isRunning s3) s3))
                = adapter s3
                /\ isRunning (clear_batch_timer
                                (set_lifecycle (adapter s3) [] (isRunning s3) s3))
                   = isRunning s3).
  { unfold clear_batch_timer. destruct (batchTimeout _); split; reflexivity. }
  destruct Hal as [Hal Hrl].
  split; [congruence|]. split; [rewrite Hdm; reflexivity|]. split; [congruence|].
  exists (X2 ++ X3)%list. split.
  - rewrite Htr. cbn [trace set_lifecycle]. rewrite Ht3, Ht2, <- app_assoc. reflexivity.
  - rewrite NotifierSpec.calls_app, Hc2, Hc3, Hd2. reflexivity.
Qed.

Section Initialize.
Variable sc : StartupConfig.
Variable so : StartupOutcomes.
Variable co : CleanupOutcomes.

(** The loop over the configured deliveries: the deliveries set up are
    pushed, and the loop goes through exactly when all of them are. *)
Lemma setupDeliveryMechanisms_spec (i : nat) (ms : list Delivery.DeliveryMethod)
    (s : State) :
  fst (setupDeliveryMechanisms so i ms s)
  = set_lifecycle (adapter s) (deliveryMechanisms s ++ set_up so i ms)%list (isRunning s) s
  /\ (snd (setupDeliveryMechanisms so i ms s) = Returned tt
      <-> set_up so i ms = seq i (length ms)).
Proof.
  revert i s. induction ms as [|m ms IH]; intros i s.
  - cbn. rewrite app_nil_r. split; [destruct s; reflexivity|]. split; reflexivity.
  - cbn [setupDeliveryMechanisms set_up length seq]. rewrite se_bind_eq.
    unfold setup_delivery. rewrite se_bind_eq. unfold se_lift.
    destruct (Delivery.createDeliveryMechanism m) as [x|e].
    2:{ cbn. rewrite app_nil_r. split; [destruct s; reflexivity|].
        split; discriminate. }
    destruct (sink_initialize_ok so i).
    2:{ cbn. rewrite app_nil_r. split; [destruct s; reflexivity|].
        split; discriminate. }
    unfold se_modify.
    destruct (IH (S i) (set_lifecycle (adapter s) (deliveryMechanisms s ++ [i])
                          (isRunning s) s)) as [Hs Hr].
    rewrite Hs. cbn [adapter deliveryMechanisms isRunning set_lifecycle].
    rewrite <- app_assoc. split; [reflexivity|]. rewrite Hr. split.
    + intros ->. reflexivity.
    + intros Heq. injection Heq as Heq. exact Heq.
Qed.

(** The [try] block of [initialize] on a notifier just constructed. *)
Lemma initialize_try_spec (c : NotifierConfig) :
  fst (initialize_try sc so (constructed c))
  = (if all_goes_well sc so
     then running c (seq 0 (length (delivery_methods sc)))
     else if adapter_obtained sc so
          then set_lifecycle true (set_up so 0 (delivery_methods sc)) false (constructed c)
          else constructed c)
  /\ (snd (initialize_try sc so (constructed c)) = Returned tt <-> all_goes_well sc so = true).
Proof.
  unfold initialize_try, all_goes_well, adapter_obtained.
  rewrite se_bind_eq. unfold createAdapter. rewrite se_bind_eq. unfold se_lift, getAdapter.
  destruct (bool_decide (database_type sc = "postgresql")); cbn [andb].
  2:{ cbn. split; [reflexivity|]. split; discriminate. }
  destruct (test_connection_ok so); cbn [andb].
  2:{ cbn. split; [reflexivity|]. split; discriminate. }
  unfold se_modify. rewrite se_bind_eq.
  destruct (setupDeliveryMechanisms_spec 0 (delivery_methods sc)
              (set_lifecycle true (deliveryMechanisms (constructed c))
                 (isRunning (constructed c)) (constructed c))) as [Hs Hr].
  destruct (setupDeliveryMechanisms so 0 (delivery_methods sc) _) as [s1 r1];
    cbn [fst snd] in *.
  subst s1. cbn [adapter deliveryMechanisms isRunning set_lifecycle constructed app] in *.
  case_bool_decide as Hall; cbn [andb].
  - pose proof Hall as Hret. apply Hr in Hret. subst r1. rewrite se_bind_eq.
    unfold adapter_setup.
    destruct (setup_ok so); cbn [andb].
    2:{ cbn. split; [reflexivity|]. split; discriminate. }
    cbn [se_ret]. rewrite se_bind_eq. unfold adapter_start.
    destruct (start_ok so); cbn [andb].
    2:{ cbn. split; [reflexivity|]. split; discriminate. }
    cbn. rewrite Hall. split; [reflexivity|]. split; reflexivity.
  - destruct r1 as [[]|e].
    + exfalso. apply Hall, Hr. reflexivity.
    + cbn. split; [reflexivity|]. split; discriminate.
Qed.

(** X25.  [initialize()] resolves exactly when the database type is
    supported, the connection test passes, every configured delivery can
    be created and initialized, and the adapter sets up and starts.  The
    notifier is then running on all the configured deliveries, in the
    order of the configuration, with fresh statistics; nothing was cleaned
    up. *)
Theorem initialize_resolves_when_every_step_does (c : NotifierConfig) :
  (snd (initialize sc so co (constructed c)) = Returned tt
   <-> all_goes_well sc so = true)
  /\ (all_goes_well sc so = true ->
      fst (initialize sc so co (constructed c))
      = running c (seq 0 (length (delivery_methods sc)))).
Proof.
  destruct (initialize_try_spec c) as [Hs Hr].
  unfold initialize, se_try.
  destruct (initialize_try sc so (constructed c)) as [s1 [[]|e]]; cbn [fst snd] in *.
  - assert (Hw : all_goes_well sc so = true) by (apply Hr; reflexivity).
    split; [split; [intros _; exact Hw | reflexivity]|].
    intros _. rewrite Hs, Hw. reflexivity.
  - destruct (all_goes_well sc so) eqn:Hw.
    + exfalso. destruct Hr as [_ Hr]. specialize (Hr eq_refl). discriminate.
    + split; [|discriminate]. split; [|discriminate].
      rewrite se_bind_eq.
      destruct (cleanup_calls co s1) as (s' & Hc & _).
      { rewrite Hs. destruct (adapter_obtained sc so); reflexivity. }
      rewrite Hc. cbn. discriminate.
Qed.

(** What a failed [initialize] throws, leaves and calls. *)
Lemma initialize_failure (c : NotifierConfig) :
  all_goes_well sc so = false ->
  exists cause,
    snd (initialize_try sc so (constructed c)) = Threw cause
    /\ snd (initialize sc so co (constructed c))
       = Threw (DBChangeError "Failed to initialize change notifier" cause)
    /\ isRunning (fst (initialize sc so co (constructed c))) = false
    /\ adapter (fst (initialize sc so co (constructed c))) = false
    /\ deliveryMechanisms (fst (initialize sc so co (constructed c))) = []
    /\ calls (trace (fst (initialize sc so co (constructed c))))
       = if adapter_obtained sc so
         then (AdapterStop :: (if adapter_stop_ok co then [AdapterTeardown] else [])
               ++ (SinkClose <$> set_up so 0 (delivery_methods sc)))%list
         else [].
Proof.
  intros Hw. destruct (initialize_try_spec c) as [Hs Hr].
  unfold initialize, se_try.
  destruct (initialize_try sc so (constructed c)) as [s1 [[]|e]]; cbn [fst snd] in *.
  { destruct Hr as [Hr _]. specialize (Hr eq_refl). congruence. }
  exists e. split; [reflexivity|]. rewrite se_bind_eq.
  destruct (cleanup_calls co s1) as (s' & Hc & Ha & Hd & Hi & X & Ht & Hx).
  { rewrite Hs, Hw. destruct (adapter_obtained sc so); reflexivity. }
  rewrite Hc. cbn [fst snd se_throw].
  split; [reflexivity|]. rewrite Hs, Hw in Hi, Ht, Hx.
  split; [rewrite Hi; destruct (adapter_obtained sc so); reflexivity|].
  split; [exact Ha|]. split; [exact Hd|].
  rewrite Ht. destruct (adapter_obtained sc so).
  - cbn [trace set_lifecycle constructed app adapter deliveryMechanisms] in *.
    rewrite Hx. reflexivity.
  - cbn [trace constructed app adapter deliveryMechanisms fmap list_fmap] in *.
    rewrite Hx. reflexivity.
Qed.


(** X26.  When a step of [initialize()] fails, the error thrown is one
    [DBChangeError] "Failed to initialize change notifier" whose cause is
    the error of the step, and before it is thrown the clean-up makes
    these calls, and no other: [stop()] on the adapter if the adapter was
    obtained; [teardownChangeNotifications()] only if that [stop()]
    resolved; then [close()] on every delivery that was set up before the
    failure, in order, and on no delivery that failed to initialize.  The
    notifier then refers to no adapter and no delivery and is not
    running.  The theorem is about the calls made, not about what they
    achieve: on an adapter whose [start()] failed, [stop()] returns at
    once and the listener keeps its retry. *)
Theorem failed_initialize_makes_the_cleanup_calls (c : NotifierConfig) :
  all_goes_well sc so = false ->
  exists cause,
    snd (initialize_try sc so (constructed c)) = Threw cause
    /\ snd (initialize sc so co (constructed c))
       = Threw (DBChangeError "Failed to initialize change notifier" cause)
    /\ isRunning (fst (initialize sc so co (constructed c))) = false
    /\ adapter (fst (initialize sc so co (constructed c))) = false
    /\ deliveryMechanisms (fst (initialize sc so co (constructed c))) = []
    /\ calls (trace (fst (initialize sc so co (constructed c))))
       = if adapter_obtained sc so
         then (AdapterStop :: (if adapter_stop_ok co then [AdapterTeardown] else [])
               ++ (SinkClose <$> set_up so 0 (delivery_methods sc)))%list
         else [].
Proof. exact (initialize_failure c). Qed.

Lemma set_up_length (i : nat) (ms : list Delivery.DeliveryMethod) :
  length (set_up so i ms) <= length ms /\ forall j, j ∈ set_up so i ms -> j < i + length ms.
Proof.
  revert i. induction ms as [|m ms IH]; intros i; cbn [set_up length].
  - split; [lia|]. intros j Hj. apply elem_of_nil in Hj. contradiction.
  - destruct (Delivery.createDeliveryMechanism m);
      [destruct (sink_initialize_ok so i)|];
      try (split; [cbn; lia|intros j Hj; apply elem_of_nil in Hj; contradiction]).
    destruct (IH (S i)) as [Hl Hb]. split; [cbn; lia|].
    intros j Hj. apply elem_of_cons in Hj. destruct Hj as [->|Hj]; [lia|].
    apply Hb in Hj. lia.
Qed.

Lemma set_up_stops (i : nat) (before after : list Delivery.DeliveryMethod)
    (m : Delivery.DeliveryMethod) (e : js_error) :
  Delivery.createDeliveryMechanism m = Threw e ->
  set_up so i (before ++ m :: after) = set_up so i before.
Proof.
  intros Hm. revert i. induction before as [|b before IH]; intros i; cbn [set_up app].
  - rewrite Hm. reflexivity.
  - destruct (Delivery.createDeliveryMechanism b); [|reflexivity].
    destruct (sink_initialize_ok so i); [|reflexivity]. rewrite IH. reflexivity.
Qed.

(** X27.  The factory has no implementation for the WebSocket and the HTTP
    webhook delivery: the notifier of a configuration that names one of
    them cannot be started, whatever the database and the other deliveries
    do.  [initialize()] rejects, the notifier is not running and holds no
    delivery, and only deliveries configured before the unimplemented one
    were set up and closed again. *)
Theorem unimplemented_delivery_fails_the_start (c : NotifierConfig)
    (before after : list Delivery.DeliveryMethod) (m : Delivery.DeliveryMethod) :
  delivery_methods sc = (before ++ m :: after)%list ->
  m = Delivery.WEBSOCKET \/ m = Delivery.HTTP_WEBHOOK ->
  (exists cause,
     snd (initialize sc so co (constructed c))
     = Threw (DBChangeError "Failed to initialize change notifier" cause))
  /\ isRunning (fst (initialize sc so co (constructed c))) = false
  /\ deliveryMechanisms (fst (initialize sc so co (constructed c))) = []
  /\ forall i, SinkClose i ∈ calls (trace (fst (initialize sc so co (constructed c)))) ->
               i < length before.
Proof.
  intros Hms Hm.
  assert (Hthrow : exists e, Delivery.createDeliveryMechanism m = Threw e)
    by (destruct Hm as [->| ->]; eexists; reflexivity).
  destruct Hthrow as [e He].
  assert (Hw : all_goes_well sc so = false).
  { unfold all_goes_well. rewrite Hms, (set_up_stops 0 before after m e He).
    rewrite (bool_decide_eq_false_2
               (set_up so 0 before = seq 0 (length (before ++ m :: after)))).
    - rewrite !andb_false_r, andb_false_l. reflexivity.
    - intros Heq. apply (f_equal length) in Heq.
      rewrite length_seq, length_app in Heq. cbn [length] in Heq.
      destruct (set_up_length 0 before) as [Hl _]. lia. }
  destruct (initialize_failure c Hw) as (cause & _ & Hr & Hi & _ & Hd & Hc).
  split; [exists cause; exact Hr|]. split; [exact Hi|]. split; [exact Hd|].
  intros i Hin. rewrite Hc in Hin. destruct (adapter_obtained sc so).
  - apply elem_of_cons in Hin. destruct Hin as [Hin|Hin]; [discriminate|].
    apply elem_of_app in Hin. destruct Hin as [Hin|Hin].
    + destruct (adapter_stop_ok co).
      * apply elem_of_cons in Hin. destruct Hin as [Hin|Hin]; [discriminate|].
        apply elem_of_nil in Hin. contradiction.
      * apply elem_of_nil in Hin. contradiction.
    + apply list_elem_of_fmap_1 in Hin. destruct Hin as (j & Hj & Hin).
      injection Hj as ->. rewrite Hms, (set_up_stops 0 before after m e He) in Hin.
      apply (set_up_length 0 before) in Hin. lia.
  - apply elem_of_nil in Hin. contradiction.
Qed.

End Initialize.

Lemma initialize_resolves_when_every_step_does_witness :
  initialize Inputs.sse_and_custom Inputs.everything_works Inputs.cleanup_works
    (constructed Inputs.batches_of_two)
  = (running Inputs.batches_of_two [0; 1], Returned tt).
Proof.
  destruct (initialize_resolves_when_every_step_does
              Inputs.sse_and_custom Inputs.everything_works Inputs.cleanup_works
              Inputs.batches_of_two) as [[_ Hr] Hs].
  specialize (Hr eq_refl). specialize (Hs eq_refl).
  rewrite (surjective_pairing (initialize _ _ _ _)), Hr, Hs. reflexivity.
Defined.

Lemma failed_initialize_makes_the_cleanup_calls_witness :
  snd (initialize Inputs.three_deliveries Inputs.second_delivery_fails Inputs.cleanup_works
         (constructed Inputs.batches_of_two))
  = Threw (DBChangeError "Failed to initialize change notifier"
             (DeliveryError "Failed to initialize delivery mechanism"))
  /\ calls (trace (fst (initialize Inputs.three_deliveries Inputs.second_delivery_fails
                          Inputs.cleanup_works (constructed Inputs.batches_of_two))))
     = [AdapterStop; AdapterTeardown; SinkClose 0].
Proof.
  destruct (failed_initialize_makes_the_cleanup_calls
              Inputs.three_deliveries Inputs.second_delivery_fails Inputs.cleanup_works
              Inputs.batches_of_two) as (cause & Hc & Hr & _ & _ & _ & Ht).
  - reflexivity.
  - vm_compute in Hc. injection Hc as <-. split; [exact Hr|exact Ht].
Defined.

Lemma unimplemented_delivery_fails_the_start_witness :
  isRunning (fst (initialize Inputs.sse_websocket_custom Inputs.everything_works
                    Inputs.cleanup_works (constructed Inputs.batches_of_two))) = false
  /\ forall i,
       SinkClose i ∈ calls (trace (fst (initialize Inputs.sse_websocket_custom
                                          Inputs.everything_works Inputs.cleanup_works
                                          (constructed Inputs.batches_of_two)))) ->
       i < 1.
Proof.
  destruct (unimplemented_delivery_fails_the_start
              Inputs.sse_websocket_custom Inputs.everything_works Inputs.cleanup_works
              Inputs.batches_of_two [Delivery.SERVER_SENT_EVENTS] [Delivery.CUSTOM]
              Delivery.WEBSOCKET) as (_ & Hi & _ & Hc).
  - reflexivity.
  - left. reflexivity.
  - split; [exact Hi|exact Hc].
Defined.

End StartupSpec.
